(** * The asset layer of the engine: buffers, meshes, textures, managers

    A shallow embedding of the Go package [asset] (vertexarray.go,
    meshutil.go, mesh, texture, material and manager sources) together with
    the properties its specification states about it.

    Conventions of the embedding.
    - A Go [int] is a [Z]; arithmetic that the code performs on it goes
      through [GoInt], which writes the 64-bit two's complement wrap out.
      [uint32] handles and OpenGL enums are [Z] as well.
    - A value of type [interface{}] that the code inspects with [reflect] and
      a type switch is a [GoValue.value]: the nil interface, a slice with its
      element type, length and capacity, or something that is not a slice.
      The code never reads the elements, it only hands their address to the
      driver, so a slice carries no contents.
    - The OpenGL driver is a state [GL.state]: the object names handed out,
      the live buffer objects with the size of their data store, and the
      trace of the calls issued.
    - A function that can panic, or recurse without bound, returns a
      [res]: [Ret] with the value and the state left behind, [Abort] with
      the panic and the state left behind, or [Diverge].
    - A pointer is an [option loc], [None] being nil; objects that are
      shared through pointers (managers, materials) live in a store. *)

From Stdlib Require Import ZArith Lia.
From stdpp Require Import base decidable option numbers list strings pretty gmap.

Local Open Scope Z_scope.

(** ** Go integers *)

Module GoInt.

(** [wrap w x]: the signed [w]-bit integer that the bit pattern of [x]
    denotes. *)
Definition wrap (w : Z) (x : Z) : Z :=
  (x + 2 ^ (w - 1)) mod 2 ^ w - 2 ^ (w - 1).

Definition int (x : Z) : Z := wrap 64 x.
Definition int32 (x : Z) : Z := wrap 32 x.

Definition max_int : Z := 2 ^ 63 - 1.
Definition min_int : Z := - 2 ^ 63.

Definition add (a b : Z) : Z := int (a + b).
Definition mul (a b : Z) : Z := int (a * b).

(** [a / b] and [a % b] of Go truncate towards zero; the caller has to
    rule out [b = 0], where Go panics. *)
Definition quot (a b : Z) : Z := int (Z.quot a b).
Definition rem (a b : Z) : Z := Z.rem a b.

Definition in_range (x : Z) : Prop := min_int <= x <= max_int.

End GoInt.

(** ** Errors, panics and outcomes *)

(** One constructor per error the package builds; the format string of the
    source is given next to each. *)
Inductive error : Type :=
  (* "AttribArray error: '%s' length %d is not a multiple of elements %d" *)
  | AttribLenError (name : string) (length Dims : Z)
  (* "AttribArray error: '%s' data is not a slice" *)
  | AttribNotSlice (name : string)
  (* "AttribArray error: '%s' length is zero" *)
  | AttribZeroLength (name : string)
  (* "AttribArray error: unhandled element type for '%s'" *)
  | AttribUnhandledType (name : string)
  (* "asset.NewElementArray error: data length is zero" *)
  | ElementZeroLength
  (* "Mesh '%s' error: AttribArray sizes are inconsistent." *)
  | MeshInconsistent (mesh : string)
  (* "asset.Texture.LoadSubImage error: image out of bounds" *)
  | TextureOutOfBounds
  (* "asset.Texture.LoadImage error: invalid image size" *)
  | TextureInvalidSize
  (* "Assets.Texture.LoadSubRGBA error: could not map buffer" *)
  | TextureMapFailed
  (* "Material error: material '%s' has no shader program from which to get
     uniform locations" *)
  | MaterialNoProgram (material : string)
  (* "Material error: material '%s' has no uniform '%s'" *)
  | MaterialNoUniform (material uniform : string)
  (* "asset.Manager.AddMaterial error: material '%s' already exists" *)
  | MaterialExists (name : string)
  (* "asset.Manager.AddMesh error: Mesh '%s' already exists" *)
  | MeshExists (name : string)
  (* "asset.Manager.AddShader error: Shader '%s' already exists" *)
  | ShaderExists (name : string)
  (* "asset.Manager.AddProgram error: Program '%v' already exists" *)
  | ProgramExists (Vs Fs Gs : Z)
  (* "asset.Manager.AddTexture error: texture %s already exists" *)
  | TextureExists (name : string)
  (* errors.New(string(log)) after a failed compile or link *)
  | InfoLog (log : string)
  (* the error of os.Open or ioutil.ReadAll *)
  | FileError (path : string).

(** What stops a Go function abruptly. *)
Inductive panic : Type :=
  | Panic (msg : string)            (* panic("...") *)
  | PanicError (e : panic_error)    (* panic(fmt.Errorf(...)) *)
  | DivideByZero                    (* runtime error: integer divide by zero *)
  | IndexOutOfRange                 (* runtime error: index out of range *)
  | SliceOutOfRange                 (* runtime error: slice bounds out of range *)
  | NilDereference                  (* runtime error: invalid memory address *)
with panic_error : Type :=
  (* "MakeMesh error: Mesh '%s' '%s' data is not a slice" *)
  | MakeMeshNotSlice (mesh attr : string)
  (* "MakeMesh error: Mesh '%s' must have a 'pos' attribute" *)
  | MakeMeshNoPos (mesh : string)
  (* "MakeMesh error: no element array for Mesh '%s'" *)
  | MakeMeshNoElems (mesh : string).

(** A Go result [(T, error)]. *)
Inductive result (A : Type) : Type :=
  | Ok (a : A)
  | Err (e : error).
Arguments Ok {A} a.
Arguments Err {A} e.

Inductive res (S A : Type) : Type :=
  | Ret (a : A) (s : S)
  | Abort (p : panic) (s : S)
  | Diverge.
Arguments Ret {S A} a s.
Arguments Abort {S A} p s.
Arguments Diverge {S A}.

Definition M (S A : Type) : Type := S -> res S A.

Definition ret {S A} (a : A) : M S A := fun s => Ret a s.
Definition throw {S A} (p : panic) : M S A := fun s => Abort p s.
Definition bind {S A B} (m : M S A) (k : A -> M S B) : M S B :=
  fun s =>
    match m s with
    | Ret a s' => k a s'
    | Abort p s' => Abort p s'
    | Diverge => Diverge
    end.
Definition get {S} : M S S := fun s => Ret s s.
Definition modify {S} (f : S -> S) : M S unit := fun s => Ret tt (f s).

Declare Scope go_scope.
Delimit Scope go_scope with go.
Notation "x <- m ;; k" := (bind m (fun x => k))
  (at level 100, m at next level, right associativity) : go_scope.
Notation "m ;;; k" := (bind m (fun _ => k))
  (at level 100, right associativity) : go_scope.

(** ** Values passed as [interface{}] *)

Module GoValue.

(** Element types of the slices the package is given. [OtherElem] stands
    for any element type none of the type switches lists. *)
Inductive elem : Type :=
  | Uint8 | Uint32 | Float32 | Float64
  | Vec2f | Vec3f        (* mgl32.Vec2, mgl32.Vec3 *)
  | Vec2d | Vec3d        (* mgl64.Vec2, mgl64.Vec3 *)
  | OtherElem.

#[global] Instance elem_eq_dec : EqDecision elem.
Proof. solve_decision. Defined.

Inductive value : Type :=
  | Nil                                   (* the nil interface *)
  | Slice (t : elem) (len cap : N)        (* a slice of [t] *)
  | NotSlice.                             (* any other value *)

(** [reflect.ValueOf(data).Kind() == reflect.Slice] *)
Definition is_slice (v : value) : bool :=
  match v with Slice _ _ _ => true | _ => false end.

(** [data == nil] on the interface value *)
Definition is_nil (v : value) : bool :=
  match v with Nil => true | _ => false end.

End GoValue.
Import GoValue.

(** ** The OpenGL driver *)

(** Uniform values [DrawUniforms] knows, and the rest. The numeric payload
    of the float variants is not inspected by the package. *)
Inductive uniform : Type :=
  | UInt32 (v : Z)
  | UFloat32 (bits : Z)
  | UVec2 (bits : list Z)
  | UVec3 (bits : list Z)
  | UVec4 (bits : list Z)
  | UMat4 (bits : list Z)
  | UOther.

Module GL.

(** Enumerants, with the values of the OpenGL headers. *)
Definition UNSIGNED_BYTE : Z := 5121.
Definition UNSIGNED_INT : Z := 5125.
Definition FLOAT : Z := 5126.
Definition DOUBLE : Z := 5130.
Definition STATIC_DRAW : Z := 35044.
Definition STREAM_DRAW : Z := 35040.
Definition TRIANGLES : Z := 4.
Definition VERTEX_SHADER : Z := 35633.
Definition FRAGMENT_SHADER : Z := 35632.
Definition GEOMETRY_SHADER : Z := 36313.

Inductive call : Type :=
  | CBufferData (buf size usage : Z)
  | CBufferSubData (buf size : Z)     (* glBufferSubData(target, 0, size, ptr) *)
  | CUseProgram (prog : Z)
  | CUniform1i (loc : Z) (v : Z)
  | CUniform1f (loc : Z) (bits : Z)
  | CUniform2fv (loc : Z) (bits : list Z)
  | CUniform3fv (loc : Z) (bits : list Z)
  | CUniform4fv (loc : Z) (bits : list Z)
  | CUniformMatrix4fv (loc : Z) (bits : list Z)
  | CBindVertexArray (array : Z)
  | CDrawElements (prim count typ : Z)
  | CBindTexture (unit_ : Z) (tex : Z)
  | CTexSubImage2D (tex : Z) (level x y w h : Z) (staged : list Z)
  | CCompileShader (shader typ : Z)
  | CLinkProgram (prog Vs Fs Gs : Z).

Record state : Type := mk {
  names : Z;               (* object names handed out so far: 1 .. names *)
  buffers : gmap Z Z;      (* live buffer objects, with their store size *)
  trace : list call        (* calls issued, oldest first *)
}.

Definition init : state := mk 0 ∅ [].

Definition issue (c : call) (g : state) : state :=
  mk (names g) (buffers g) (trace g ++ [c]).

(** [glGenBuffers(1, &buf)] *)
Definition GenBuffers : M state Z := fun g =>
  let b := names g + 1 in
  Ret b (mk b (<[b := 0]> (buffers g)) (trace g)).

(** [glBindBuffer(target, buf); glBufferData(target, size, ptr, usage);
    glBindBuffer(target, 0)]: a (re)allocation of the store of [buf]. *)
Definition BufferData (buf size usage : Z) : M state unit := fun g =>
  Ret tt (mk (names g)
             (match buffers g !! buf with
              | Some _ =>
                  (* a negative size is GL_INVALID_VALUE: no effect *)
                  if decide (size < 0) then buffers g
                  else <[buf := size]> (buffers g)
              | None => buffers g
              end)
             (trace g ++ [CBufferData buf size usage])).

(** [glDeleteBuffers(1, &buf)]: unknown names and 0 are ignored. *)
Definition DeleteBuffers (buf : Z) : M state unit := fun g =>
  Ret tt (mk (names g) (delete buf (buffers g)) (trace g)).

(** [glGenTextures], [glGenVertexArrays], [glCreateShader],
    [glCreateProgram]: a fresh object name. *)
Definition GenName : M state Z := fun g =>
  let n := names g + 1 in Ret n (mk n (buffers g) (trace g)).

Definition Issue (c : call) : M state unit := fun g => Ret tt (issue c g).

(** A buffer object is live while its name is in [buffers]. *)
Definition live (buf : Z) (g : state) : Prop := is_Some (buffers g !! buf).

#[global] Instance live_dec buf g : Decision (live buf g).
Proof. unfold live. apply _. Defined.

End GL.

(** *** Vertex array objects *)

(** The part of the driver that [glBindVertexArray] selects: per vertex
    array object, the attribute slots that are enabled, what
    [glVertexAttribPointer] recorded for each slot, and the element buffer. *)
Module VertexArray.

(** What [glVertexAttribPointer(loc, size, type, false, 0, nil)] records:
    the buffer bound to [GL_ARRAY_BUFFER] at the call, the size and the
    type. *)
Record pointer : Type := mkPointer { buffer : Z; size : Z; type_ : Z }.

Record object : Type := mkObject {
  enabled : gset Z;
  pointers : gmap Z pointer;
  elements : Z
}.

Record state : Type := mk {
  objects : gmap Z object;   (* the vertex array objects that exist *)
  bound : Z                  (* the one that is bound, or 0 *)
}.

Definition init : state := mk ∅ 0.

(** The change [f] on the bound object; without one the call is an
    error and changes nothing. *)
Definition on_bound (f : object -> object) : M state unit := fun s =>
  Ret tt (mk (match objects s !! bound s with
              | Some o => <[bound s := f o]> (objects s)
              | None => objects s
              end) (bound s)).

(** [glBindVertexArray(array)]; the object of a generated name comes into
    being when the name is first bound. *)
Definition BindVertexArray (array : Z) : M state unit := fun s =>
  Ret tt
      (if decide (array = 0) then mk (objects s) 0
       else mk (match objects s !! array with
                | Some _ => objects s
                | None => <[array := mkObject ∅ ∅ 0]> (objects s)
                end) array).

(** [glEnableVertexAttribArray(loc)] *)
Definition EnableVertexAttribArray (loc : Z) : M state unit :=
  on_bound (fun o => mkObject ({[loc]} ∪ enabled o) (pointers o) (elements o)).

(** [glVertexAttribPointer(loc, size, type, false, 0, nil)] with [buf]
    bound to [GL_ARRAY_BUFFER]; a size outside 1..4 is GL_INVALID_VALUE
    and changes nothing. *)
Definition VertexAttribPointer (loc buf size type_ : Z) : M state unit :=
  if decide (1 <= size <= 4) then
    on_bound (fun o => mkObject (enabled o)
                         (<[loc := mkPointer buf size type_]> (pointers o))
                         (elements o))
  else ret tt.

(** [glBindBuffer(GL_ELEMENT_ARRAY_BUFFER, buf)] *)
Definition BindElementBuffer (buf : Z) : M state unit :=
  on_bound (fun o => mkObject (enabled o) (pointers o) buf).

(** [glDeleteVertexArrays(1, &array)]; deleting the bound object binds 0. *)
Definition DeleteVertexArrays (array : Z) : M state unit := fun s =>
  Ret tt (mk (delete array (objects s))
             (if decide (bound s = array) then 0 else bound s)).

End VertexArray.

(** *** Texture images *)

(** The images of the texture objects, by texture name and mip level, as
    [glTexImage2D] defines them. *)
Module TexImage.

Record image : Type := mkImage { width : Z; height : Z; pixels : list Z }.

Definition state : Type := gmap (Z * Z) image.

(** [glTexImage2D(GL_TEXTURE_2D, level, GL_RGBA, w, h, 0, GL_RGBA,
    GL_UNSIGNED_BYTE, ptr)] with [tex] bound and no buffer bound to
    GL_PIXEL_UNPACK_BUFFER: the image takes the [4 * w * h] bytes at
    [ptr], here the front of [pix]. A negative level, width or height is
    GL_INVALID_VALUE and changes nothing. *)
Definition TexImage2D (tex level w h : Z) (pix : list Z) : M state unit :=
  fun s =>
    Ret tt (if decide (0 <= level /\ 0 <= w /\ 0 <= h)
            then <[(tex, level) := mkImage w h (take (Z.to_nat (4 * w * h)) pix)]> s
            else s).

(** [glDeleteTextures(1, &tex)] *)
Definition DeleteTextures (tex : Z) : M state unit := fun s =>
  Ret tt (filter (fun kv => fst (fst kv) ≠ tex) s).

End TexImage.

(** The texture units: the active one, and the texture bound to
    GL_TEXTURE_2D on each unit that was ever bound on. [units] is the
    number of units of the implementation. *)
Module TextureUnit.

Definition TEXTURE0 : Z := 33984.

(** A conversion to, and arithmetic in, [uint32]. *)
Definition uint32 (x : Z) : Z := x mod 2 ^ 32.

Record state : Type := mk { active : Z; bound : gmap Z Z }.

Definition init : state := mk TEXTURE0 ∅.

(** [glActiveTexture(texture)]: a value that is not one of the units is
    GL_INVALID_ENUM and changes nothing. *)
Definition ActiveTexture (units : Z) (texture : Z) : M state unit := fun s =>
  Ret tt (if decide (TEXTURE0 <= texture < TEXTURE0 + units)
          then mk texture (bound s) else s).

(** [glBindTexture(GL_TEXTURE_2D, tex)], on the active unit. *)
Definition BindTexture (tex : Z) : M state unit := fun s =>
  Ret tt (mk (active s) (<[active s := tex]> (bound s))).

End TextureUnit.

(** ** vertexarray.go: attribute arrays *)

Module AttribArray.

(** [type AttribArray struct]. The field [Type] is [Type_] here. *)
Record t : Type := mk {
  Name : string;   (* attrib location name for linking with shader *)
  Dims : Z;        (* number dimensions per Attribute *)
  Type_ : Z;       (* OpenGL datatype of Attribute elements *)
  Buf : Z;         (* the OpenGL buffer handle *)
  Len : Z;         (* the length of the buffer in elements *)
  Cap : Z          (* the maximum capacity of the buffer in elements *)
}.

Definition set_Len (l : Z) (arr : t) : t :=
  mk (Name arr) (Dims arr) (Type_ arr) (Buf arr) l (Cap arr).
Definition set_Buf (b : Z) (arr : t) : t :=
  mk (Name arr) (Dims arr) (Type_ arr) b (Len arr) (Cap arr).

(** What the type switch of [NewAttribArray] leaves a case with. *)
Inductive switched : Type :=
  | Case (size typ l : Z)
  | CasePanic (p : panic)
  | CaseDefault.

(** [func NewAttribArray(name string, dims int, data interface{},
    usage uint32)], returning a pointer to the array and an error. *)
Definition NewAttribArray (name : string) (dims : Z) (data : value) (usage : Z)
  : M GL.state (result t) :=
  match data with
  | Slice ty len _ =>
      let l := Z.of_N len in
      if decide (l = 0) then ret (Err (AttribZeroLength name))
      else
        let sw :=
          match ty with
          | Uint8 => Case 1 GL.UNSIGNED_BYTE l
          | Float32 => Case 4 GL.FLOAT l
          | Vec2f =>
              if decide (dims ≠ 2)
              then CasePanic (Panic "AttribArray error: dimension mismatch")
              else Case 4 GL.FLOAT (GoInt.mul l 2)
          | Vec3f =>
              if decide (dims ≠ 3)
              then CasePanic (Panic "AttribArray error: dimension mismatch")
              else Case 4 GL.FLOAT (GoInt.mul l 3)
          | Float64 => Case 8 GL.DOUBLE l
          | Vec2d =>
              if decide (dims ≠ 2)
              then CasePanic (Panic "AttribArray error: dimension mismatch")
              else Case 8 GL.DOUBLE (GoInt.mul l 2)
          | Vec3d =>
              if decide (dims ≠ 3)
              then CasePanic (Panic "AttribArray error: dimension mismatch")
              else Case 8 GL.DOUBLE (GoInt.mul l 3)
          | _ => CaseDefault
          end in
        match sw with
        | CaseDefault => ret (Err (AttribUnhandledType name))
        | CasePanic p => throw p
        | Case size typ l =>
            if decide (dims = 0) then throw DivideByZero
            else if decide (GoInt.rem l dims ≠ 0)
            then ret (Err (AttribLenError name l dims))
            else
              (buf <- GL.GenBuffers ;;
               let arr := mk name dims typ buf l l in
               GL.BufferData (Buf arr) (GoInt.mul (Len arr) size) usage ;;;
               ret (Ok arr))%go
        end
  | _ => ret (Err (AttribNotSlice name))
  end.

(** The statements of [Update] after its type switch. *)
Definition Update_upload (size typ : Z) : M (t * GL.state) (option error) :=
  fun '(arr, g) =>
    if decide (Type_ arr ≠ typ)
    then Abort (Panic "asset.AttribArray.Update error: data type does not match array type") (arr, g)
    else if decide (Dims arr = 0) then Abort DivideByZero (arr, g)
    else if decide (GoInt.rem (Len arr) (Dims arr) ≠ 0)
    then Abort (Panic "asset.AttribArray.Update error: invalid data length") (arr, g)
    else
      Ret None
          (arr, GL.issue (GL.CBufferSubData (Buf arr) (GoInt.mul (Len arr) size)) g).

(** [func (arr *AttribArray) Update(data interface{}) error], on a
    receiver that is not nil. The state is the array and the driver. *)
Definition Update (data : value) : M (t * GL.state) (option error) :=
  fun '(arr, g) =>
    match data with
    | Slice ty len _ =>
        let l := Z.of_N len in
        let arr := set_Len l arr in
        if decide (l = 0) then Ret None (arr, g)
        else if decide (l > Cap arr)
        then Abort (Panic "asset.AttribArray.Update error: data length is longer than buffer") (arr, g)
        else
          match ty with
          | Uint8 => Update_upload 1 GL.UNSIGNED_BYTE (arr, g)
          | Float32 => Update_upload 4 GL.FLOAT (arr, g)
          | Vec2f =>
              if decide (Dims arr ≠ 2)
              then Abort (Panic "AttribArray error: dimension mismatch") (arr, g)
              else Update_upload 4 GL.FLOAT
                     (set_Len (GoInt.mul (Len arr) 2) arr, g)
          | Vec3f =>
              if decide (Dims arr ≠ 3)
              then Abort (Panic "AttribArray error: dimension mismatch") (arr, g)
              else Update_upload 4 GL.FLOAT
                     (set_Len (GoInt.mul (Len arr) 3) arr, g)
          | Float64 => Update_upload 8 GL.DOUBLE (arr, g)
          | Vec2d =>
              if decide (Dims arr ≠ 2)
              then Abort (Panic "AttribArray error: dimension mismatch") (arr, g)
              else Update_upload 8 GL.DOUBLE
                     (set_Len (GoInt.mul (Len arr) 2) arr, g)
          | Vec3d =>
              if decide (Dims arr ≠ 3)
              then Abort (Panic "AttribArray error: dimension mismatch") (arr, g)
              else Update_upload 8 GL.DOUBLE
                     (set_Len (GoInt.mul (Len arr) 3) arr, g)
          | _ => Ret (Some (AttribUnhandledType (Name arr))) (arr, g)
          end
    | _ => Abort (Panic "asset.AttribArray.Update error: data is not a slice") (arr, g)
    end.

(** [func (arr *AttribArray) Attribs() int]: [arr.Len / arr.Dims]. *)
Definition Attribs {S} (arr : t) : M S Z :=
  if decide (Dims arr = 0) then throw DivideByZero
  else ret (GoInt.quot (Len arr) (Dims arr)).

(** [func (arr *AttribArray) Clean()], on a pointer that may be nil; the
    array comes back with its handle zeroed. *)
Definition Clean (arr : option t) : M GL.state (option t) :=
  match arr with
  | None => ret None
  | Some a =>
      (GL.DeleteBuffers (Buf a) ;;;
       ret (Some (set_Buf 0 a)))%go
  end.

(** [func (arr *AttribArray) Init(loc uint32)], on a receiver that is not
    nil. *)
Definition Init (arr : t) (loc : Z) : M VertexArray.state unit :=
  (VertexArray.EnableVertexAttribArray loc ;;;
   VertexArray.VertexAttribPointer loc (Buf arr) (GoInt.int32 (Dims arr))
     (Type_ arr))%go.

End AttribArray.

(** ** vertexarray.go: element arrays *)

Module ElementArray.

(** [type ElementArray struct] *)
Record t : Type := mk {
  Type_ : Z;
  Buf : Z;
  Len : Z;
  Cap : Z
}.

Definition set_Len (l : Z) (arr : t) : t :=
  mk (Type_ arr) (Buf arr) l (Cap arr).
Definition set_Type (ty : Z) (arr : t) : t :=
  mk ty (Buf arr) (Len arr) (Cap arr).
Definition set_Buf (b : Z) (arr : t) : t :=
  mk (Type_ arr) b (Len arr) (Cap arr).

(** [func NewElementArray(data interface{}, usage uint32)], returning a
    pointer to the array and an error. *)
Definition NewElementArray (data : value) (usage : Z) : M GL.state (result t) :=
  match data with
  | Slice ty len cap =>
      let l := Z.of_N len in
      if decide (l = 0) then ret (Err ElementZeroLength)
      else
        (buf <- GL.GenBuffers ;;
         let arr := mk 0 buf l (Z.of_N cap) in
         match ty with
         | Uint8 =>
             let arr := set_Type GL.UNSIGNED_BYTE arr in
             GL.BufferData (Buf arr) (GoInt.mul (Len arr) 1) usage ;;;
             ret (Ok arr)
         | Uint32 =>
             let arr := set_Type GL.UNSIGNED_INT arr in
             GL.BufferData (Buf arr) (GoInt.mul (Len arr) 4) usage ;;;
             ret (Ok arr)
         | _ => throw (Panic "asset.NewElementArray error: unhandled data type")
         end)%go
  | _ => throw (Panic "asset.NewElementArray error: data is not a slice")
  end.

(** The statements of [Update] after its type switch. *)
Definition Update_upload (size typ : Z) : M (t * GL.state) unit :=
  fun '(arr, g) =>
    if decide (Type_ arr ≠ typ)
    then Abort (Panic "asset.ElementArray.Update error: data type does not match array type") (arr, g)
    else
      Ret tt
          (arr, GL.issue (GL.CBufferSubData (Buf arr) (GoInt.mul (Len arr) size)) g).

(** [func (arr *ElementArray) Update(data interface{})], on a receiver
    that is not nil. [&v[0]] panics on an empty slice; the switch has no
    default, which leaves [size] and [typ] zero. *)
Definition Update (data : value) : M (t * GL.state) unit :=
  fun '(arr, g) =>
    match data with
    | Slice ty len _ =>
        let l := Z.of_N len in
        if decide (l > Cap arr)
        then Abort (Panic "ElementArray error: data is larger than array") (arr, g)
        else
          let arr := set_Len l arr in
          match ty with
          | Uint8 =>
              if decide (l = 0) then Abort IndexOutOfRange (arr, g)
              else Update_upload 1 GL.UNSIGNED_BYTE (arr, g)
          | Uint32 =>
              if decide (l = 0) then Abort IndexOutOfRange (arr, g)
              else Update_upload 4 GL.UNSIGNED_INT (arr, g)
          | _ => Update_upload 0 0 (arr, g)
          end
    | _ => Abort (Panic "AttribArray error: data is not a slice") (arr, g)
    end.

(** [func (arr *ElementArray) Clean()] *)
Definition Clean (arr : option t) : M GL.state (option t) :=
  match arr with
  | None => ret None
  | Some a =>
      (GL.DeleteBuffers (Buf a) ;;;
       ret (Some (set_Buf 0 a)))%go
  end.

(** [func (arr *ElementArray) Init()]; it reads [arr.Buf], which panics
    on a nil receiver. *)
Definition Init (arr : option t) : M VertexArray.state unit :=
  match arr with
  | None => throw NilDereference
  | Some a => VertexArray.BindElementBuffer (Buf a)
  end.

End ElementArray.

(** ** Textures *)

(** Go's [image.Point], [image.Rectangle] and the images [LoadSubImage]
    tells apart: an [*image.RGBA], or any other image, given by the pixel
    bytes [draw.Draw] produces from it. *)
Module Image.

Record Point : Type := Pt { X : Z; Y : Z }.
Record Rectangle : Type := Rect { Min : Point; Max : Point }.

Definition Dx (r : Rectangle) : Z := GoInt.int (X (Max r) - X (Min r)).
Definition Dy (r : Rectangle) : Z := GoInt.int (Y (Max r) - Y (Min r)).

Record RGBA : Type := mkRGBA {
  Pix : list Z;         (* the pixel bytes *)
  Stride : Z;           (* bytes between vertically adjacent pixels *)
  Bounds : Rectangle
}.

Inductive t : Type :=
  | IsRGBA (img : RGBA)
  | Generic (bounds : Rectangle) (drawn : list Z).

Definition bounds_of (img : t) : Rectangle :=
  match img with
  | IsRGBA i => Bounds i
  | Generic b _ => b
  end.

End Image.

Module Texture.

(** [type Texture struct] *)
Record t : Type := mk {
  Name : string;
  Tex : Z;
  Buf : Z;
  W : Z;
  H : Z
}.

(** [s[lo:]] of a slice of length [length s]. *)
Definition slice_from {A S} (s : list A) (lo : Z) : M S (list A) :=
  if decide (0 <= lo <= Z.of_nat (length s))
  then ret (drop (Z.to_nat lo) s)
  else throw SliceOutOfRange.

(** [s[lo:hi]] of a slice whose capacity is its length. *)
Definition slice_range {A S} (s : list A) (lo hi : Z) : M S (list A) :=
  if decide (0 <= lo <= hi /\ hi <= Z.of_nat (length s))
  then ret (take (Z.to_nat (hi - lo)) (drop (Z.to_nat lo) s))
  else throw SliceOutOfRange.

(** The buffer after [copy(pbuf[i:], src)], [dst] being [pbuf[i:]]. *)
Definition copy_at {A} (pbuf : list A) (i : Z) (dst src : list A) : list A :=
  let n := Nat.min (length dst) (length src) in
  take (Z.to_nat i) pbuf ++ take n src ++ drop n dst.

(** The loop [for y := 0; y < bounds.Dy(); y++] of [LoadSubRGBA], from
    row [y] on, for [rows] more rows at most. *)
Fixpoint copy_rows {S} (rows : nat) (y : Z) (t : t) (img : Image.RGBA)
    (offset : Image.Point) (pbuf : list Z) : M S (list Z) :=
  match rows with
  | O => ret pbuf
  | S rows' =>
      if decide (y < Image.Dy (Image.Bounds img)) then
        let i := GoInt.add
                   (GoInt.mul (GoInt.mul (GoInt.add y (Image.Y offset)) (W t)) 4)
                   (GoInt.mul (Image.X offset) 4) in
        let j := GoInt.mul y (Image.Stride img) in
        (dst <- slice_from pbuf i ;;
         src <- slice_range (Image.Pix img) j
                  (GoInt.add j (GoInt.mul (Image.Dx (Image.Bounds img)) 4)) ;;
         copy_rows rows' (GoInt.add y 1) t img offset (copy_at pbuf i dst src))%go
      else ret pbuf
  end.

Section Driver.

(** Whether [glMapBuffer] hands out a mapping in a given driver state. *)
Variable map_buffer : GL.state -> bool.

(** [func (t *Texture) LoadSubRGBA(img *image.RGBA, offset image.Point,
    level int32) error]. The staging store is reallocated to
    [t.W*t.H*4] bytes, its size read back as an [int32], mapped (the
    fresh store reads as zeroes), filled row by row, and handed to
    [glTexSubImage2D] at origin (0, 0). *)
Definition LoadSubRGBA (t : t) (img : Image.RGBA) (offset : Image.Point)
    (level : Z) : M GL.state (option error) :=
  let bounds := Image.Bounds img in
  (GL.BufferData (Buf t) (GoInt.mul (GoInt.mul (W t) (H t)) 4)
                 GL.STREAM_DRAW ;;;
   g <- get ;;
   let ln := GoInt.int32 (default 0 (GL.buffers g !! Buf t)) in
   if map_buffer g then
     let pbuf := replicate (Z.to_nat ln) 0 in
     pbuf' <- copy_rows (Z.to_nat (Image.Dy bounds)) 0 t img offset pbuf ;;
     GL.Issue (GL.CTexSubImage2D (Tex t) level 0 0
                 (GoInt.int32 (Image.Dx bounds))
                 (GoInt.int32 (Image.Dy bounds)) pbuf') ;;;
     ret None
   else ret (Some TextureMapFailed))%go.

(** [image.NewRGBA(bounds)] followed by [draw.Draw]: the copy has the
    bounds of the image, a tight stride, and the drawn bytes. *)
Definition to_RGBA (bounds : Image.Rectangle) (drawn : list Z) : Image.RGBA :=
  Image.mkRGBA drawn (GoInt.mul 4 (Image.Dx bounds)) bounds.

(** [func (t *Texture) LoadSubImage(img image.Image, offset image.Point,
    level int32) error] *)
Definition LoadSubImage (t : t) (img : Image.t) (offset : Image.Point)
    (level : Z) : M GL.state (option error) :=
  let bounds := Image.bounds_of img in
  if decide (GoInt.add (Image.Dx bounds) (Image.X offset) > W t
             \/ GoInt.add (Image.Dy bounds) (Image.Y offset) > H t)
  then ret (Some TextureOutOfBounds)
  else
    match img with
    | Image.IsRGBA imgfmt => LoadSubRGBA t imgfmt offset level
    | Image.Generic b drawn => LoadSubRGBA t (to_RGBA b drawn) offset level
    end.

End Driver.

(** [x >> uint(level)] for an [int] [x] and an [int32] [level]: a
    negative level converts to a count of 2^63 or more, and a count of 64
    or more leaves the sign. *)
Definition shr_level (x level : Z) : Z :=
  if decide (0 <= level < 64) then Z.shiftr x level
  else if decide (x < 0) then -1 else 0.

(** [func NewTexture(name string, w, h int)], returning a pointer to the
    texture. The filter and wrap parameters it sets are not part of the
    driver state kept here. *)
Definition NewTexture (name : string) (w h : Z) : M GL.state t :=
  (tex <- GL.GenName ;;
   buf <- GL.GenBuffers ;;
   ret (mk name tex buf w h))%go.

(** Calls on the two parts of the driver the texture uploads touch. *)
Definition on_buffers {A} (m : M GL.state A) : M (GL.state * TexImage.state) A :=
  fun '(g, i) =>
    match m g with
    | Ret a g' => Ret a (g', i)
    | Abort p g' => Abort p (g', i)
    | Diverge => Diverge
    end.

Definition on_images {A} (m : M TexImage.state A) : M (GL.state * TexImage.state) A :=
  fun '(g, i) =>
    match m i with
    | Ret a i' => Ret a (g, i')
    | Abort p i' => Abort p (g, i')
    | Diverge => Diverge
    end.

(** [func (t *Texture) LoadRGBA(img *image.RGBA, level int32) error];
    [&img.Pix[0]] panics on an image without pixels. The buffer of the
    texture is left bound to GL_PIXEL_UNPACK_BUFFER; bindings are not part
    of the state kept here. *)
Definition LoadRGBA (t : t) (img : Image.RGBA) (level : Z)
    : M (GL.state * TexImage.state) (option error) :=
  let bounds := Image.Bounds img in
  match Image.Pix img with
  | [] => throw IndexOutOfRange
  | _ :: _ =>
      (on_images (TexImage.TexImage2D (Tex t) level
                    (GoInt.int32 (Image.Dx bounds))
                    (GoInt.int32 (Image.Dy bounds)) (Image.Pix img)) ;;;
       on_buffers (GL.BufferData (Buf t)
                     (Z.of_nat (length (Image.Pix img))) GL.STREAM_DRAW) ;;;
       ret None)%go
  end.

(** [func (t *Texture) LoadImage(img image.Image, level int32) error] *)
Definition LoadImage (t : t) (img : Image.t) (level : Z)
    : M (GL.state * TexImage.state) (option error) :=
  let bounds := Image.bounds_of img in
  if decide (Image.Dx bounds ≠ shr_level (W t) level
             \/ Image.Dy bounds ≠ shr_level (H t) level)
  then ret (Some TextureInvalidSize)
  else
    match img with
    | Image.IsRGBA imgfmt => LoadRGBA t imgfmt level
    | Image.Generic b drawn => LoadRGBA t (to_RGBA b drawn) level
    end.

(** [func (t *Texture) Clean()], on a receiver that is not nil. *)
Definition Clean (t : t) : M (GL.state * TexImage.state) unit :=
  (on_images (TexImage.DeleteTextures (Tex t)) ;;;
   on_buffers (GL.DeleteBuffers (Buf t)))%go.

(** [func NewTextureFromImage(name string, img image.Image)], returning a
    pointer to the texture and an error. *)
Definition NewTextureFromImage (name : string) (img : Image.t)
    : M (GL.state * TexImage.state) (result t) :=
  let bounds := Image.bounds_of img in
  (t <- on_buffers (NewTexture name (Image.Dx bounds) (Image.Dy bounds)) ;;
   failed <- LoadImage t img 0 ;;
   match failed with
   | Some err =>
       Clean t ;;;
       ret (Err err)
   | None => ret (Ok t)
   end)%go.

(** [func (t *Texture) Use(i uint32)], on a pointer that may be nil:
    [t.Tex] is read after the unit was made active. *)
Definition Use (units : Z) (i : Z) (t : option t) : M TextureUnit.state unit :=
  (TextureUnit.ActiveTexture units (TextureUnit.uint32 (TextureUnit.TEXTURE0 + i)) ;;;
   match t with
   | None => throw NilDereference
   | Some t => TextureUnit.BindTexture (Tex t)
   end)%go.

(** [func (t *Texture) Release()]: the receiver is not read. *)
Definition Release (t : option t) : M TextureUnit.state unit :=
  TextureUnit.BindTexture 0.

End Texture.

(** ** Materials *)

Module Material.

(** [type Material struct]. The textures are shared with the manager that
    owns them; the code never writes to a texture after creating it, so
    the list holds them by value, [None] for a nil pointer. *)
Record t : Type := mk {
  Name : string;                       (* material name *)
  Textures : list (option Texture.t);  (* list of textures *)
  Samplers : list string;              (* list of sampler uniform names *)
  Prog : Z;                            (* shader program *)
  AttribLocs : gmap string Z;          (* vertex attrib locations *)
  UniformLocs : gmap string Z          (* other uniform locations *)
}.

(** [func NewMaterial(name string)] *)
Definition NewMaterial (name : string) : t := mk name [] [] 0 ∅ ∅.

(** [func (mat *Material) SetProgram(prog uint32)] *)
Definition SetProgram (prog : Z) (mat : t) : t :=
  mk (Name mat) (Textures mat) (Samplers mat) prog
     (AttribLocs mat) (UniformLocs mat).

Definition set_UniformLocs (u : gmap string Z) (mat : t) : t :=
  mk (Name mat) (Textures mat) (Samplers mat) (Prog mat) (AttribLocs mat) u.

(** The C string at an address: the bytes from there up to the first
    zero byte. *)
Fixpoint c_string (bytes : string) : string :=
  match bytes with
  | EmptyString => EmptyString
  | String c rest =>
      if decide (c = Ascii.zero) then EmptyString else String c (c_string rest)
  end.

Section Driver.

(** [glGetUniformLocation(prog, name)], [name] being the C string the
    driver reads at the address it is given. *)
Variable GetUniformLocation : Z -> string -> Z.

(** [func (mat *Material) InitUniformLocs(uniforms ...string) error];
    the state is the material. [&bytes[0]] panics on an empty name. The
    driver is given the address of the first byte of [[]uint8(name)], a
    copy of the name with no zero byte put after it: it reads the bytes of
    the name and goes on with the bytes that lie behind them in memory, up
    to the first zero. Each name comes paired with those bytes, which the
    Go runtime decides. *)
Fixpoint InitUniformLocs_range (uniforms : list (string * string))
    : M t (option error) :=
  match uniforms with
  | [] => ret None
  | (name, behind) :: rest => fun mat =>
      if decide (name = "") then Abort IndexOutOfRange mat
      else
        let loc := GetUniformLocation (Prog mat) (c_string (name +:+ behind)) in
        if decide (loc = -1)
        then Ret (Some (MaterialNoUniform (Name mat) name)) mat
        else InitUniformLocs_range rest
               (set_UniformLocs (<[name := loc]> (UniformLocs mat)) mat)
  end.

Definition InitUniformLocs (uniforms : list (string * string))
    : M t (option error) :=
  fun mat =>
    if decide (Prog mat = 0)
    then Ret (Some (MaterialNoProgram (Name mat))) mat
    else InitUniformLocs_range uniforms mat.

End Driver.

(** [func (mat *Material) Use()]: [tex.Use(uint32(i))] for each texture,
    then [glUseProgram]. *)
Fixpoint Use_range (i : Z) (textures : list (option Texture.t)) : M GL.state unit :=
  match textures with
  | [] => ret tt
  | None :: _ => throw NilDereference
  | Some tex :: rest =>
      (GL.Issue (GL.CBindTexture i (Texture.Tex tex)) ;;;
       Use_range (i + 1) rest)%go
  end.

Definition Use (mat : t) : M GL.state unit :=
  (Use_range 0 (Textures mat) ;;;
   GL.Issue (GL.CUseProgram (Prog mat)))%go.

(** [func (mat *Material) Release()]; [tex.Release()] does not read
    through its receiver. *)
Fixpoint Release_range (textures : list (option Texture.t)) : M GL.state unit :=
  match textures with
  | [] => ret tt
  | _ :: rest => Release_range rest
  end.

Definition Release (mat : t) : M GL.state unit :=
  (GL.Issue (GL.CUseProgram 0) ;;;
   Release_range (Textures mat))%go.

(** [func (mat *Material) AddTextures(textures ...*Texture)] *)
Definition AddTextures (textures : list (option Texture.t)) (mat : t) : t :=
  mk (Name mat) (Textures mat ++ textures) (Samplers mat) (Prog mat)
     (AttribLocs mat) (UniformLocs mat).

(** [func (mat *Material) AddSamplers(samplers ...string)] *)
Definition AddSamplers (samplers : list string) (mat : t) : t :=
  mk (Name mat) (Textures mat) (Samplers mat ++ samplers) (Prog mat)
     (AttribLocs mat) (UniformLocs mat).

(** [func (mat *Material) Clean()] *)
Definition Clean (mat : t) : t :=
  mk (Name mat) (Textures mat) (Samplers mat) 0
     (AttribLocs mat) (UniformLocs mat).

(** [for i, tex := range mat.Textures { tex.Use(uint32(i)) }] of [Use],
    from index [i] on, on the texture units. *)
Fixpoint Use_textures (units : Z) (i : Z) (textures : list (option Texture.t))
    : M TextureUnit.state unit :=
  match textures with
  | [] => ret tt
  | tex :: rest =>
      (Texture.Use units (TextureUnit.uint32 i) tex ;;;
       Use_textures units (i + 1) rest)%go
  end.

(** [for _, tex := range mat.Textures { tex.Release() }] of [Release]. *)
Fixpoint Release_textures (textures : list (option Texture.t))
    : M TextureUnit.state unit :=
  match textures with
  | [] => ret tt
  | tex :: rest => (Texture.Release tex ;;; Release_textures rest)%go
  end.

End Material.

(** ** Meshes *)

Module Mesh.

(** [type Mesh struct] *)
Record t : Type := mk {
  Name : string;                        (* Mesh name *)
  Attribs : gmap string AttribArray.t;  (* map of vertex attribute arrays *)
  Elements : option ElementArray.t;
  Array : Z;                            (* OpenGL vertex array handle *)
  Primitive : Z;                        (* OpenGL primitive *)
  Vertices : Z                          (* number of vertex attribute sets *)
}.

(** [func NewMesh(name string)] *)
Definition NewMesh (name : string) : t := mk name ∅ None 0 0 (-1).

Definition set_Vertices (v : Z) (m : t) : t :=
  mk (Name m) (Attribs m) (Elements m) (Array m) (Primitive m) v.
Definition set_Attribs (a : gmap string AttribArray.t) (m : t) : t :=
  mk (Name m) a (Elements m) (Array m) (Primitive m) (Vertices m).
Definition set_Elements (e : option ElementArray.t) (m : t) : t :=
  mk (Name m) (Attribs m) e (Array m) (Primitive m) (Vertices m).
Definition set_Primitive (p : Z) (m : t) : t :=
  mk (Name m) (Attribs m) (Elements m) (Array m) p (Vertices m).

(** [func (m *Mesh) AddArrays(arrays ...*AttribArray) error]; the state is
    the mesh, which keeps what was written to it when the call fails. *)
Fixpoint AddArrays (arrays : list (option AttribArray.t)) : M t (option error) :=
  match arrays with
  | [] => ret None
  | None :: rest => AddArrays rest
  | Some arr :: rest =>
      (m <- get ;;
       failed <-
         (if decide (Vertices m = -1) then
            n <- AttribArray.Attribs arr ;;
            modify (set_Vertices n) ;;;
            ret None
          else
            n <- AttribArray.Attribs arr ;;
            if decide (n ≠ Vertices m)
            then ret (Some (MeshInconsistent (Name m)))
            else ret None) ;;
       match failed with
       | Some e => ret (Some e)
       | None =>
           modify (fun m => set_Attribs (<[AttribArray.Name arr := arr]> (Attribs m)) m) ;;;
           AddArrays rest
       end)%go
  end.

(** The body of the loop of [DrawUniforms] for one map entry. *)
Definition set_uniform (loc : Z) (value : uniform) : M GL.state unit :=
  match value with
  | UInt32 val => GL.Issue (GL.CUniform1i loc val)
  | UFloat32 val => GL.Issue (GL.CUniform1f loc val)
  | UVec2 val => GL.Issue (GL.CUniform2fv loc val)
  | UVec3 val => GL.Issue (GL.CUniform3fv loc val)
  | UVec4 val => GL.Issue (GL.CUniform4fv loc val)
  | UMat4 val => GL.Issue (GL.CUniformMatrix4fv loc val)
  | UOther => throw (Panic "Mesh.DrawUniforms: unhandled uniform type")
  end.

(** [for name, value := range uniforms]. The list gives the entries of
    the map in the order the runtime yields them. Reading a key that a Go
    map does not hold yields the zero value. *)
Fixpoint DrawUniforms_range (material : Material.t)
    (uniforms : list (string * uniform)) : M GL.state unit :=
  match uniforms with
  | [] => ret tt
  | (name, value) :: rest =>
      let loc := default 0 (Material.UniformLocs material !! name) in
      if decide (loc < 0) then DrawUniforms_range material rest
      else
        (set_uniform loc value ;;;
         DrawUniforms_range material rest)%go
  end.

(** [func (m *Mesh) DrawUniforms(material *Material, uniforms Uniforms)] *)
Definition DrawUniforms (m : t) (material : option Material.t)
    (uniforms : list (string * uniform)) : M GL.state unit :=
  match material with
  | None => throw NilDereference
  | Some material =>
      (Material.Use material ;;;
       DrawUniforms_range material uniforms ;;;
       GL.Issue (GL.CBindVertexArray (Array m)) ;;;
       match Elements m with
       | None => throw NilDereference
       | Some elements =>
           GL.Issue (GL.CDrawElements (Primitive m)
                       (GoInt.int32 (ElementArray.Len elements))
                       (ElementArray.Type_ elements)) ;;;
           GL.Issue (GL.CBindVertexArray 0) ;;;
           Material.Release material
       end)%go
  end.

(** [var attribMap = map[string]uint32{...}] *)
Definition attribMap : gmap string Z :=
  list_to_map [("pos", 0); ("color", 1); ("normal", 2);
               ("texcoord0", 3); ("texcoord1", 4); ("texcoord2", 5)].

Definition set_Array (a : Z) (m : t) : t :=
  mk (Name m) (Attribs m) (Elements m) a (Primitive m) (Vertices m).

(** [for _, arr := range m.Attribs { arr.Init(attribMap[arr.Name]) }],
    over the entries in the order [range] yields them. A name the table
    does not hold reads the zero value. *)
Fixpoint Init_range (entries : list (string * AttribArray.t))
    : M VertexArray.state unit :=
  match entries with
  | [] => ret tt
  | (_, arr) :: rest =>
      (AttribArray.Init arr (default 0 (attribMap !! AttribArray.Name arr)) ;;;
       Init_range rest)%go
  end.

(** [func (m *Mesh) Init() error]. [order] is the order in which [range]
    yields the entries of [m.Attribs], which Go leaves open. The deferred
    [glBindVertexArray(0)] runs when the body returns and when it panics.
    The state is the mesh and the driver. *)
Definition Init (order : list (string * AttribArray.t))
    : M (t * (GL.state * VertexArray.state)) (option error) :=
  fun '(m, (g, v)) =>
    match GL.GenName g with
    | Ret a g1 =>
        let m1 := set_Array a m in
        match (VertexArray.BindVertexArray (Array m1) ;;;
               Init_range order ;;;
               ElementArray.Init (Elements m1))%go v with
        | Ret _ v1 =>
            match VertexArray.BindVertexArray 0 v1 with
            | Ret _ v2 => Ret None (m1, (g1, v2))
            | Abort p v2 => Abort p (m1, (g1, v2))
            | Diverge => Diverge
            end
        | Abort p v1 =>
            match VertexArray.BindVertexArray 0 v1 with
            | Ret _ v2 => Abort p (m1, (g1, v2))
            | Abort p' v2 => Abort p' (m1, (g1, v2))
            | Diverge => Diverge
            end
        | Diverge => Diverge
        end
    | Abort p g1 => Abort p (m, (g1, v))
    | Diverge => Diverge
    end.

(** [for _, attr := range m.Attribs { attr.Clean() }]: each array is
    cleaned through the pointer the map holds under its key. *)
Fixpoint Clean_range (entries : list (string * AttribArray.t))
    : M (gmap string AttribArray.t * GL.state) unit :=
  match entries with
  | [] => ret tt
  | (key, attr) :: rest => fun '(attribs, g) =>
      match AttribArray.Clean (Some attr) g with
      | Ret (Some attr') g' => Clean_range rest (<[key := attr']> attribs, g')
      | Ret None g' => Clean_range rest (attribs, g')
      | Abort p g' => Abort p (attribs, g')
      | Diverge => Diverge
      end
  end.

(** [func (m *Mesh) Clean()], on a receiver that is not nil; [order] as
    for [Init]. *)
Definition Clean (order : list (string * AttribArray.t))
    : M (t * (GL.state * VertexArray.state)) unit :=
  fun '(m, (g, v)) =>
    match VertexArray.DeleteVertexArrays (Array m) v with
    | Ret _ v1 =>
        let m1 := set_Array 0 m in
        match Clean_range order (Attribs m1, g) with
        | Ret _ (attribs, g1) =>
            let m2 := set_Attribs attribs m1 in
            match ElementArray.Clean (Elements m2) g1 with
            | Ret e g2 => Ret tt (set_Elements e m2, (g2, v1))
            | Abort p g2 => Abort p (m2, (g2, v1))
            | Diverge => Diverge
            end
        | Abort p (attribs, g1) => Abort p (set_Attribs attribs m1, (g1, v1))
        | Diverge => Diverge
        end
    | Abort p v1 => Abort p (m, (g, v1))
    | Diverge => Diverge
    end.

End Mesh.

(** ** meshutil.go: the composite mesh builder *)

Module MeshUtil.

(** The variables of [MakeMesh] that its deferred function closes over. *)
Record frame : Type := mkFrame {
  posarr : option AttribArray.t;
  colarr : option AttribArray.t;
  nrmarr : option AttribArray.t;
  texcarr : list (option AttribArray.t);
  elemarr : option ElementArray.t;
  mesh : Mesh.t;
  err : option error
}.

Definition set_err (e : option error) (f : frame) : frame :=
  mkFrame (posarr f) (colarr f) (nrmarr f) (texcarr f) (elemarr f) (mesh f) e.
Definition set_mesh (m : Mesh.t) (f : frame) : frame :=
  mkFrame (posarr f) (colarr f) (nrmarr f) (texcarr f) (elemarr f) m (err f).

(** The two values of a call [x, err = New...(...)]. *)
Definition pointer_of {A} (r : result A) : option A :=
  match r with Ok a => Some a | Err _ => None end.
Definition error_of {A} (r : result A) : option error :=
  match r with Ok _ => None | Err e => Some e end.

(** [posarr, err = ...], [colarr, err = ...], [texcarr[i], err = ...],
    [elemarr, err = ...] *)
Definition assign_posarr (r : result AttribArray.t) (f : frame) : frame :=
  mkFrame (pointer_of r) (colarr f) (nrmarr f) (texcarr f) (elemarr f)
          (mesh f) (error_of r).
Definition assign_colarr (r : result AttribArray.t) (f : frame) : frame :=
  mkFrame (posarr f) (pointer_of r) (nrmarr f) (texcarr f) (elemarr f)
          (mesh f) (error_of r).
Definition assign_texcarr (i : nat) (r : result AttribArray.t) (f : frame) : frame :=
  mkFrame (posarr f) (colarr f) (nrmarr f) (<[i := pointer_of r]> (texcarr f))
          (elemarr f) (mesh f) (error_of r).
Definition assign_elemarr (r : result ElementArray.t) (f : frame) : frame :=
  mkFrame (posarr f) (colarr f) (nrmarr f) (texcarr f) (pointer_of r)
          (mesh f) (error_of r).

Definition locals : Type := (frame * GL.state)%type.

(** A driver call made from inside the function. *)
Definition gl {A} (m : M GL.state A) : M locals A := fun '(f, g) =>
  match m g with
  | Ret a g' => Ret a (f, g')
  | Abort p g' => Abort p (f, g')
  | Diverge => Diverge
  end.

(** A method call on the local [mesh]. *)
Definition on_mesh {A} (m : M Mesh.t A) : M locals A := fun '(f, g) =>
  match m (mesh f) with
  | Ret a m' => Ret a (set_mesh m' f, g)
  | Abort p m' => Abort p (set_mesh m' f, g)
  | Diverge => Diverge
  end.

Definition local (upd : frame -> frame) : M locals unit :=
  fun '(f, g) => Ret tt (upd f, g).

(** A statement either falls through ([None]) or returns from the
    function; [s1 ;;? s2] is [s1] followed by the rest [s2]. *)
Definition then_ {S R} (s1 : M S (option R)) (s2 : M S R) : M S R :=
  bind s1 (fun r => match r with Some x => ret x | None => s2 end).
Notation "s1 ;;? s2" := (then_ s1 s2)
  (at level 100, right associativity) : go_scope.

(** [if err != nil { return nil, err }] *)
Definition return_on_err {R} : M locals (option (result R)) :=
  fun '(f, g) =>
    match err f with
    | Some e => Ret (Some (Err e)) (f, g)
    | None => Ret None (f, g)
    end.

(** [func checkSlice(name string, attr string, data interface{})] *)
Definition checkSlice {S} (name attr : string) (data : value) : M S unit :=
  if is_slice data then ret tt
  else throw (PanicError (MakeMeshNotSlice name attr)).

(** [for i, texcoord := range texcoords], from index [i] on. *)
Fixpoint texcoords_range (name : string) (i : nat) (texcoords : list value)
    : M locals (option (result Mesh.t)) :=
  match texcoords with
  | [] => ret None
  | texcoord :: rest =>
      let texname := "texcoord" +:+ pretty i in
      (checkSlice name texname texcoord ;;;
       r <- gl (AttribArray.NewAttribArray texname 2 texcoord GL.STATIC_DRAW) ;;
       local (assign_texcarr i r) ;;;
       failed <- return_on_err ;;
       match failed with
       | Some x => ret (Some x)
       | None => texcoords_range name (S i) rest
       end)%go
  end.

(** The body of [MakeMesh], statement by statement. *)
Definition MakeMesh_body (name : string) (dims : Z) (prim : Z)
    (pos cols nrms : value) (texcoords : list value) (elems : value)
    : M locals (result Mesh.t) :=
  ((if is_nil pos then throw (PanicError (MakeMeshNoPos name))
    else
      checkSlice name "pos" pos ;;;
      r <- gl (AttribArray.NewAttribArray "pos" dims pos GL.STATIC_DRAW) ;;
      local (assign_posarr r) ;;;
      return_on_err) ;;?
   (if negb (is_nil cols) then
      checkSlice name "color" cols ;;;
      r <- gl (AttribArray.NewAttribArray "color" 4 cols GL.STATIC_DRAW) ;;
      local (assign_colarr r) ;;;
      return_on_err
    else ret None) ;;?
   (if negb (is_nil nrms) then
      checkSlice name "normal" cols ;;;
      r <- gl (AttribArray.NewAttribArray "normal" 3 nrms GL.STATIC_DRAW) ;;
      local (assign_colarr r) ;;;
      return_on_err
    else ret None) ;;?
   texcoords_range name 0 texcoords ;;?
   (if is_nil elems then throw (PanicError (MakeMeshNoElems name))
    else
      checkSlice name "elems" elems ;;;
      r <- gl (ElementArray.NewElementArray elems GL.STATIC_DRAW) ;;
      local (assign_elemarr r) ;;;
      return_on_err) ;;?
   (f <- get ;;
    e <- on_mesh (Mesh.AddArrays [posarr (fst f); colarr (fst f); nrmarr (fst f)]) ;;
    local (set_err e) ;;;
    return_on_err) ;;?
   (f <- get ;;
    e <- on_mesh (Mesh.AddArrays (texcarr (fst f))) ;;
    local (set_err e) ;;;
    return_on_err) ;;?
   (f <- get ;;
    let m := Mesh.set_Primitive prim
               (Mesh.set_Elements (elemarr (fst f)) (mesh (fst f))) in
    local (set_mesh m) ;;;
    ret (Ok m)))%go.

(** [for _, arr := range texcarr { arr.Clean() }] *)
Fixpoint Clean_range (arrs : list (option AttribArray.t)) : M GL.state unit :=
  match arrs with
  | [] => ret tt
  | arr :: rest => (AttribArray.Clean arr ;;; Clean_range rest)%go
  end.

(** The deferred function of [MakeMesh]. *)
Definition MakeMesh_deferred : M locals unit := fun '(f, g) =>
  match err f with
  | Some _ =>
      gl (AttribArray.Clean (posarr f) ;;;
          AttribArray.Clean (colarr f) ;;;
          AttribArray.Clean (nrmarr f) ;;;
          Clean_range (texcarr f) ;;;
          ElementArray.Clean (elemarr f) ;;;
          ret tt)%go (f, g)
  | None => Ret tt (f, g)
  end.

(** [func MakeMesh(name string, dims int, prim uint32, pos, cols, nrms
    interface{}, texcoords []interface{}, elems interface{})], returning
    a pointer to the mesh and an error. The deferred function runs when
    the body returns and when it panics. *)
Definition MakeMesh (name : string) (dims : Z) (prim : Z)
    (pos cols nrms : value) (texcoords : list value) (elems : value)
    : M GL.state (result Mesh.t) := fun g =>
  let f0 := mkFrame None None None (replicate (length texcoords) None) None
                    (Mesh.NewMesh name) None in
  match MakeMesh_body name dims prim pos cols nrms texcoords elems (f0, g) with
  | Ret r l =>
      match MakeMesh_deferred l with
      | Ret _ (_, g') => Ret r g'
      | Abort p (_, g') => Abort p g'
      | Diverge => Diverge
      end
  | Abort p l =>
      match MakeMesh_deferred l with
      | Ret _ (_, g') => Abort p g'
      | Abort p' (_, g') => Abort p' g'
      | Diverge => Diverge
      end
  | Diverge => Diverge
  end.

(** [func NewBox(name string, width, height float32, offset mgl.Vec2)]:
    [MakeMesh] on a literal of eight [float32], the four corners, and a
    literal of six [uint8], the indices of two triangles, with no colors,
    normals or texture coordinates. [width], [height] and [offset] only
    decide the values of the corners, which a slice does not carry here. *)
Definition NewBox (name : string) : M GL.state (result Mesh.t) :=
  MakeMesh name 2 GL.TRIANGLES (Slice Float32 8 8) Nil Nil [] (Slice Uint8 6 6).

(** [func NewEqTriangle(name string, base float32, offset mgl.Vec2)]:
    three corners, three indices. *)
Definition NewEqTriangle (name : string) : M GL.state (result Mesh.t) :=
  MakeMesh name 2 GL.TRIANGLES (Slice Float32 6 6) Nil Nil [] (Slice Uint8 3 3).

End MeshUtil.

(** ** The manager *)

(** Addresses of the objects that are shared through pointers. *)
Definition loc : Type := positive.

Module Manager.

(** [type ShaderSet struct] *)
Record ShaderSet : Type := mkSet { Vs : Z; Fs : Z; Gs : Z }.

#[global] Instance ShaderSet_eq_dec : EqDecision ShaderSet.
Proof. solve_decision. Defined.

#[global] Instance ShaderSet_countable : Countable ShaderSet.
Proof.
  refine (inj_countable' (fun s => (Vs s, Fs s, Gs s))
                         (fun '(v, f, g) => mkSet v f g) _).
  by intros [].
Defined.

(** [type Manager struct]. The maps hold pointers. *)
Record t : Type := mk {
  Materials : gmap string (option loc);
  Meshes : gmap string (option loc);
  Shaders : gmap string Z;
  Programs : gmap ShaderSet Z;
  Textures : gmap string (option loc);
  Parent : option loc
}.

Definition set_Materials (x : gmap string (option loc)) (am : t) : t :=
  mk x (Meshes am) (Shaders am) (Programs am) (Textures am) (Parent am).
Definition set_Meshes (x : gmap string (option loc)) (am : t) : t :=
  mk (Materials am) x (Shaders am) (Programs am) (Textures am) (Parent am).
Definition set_Shaders (x : gmap string Z) (am : t) : t :=
  mk (Materials am) (Meshes am) x (Programs am) (Textures am) (Parent am).
Definition set_Programs (x : gmap ShaderSet Z) (am : t) : t :=
  mk (Materials am) (Meshes am) (Shaders am) x (Textures am) (Parent am).
Definition set_Textures (x : gmap string (option loc)) (am : t) : t :=
  mk (Materials am) (Meshes am) (Shaders am) (Programs am) x (Parent am).

(** The memory the managers live in, with the objects their maps point
    to, and the driver. *)
Record World : Type := mkWorld {
  managers : gmap loc t;
  materials : gmap loc Material.t;
  meshes : gmap loc Mesh.t;
  textures : gmap loc Texture.t;
  driver : GL.state
}.

Definition set_managers (x : gmap loc t) (w : World) : World :=
  mkWorld x (materials w) (meshes w) (textures w) (driver w).
Definition set_driver (g : GL.state) (w : World) : World :=
  mkWorld (managers w) (materials w) (meshes w) (textures w) g.

(** [func NewManager(parent *Manager)]: a manager at a fresh
    address. *)
Definition NewManager (parent : option loc) : M World loc := fun w =>
  let am := fresh (dom (managers w)) in
  Ret am (set_managers (<[am := mk ∅ ∅ ∅ ∅ ∅ parent]> (managers w)) w).

(** Reading through a pointer. *)
Definition deref {A} (store : World -> gmap loc A) (p : option loc) : M World A :=
  fun w =>
    match p ≫= (fun l => store w !! l) with
    | Some a => Ret a w
    | None => Abort NilDereference w
    end.

(** Writing the manager at [am] back. *)
Definition store_manager (am : loc) (x : t) : M World unit :=
  modify (fun w => set_managers (<[am := x]> (managers w)) w).

(** A driver call. *)
Definition gl {A} (m : M GL.state A) : M World A := fun w =>
  match m (driver w) with
  | Ret a g => Ret a (set_driver g w)
  | Abort p g => Abort p (set_driver g w)
  | Diverge => Diverge
  end.

(** [func (am *Manager) AddMaterial(m *Material) error] *)
Definition AddMaterial (am : loc) (m : option loc) : M World (option error) :=
  (mat <- deref materials m ;;
   mgr <- deref managers (Some am) ;;
   match Materials mgr !! Material.Name mat with
   | Some _ => ret (Some (MaterialExists (Material.Name mat)))
   | None =>
       store_manager am
         (set_Materials (<[Material.Name mat := m]> (Materials mgr)) mgr) ;;;
       ret None
   end)%go.

(** [func (am *Manager) GetMaterial(name string)], returning a pointer and
    whether it was found;
    [fuel] bounds the length of the parent chain that is followed. *)
Fixpoint GetMaterial (fuel : nat) (am : loc) (name : string)
    : M World (option loc * bool) :=
  match fuel with
  | O => fun _ => Diverge
  | S fuel' =>
      (mgr <- deref managers (Some am) ;;
       match Materials mgr !! name with
       | Some m => ret (m, true)
       | None =>
           match Parent mgr with
           | Some parent => GetMaterial fuel' parent name
           | None => ret (None, false)
           end
       end)%go
  end.

(** [func (am *Manager) AddMesh(m *Mesh) error] *)
Definition AddMesh (am : loc) (m : option loc) : M World (option error) :=
  (mesh <- deref meshes m ;;
   mgr <- deref managers (Some am) ;;
   match Meshes mgr !! Mesh.Name mesh with
   | Some _ => ret (Some (MeshExists (Mesh.Name mesh)))
   | None =>
       store_manager am
         (set_Meshes (<[Mesh.Name mesh := m]> (Meshes mgr)) mgr) ;;;
       ret None
   end)%go.

(** [func (am *Manager) GetMesh(name string)] *)
Fixpoint GetMesh (fuel : nat) (am : loc) (name : string)
    : M World (option loc * bool) :=
  match fuel with
  | O => fun _ => Diverge
  | S fuel' =>
      (mgr <- deref managers (Some am) ;;
       match Meshes mgr !! name with
       | Some m => ret (m, true)
       | None =>
           match Parent mgr with
           | Some parent => GetMesh fuel' parent name
           | None => ret (None, false)
           end
       end)%go
  end.

(** [func (am *Manager) GetShader(name string) (uint32, bool)] *)
Fixpoint GetShader (fuel : nat) (am : loc) (name : string)
    : M World (Z * bool) :=
  match fuel with
  | O => fun _ => Diverge
  | S fuel' =>
      (mgr <- deref managers (Some am) ;;
       match Shaders mgr !! name with
       | Some shader => ret (shader, true)
       | None =>
           match Parent mgr with
           | Some parent => GetShader fuel' parent name
           | None => ret (0, false)
           end
       end)%go
  end.

(** [func (am *Manager) AddShader(name string, shader uint32) error] *)
Definition AddShader (fuel : nat) (am : loc) (name : string) (shader : Z)
    : M World (option error) :=
  (found <- GetShader fuel am name ;;
   if snd found then ret (Some (ShaderExists name))
   else
     mgr <- deref managers (Some am) ;;
     store_manager am (set_Shaders (<[name := shader]> (Shaders mgr)) mgr) ;;;
     ret None)%go.

(** [func (am *Manager) GetProgram(set ShaderSet) (uint32, bool)] *)
Fixpoint GetProgram (fuel : nat) (am : loc) (set : ShaderSet)
    : M World (Z * bool) :=
  match fuel with
  | O => fun _ => Diverge
  | S fuel' =>
      (mgr <- deref managers (Some am) ;;
       match Programs mgr !! set with
       | Some prog => ret (prog, true)
       | None =>
           match Parent mgr with
           | Some parent => GetProgram fuel' parent set
           | None => ret (0, false)
           end
       end)%go
  end.

(** [func (am *Manager) AddProgram(set ShaderSet, prog uint32) error] *)
Definition AddProgram (fuel : nat) (am : loc) (set : ShaderSet) (prog : Z)
    : M World (option error) :=
  (found <- GetProgram fuel am set ;;
   if snd found then ret (Some (ProgramExists (Vs set) (Fs set) (Gs set)))
   else
     mgr <- deref managers (Some am) ;;
     store_manager am (set_Programs (<[set := prog]> (Programs mgr)) mgr) ;;;
     ret None)%go.

(** [func (am *Manager) AddTexture(t *Texture) error] *)
Definition AddTexture (am : loc) (t : option loc) : M World (option error) :=
  (tex <- deref textures t ;;
   mgr <- deref managers (Some am) ;;
   match Textures mgr !! Texture.Name tex with
   | Some _ => ret (Some (TextureExists (Texture.Name tex)))
   | None =>
       store_manager am
         (set_Textures (<[Texture.Name tex := t]> (Textures mgr)) mgr) ;;;
       ret None
   end)%go.

(** [func (am *Manager) GetTexture(name string)] *)
Fixpoint GetTexture (fuel : nat) (am : loc) (name : string)
    : M World (option loc * bool) :=
  match fuel with
  | O => fun _ => Diverge
  | S fuel' =>
      (mgr <- deref managers (Some am) ;;
       match Textures mgr !! name with
       | Some tex => ret (tex, true)
       | None =>
           match Parent mgr with
           | Some parent => GetTexture fuel' parent name
           | None => ret (None, false)
           end
       end)%go
  end.

Section Loading.

(** The file system: the bytes [os.Open] and [ioutil.ReadAll] give for
    a path, or [None] when either fails. *)
Variable read_file : string -> option string.

(** The info log the driver holds after compiling a source for a stage,
    with its terminator; its length is [GL_INFO_LOG_LENGTH]. *)
Variable shader_log : GL.state -> Z -> string -> string.

(** The info log after linking a program from three stages. *)
Variable program_log : GL.state -> Z -> Z -> Z -> string.

(** shader.go: [func newShader(file string, typ uint32) (uint32, error)] *)
Definition newShader (file : string) (typ : Z) : M GL.state (result Z) :=
  match read_file file with
  | None => ret (Err (FileError file))
  | Some buf =>
      (s <- GL.GenName ;;
       g <- get ;;
       GL.Issue (GL.CCompileShader s typ) ;;;
       let log := shader_log g typ buf in
       let infoLogLen := Z.of_nat (String.length log) in
       if decide (infoLogLen > 1) then ret (Err (InfoLog log))
       else ret (Ok s))%go
  end.

(** [func (am *Manager) LoadShader(typ uint32, name string)
    (uint32, error)]; the error of [AddShader] is dropped. *)
Definition LoadShader (fuel : nat) (am : loc) (typ : Z) (name : string)
    : M World (result Z) :=
  (found <- GetShader fuel am name ;;
   if snd found then ret (Ok (fst found))
   else
     r <- gl (newShader ("assets/shaders/" +:+ name) typ) ;;
     match r with
     | Err e => ret (Err e)
     | Ok shader =>
         AddShader fuel am name shader ;;;
         ret (Ok shader)
     end)%go.

(** The statements of [LoadProgram] once the three stages are known.
    Creating the program takes a fresh name; attaching the stages leaves
    nothing in the trace, the link does. *)
Definition LoadProgram_link (fuel : nat) (am : loc) (set : ShaderSet)
    : M World (result Z) :=
  (found <- GetProgram fuel am set ;;
   if snd found then ret (Ok (fst found))
   else
     prog <- gl GL.GenName ;;
     w <- get ;;
     gl (GL.Issue (GL.CLinkProgram prog (Vs set) (Fs set) (Gs set))) ;;;
     let log := program_log (driver w) (Vs set) (Fs set) (Gs set) in
     let infoLogLen := Z.of_nat (String.length log) in
     if decide (infoLogLen > 1) then ret (Err (InfoLog log))
     else
       AddProgram fuel am set prog ;;;
       ret (Ok prog))%go.

(** [func (am *Manager) LoadProgram(vfile, ffile, gfile string)
    (uint32, error)] *)
Definition LoadProgram (fuel : nat) (am : loc) (vfile ffile gfile : string)
    : M World (result Z) :=
  (r <- LoadShader fuel am GL.VERTEX_SHADER vfile ;;
   match r with
   | Err e => ret (Err e)
   | Ok vs =>
       r <- LoadShader fuel am GL.FRAGMENT_SHADER ffile ;;
       match r with
       | Err e => ret (Err e)
       | Ok fs =>
           if decide (Z.of_nat (String.length gfile) > 0) then
             r <- LoadShader fuel am GL.GEOMETRY_SHADER gfile ;;
             match r with
             | Err e => ret (Err e)
             | Ok gs => LoadProgram_link fuel am (mkSet vs fs gs)
             end
           else LoadProgram_link fuel am (mkSet vs fs 0)
       end
   end)%go.

End Loading.

Definition set_textures (x : gmap loc Texture.t) (w : World) : World :=
  mkWorld (managers w) (materials w) (meshes w) x (driver w).

(** The texture that [NewTextureFromImage] returns a pointer to is a new
    object of the store. *)
Definition alloc_texture (tex : Texture.t) : M World loc := fun w =>
  let p := fresh (dom (textures w)) in
  Ret p (set_textures (<[p := tex]> (textures w)) w).

(** Calls on the world and on the driver, from code that also defines
    texture images. *)
Definition on_world {A} (m : M World A) : M (World * TexImage.state) A :=
  fun '(w, i) =>
    match m w with
    | Ret a w' => Ret a (w', i)
    | Abort p w' => Abort p (w', i)
    | Diverge => Diverge
    end.

Definition on_driver {A} (m : M (GL.state * TexImage.state) A)
    : M (World * TexImage.state) A :=
  fun '(w, i) =>
    match m (driver w, i) with
    | Ret a (g, i') => Ret a (set_driver g w, i')
    | Abort p (g, i') => Abort p (set_driver g w, i')
    | Diverge => Diverge
    end.

Section Textures.

(** [os.Open] on a path followed by [image.Decode]: the image, or the
    error of either. *)
Variable open_image : string -> result Image.t.

(** [func (am *Manager) LoadTexture(name string)], returning a pointer to
    the texture and an error; the error of [AddTexture] is dropped. *)
Definition LoadTexture (fuel : nat) (am : loc) (name : string)
    : M (World * TexImage.state) (result (option loc)) :=
  (found <- on_world (GetTexture fuel am name) ;;
   if snd found then ret (Ok (fst found))
   else
     match open_image ("assets/textures/" +:+ name) with
     | Err e => ret (Err e)
     | Ok img =>
         r <- on_driver (Texture.NewTextureFromImage name img) ;;
         match r with
         | Err e => ret (Err e)
         | Ok tex =>
             p <- on_world (alloc_texture tex) ;;
             on_world (AddTexture am (Some p)) ;;;
             ret (Ok (Some p))
         end
     end)%go.

(** [for i, name := range names] of [LoadTextures], from index [i] on;
    [textures] is the slice being filled. *)
Fixpoint LoadTextures_range (fuel : nat) (am : loc) (i : nat)
    (names : list string) (textures : list (option loc))
    : M (World * TexImage.state) (result (list (option loc))) :=
  match names with
  | [] => ret (Ok textures)
  | name :: rest =>
      (r <- LoadTexture fuel am name ;;
       match r with
       | Err e => ret (Err e)
       | Ok tex => LoadTextures_range fuel am (S i) rest (<[i := tex]> textures)
       end)%go
  end.

(** [func (am *Manager) LoadTextures(names ...string)], returning the
    textures and an error. *)
Definition LoadTextures (fuel : nat) (am : loc) (names : list string)
    : M (World * TexImage.state) (result (list (option loc))) :=
  LoadTextures_range fuel am 0 names (replicate (length names) None).

End Textures.

Definition set_materials (x : gmap loc Material.t) (w : World) : World :=
  mkWorld (managers w) x (meshes w) (textures w) (driver w).
Definition set_meshes (x : gmap loc Mesh.t) (w : World) : World :=
  mkWorld (managers w) (materials w) x (textures w) (driver w).

(** What [Clean] works on: the store and the driver, with its vertex array
    objects and texture images. *)
Definition cleaning : Type := (World * (VertexArray.state * TexImage.state))%type.

Section Cleaning.

(** The order in which [range] yields the channels of a mesh. *)
Variable attribs_order : Mesh.t -> list (string * AttribArray.t).

(** [m.Clean()] on a pointer of the material map. *)
Definition clean_material (m : option loc) : M cleaning unit := fun '(w, d) =>
  match m with
  | Some l =>
      match materials w !! l with
      | Some mat =>
          Ret tt (set_materials (<[l := Material.Clean mat]> (materials w)) w, d)
      | None => Abort NilDereference (w, d)
      end
  | None => Abort NilDereference (w, d)
  end.

(** [m.Clean()] on a pointer of the mesh map. *)
Definition clean_mesh (m : option loc) : M cleaning unit := fun '(w, (v, i)) =>
  match m with
  | Some l =>
      match meshes w !! l with
      | Some mesh =>
          match Mesh.Clean (attribs_order mesh) (mesh, (driver w, v)) with
          | Ret _ (mesh', (g', v')) =>
              Ret tt (set_meshes (<[l := mesh']> (meshes w)) (set_driver g' w),
                      (v', i))
          | Abort p (mesh', (g', v')) =>
              Abort p (set_meshes (<[l := mesh']> (meshes w)) (set_driver g' w),
                       (v', i))
          | Diverge => Diverge
          end
      | None => Abort NilDereference (w, (v, i))
      end
  | None => Abort NilDereference (w, (v, i))
  end.

(** [gl.DeleteProgram(prog)], [gl.DeleteShader(shader)]: shader and
    program objects are not part of the driver state kept here. *)
Definition delete_object (name : Z) : M cleaning unit := ret tt.

(** [tex.Clean()] on a pointer of the texture map. *)
Definition clean_texture (t : option loc) : M cleaning unit := fun '(w, (v, i)) =>
  match t ≫= (fun l => textures w !! l) with
  | Some tex =>
      match Texture.Clean tex (driver w, i) with
      | Ret _ (g', i') => Ret tt (set_driver g' w, (v, i'))
      | Abort p (g', i') => Abort p (set_driver g' w, (v, i'))
      | Diverge => Diverge
      end
  | None => Abort NilDereference (w, (v, i))
  end.

(** Reading a field of the manager at [am]: a nil receiver panics. *)
Definition deref_manager (am : loc) : M cleaning unit := fun '(w, d) =>
  match managers w !! am with
  | Some _ => Ret tt (w, d)
  | None => Abort NilDereference (w, d)
  end.

(** A write to a field of the manager at [am]. *)
Definition update_manager (am : loc) (f : t -> t) : M cleaning unit :=
  fun '(w, d) =>
    match managers w !! am with
    | Some mgr => Ret tt (set_managers (<[am := f mgr]> (managers w)) w, d)
    | None => Abort NilDereference (w, d)
    end.

(** [for k, x := range m { body(x); delete(m, k) }], [m] a map of the
    manager at [am], over the entries in the order [range] yields them;
    [del k] deletes the key from that map. *)
Fixpoint range_delete {K V} (body : V -> M cleaning unit) (del : K -> t -> t)
    (am : loc) (entries : list (K * V)) : M cleaning unit :=
  match entries with
  | [] => ret tt
  | (k, x) :: rest =>
      (body x ;;;
       update_manager am (del k) ;;;
       range_delete body del am rest)%go
  end.

(** [func (am *Manager) Clean()]; each list gives the entries of one of
    the maps in the order [range] yields them. *)
Definition Clean (am : loc)
    (materials_order meshes_order : list (string * option loc))
    (programs_order : list (ShaderSet * Z))
    (shaders_order : list (string * Z))
    (textures_order : list (string * option loc)) : M cleaning unit :=
  (deref_manager am ;;;
   range_delete clean_material
     (fun name mgr => set_Materials (delete name (Materials mgr)) mgr)
     am materials_order ;;;
   range_delete clean_mesh
     (fun name mgr => set_Meshes (delete name (Meshes mgr)) mgr)
     am meshes_order ;;;
   range_delete delete_object
     (fun set mgr => set_Programs (delete set (Programs mgr)) mgr)
     am programs_order ;;;
   range_delete delete_object
     (fun name mgr => set_Shaders (delete name (Shaders mgr)) mgr)
     am shaders_order ;;;
   range_delete clean_texture
     (fun name mgr => set_Textures (delete name (Textures mgr)) mgr)
     am textures_order)%go.

End Cleaning.

End Manager.

(** ** Vocabulary of the specification *)

Module Spec.

(** The element types [NewAttribArray] supports. *)
Definition supported (t : elem) : bool :=
  match t with
  | Uint8 | Float32 | Float64 | Vec2f | Vec3f | Vec2d | Vec3d => true
  | _ => false
  end.

(** Fixed-size vectors, and the number of scalars in one element. *)
Definition is_vector (t : elem) : bool :=
  match t with
  | Vec2f | Vec3f | Vec2d | Vec3d => true
  | _ => false
  end.

Definition components (t : elem) : Z :=
  match t with
  | Vec2f | Vec2d => 2
  | Vec3f | Vec3d => 3
  | _ => 1
  end.

(** The OpenGL datatype of the scalars of an element type, and their
    size in bytes. *)
Definition gl_type (t : elem) : Z :=
  match t with
  | Uint8 => GL.UNSIGNED_BYTE
  | Uint32 => GL.UNSIGNED_INT
  | Float32 | Vec2f | Vec3f => GL.FLOAT
  | Float64 | Vec2d | Vec3d => GL.DOUBLE
  | OtherElem => 0
  end.

Definition scalar_bytes (t : elem) : Z :=
  match t with
  | Uint8 => 1
  | Uint32 | Float32 | Vec2f | Vec3f => 4
  | Float64 | Vec2d | Vec3d => 8
  | OtherElem => 0
  end.

(** The expanded scalar element count of a payload of [len] elements, as
    a Go [int]. *)
Definition scalar_count (t : elem) (len : N) : Z :=
  if is_vector t then GoInt.mul (Z.of_N len) (components t)
  else Z.of_N len.

(** The element types [NewElementArray] supports. *)
Definition index_type (t : elem) : bool :=
  match t with
  | Uint8 | Uint32 => true
  | _ => false
  end.

(** The region [[offset, offset + size)] of an upload lies within
    [[0, W) x [0, H)]. *)
Definition region_within (t : Texture.t) (bounds : Image.Rectangle)
    (offset : Image.Point) : Prop :=
  0 <= Image.X offset /\ Image.X offset + Image.Dx bounds <= Texture.W t /\
  0 <= Image.Y offset /\ Image.Y offset + Image.Dy bounds <= Texture.H t.

#[global] Instance region_within_dec t b o : Decision (region_within t b o).
Proof. unfold region_within. apply _. Defined.

End Spec.
Import Spec.

(** The walk all the [Get] methods of the manager share: look in the
    manager's own map, then in its parent's, up the chain. [local] reads the
    map of one manager, [zero] is the value returned with [false]. *)
Fixpoint lookup_chain {V} (local : Manager.t -> option V) (zero : V)
    (fuel : nat) (am : loc) (w : Manager.World) : res Manager.World (V * bool) :=
  match fuel with
  | O => Diverge
  | S fuel' =>
      match Manager.managers w !! am with
      | None => Abort NilDereference w
      | Some mgr =>
          match local mgr with
          | Some v => Ret (v, true) w
          | None =>
              match Manager.Parent mgr with
              | Some parent => lookup_chain local zero fuel' parent w
              | None => Ret (zero, false) w
              end
          end
      end
  end.

(** Two worlds in which every manager has the same parent and the same
    entry under [local]. *)
Definition same_view {V} (local : Manager.t -> option V)
    (w w' : Manager.World) : Prop :=
  forall a,
    match Manager.managers w !! a, Manager.managers w' !! a with
    | Some m, Some m' => local m = local m' /\ Manager.Parent m = Manager.Parent m'
    | None, None => True
    | _, _ => False
    end.

(** A driver state as the package leaves it: names are handed out from 1
    upwards and every live buffer bears a name that was handed out. *)
Definition GL_wf (g : GL.state) : Prop :=
  0 <= GL.names g /\
  forall b, is_Some (GL.buffers g !! b) -> 0 < b <= GL.names g.

(** The slot [Mesh.Init] binds a channel of a given name to. *)
Definition slot_of (name : string) : Z := default 0 (Mesh.attribMap !! name).

(** What [arr.Init(slot)] does to the bound vertex array object. *)
Definition init_step (o : VertexArray.object) (e : string * AttribArray.t)
    : VertexArray.object :=
  let loc := slot_of (AttribArray.Name e.2) in
  VertexArray.mkObject
    ({[loc]} ∪ VertexArray.enabled o)
    (if decide (1 <= GoInt.int32 (AttribArray.Dims e.2) <= 4)
     then <[loc := VertexArray.mkPointer (AttribArray.Buf e.2)
                     (GoInt.int32 (AttribArray.Dims e.2))
                     (AttribArray.Type_ e.2)]> (VertexArray.pointers o)
     else VertexArray.pointers o)
    (VertexArray.elements o).

(** The buffers of the arrays that the variables of [MakeMesh] point to,
    in the order its deferred function cleans them. *)
Definition frame_bufs (f : MeshUtil.frame) : list Z :=
  omap (fmap AttribArray.Buf)
       [MeshUtil.posarr f; MeshUtil.colarr f; MeshUtil.nrmarr f]
  ++ omap (fmap AttribArray.Buf) (MeshUtil.texcarr f)
  ++ omap (fmap ElementArray.Buf) [MeshUtil.elemarr f].

Definition delete_all (bs : gmap Z Z) (l : list Z) : gmap Z Z :=
  foldl (fun bs b => delete b bs) bs l.

(** Inside a call of [MakeMesh] that started in the driver [g0]: the
    buffers of the arrays in the variables were all generated during the
    call, and every other buffer is as it was in [g0]. *)
Definition MakeMesh_inv (g0 : GL.state) (s : MeshUtil.locals) : Prop :=
  GL.names g0 <= GL.names s.2 /\
  (forall b, b ∈ frame_bufs s.1 -> GL.names g0 < b <= GL.names s.2) /\
  (forall b, b ∉ frame_bufs s.1 -> GL.buffers s.2 !! b = GL.buffers g0 !! b).

(** Partial correctness of a computation: from a state in [Pre], a normal
    return ends in [Post]. *)
Definition holds {S A} (Pre : S -> Prop) (m : M S A) (Post : A -> S -> Prop) : Prop :=
  forall s, Pre s -> forall a s', m s = Ret a s' -> Post a s'.

(** A constructor that hands back an array on a fresh buffer, or an error
    and the driver as it was. *)
Definition creates {X} (new : M GL.state (result X)) (bufof : X -> Z) : Prop :=
  forall g,
    match new g with
    | Ret (Ok x) g' =>
        bufof x = GL.names g + 1 /\ GL.names g' = GL.names g + 1 /\
        (forall b, b ≠ GL.names g + 1 -> GL.buffers g' !! b = GL.buffers g !! b)
    | Ret (Err _) g' => g' = g
    | _ => True
    end.

(** Where a [return] of [MakeMesh] leaves the variables: an error that is
    returned is also in [err]. *)
Definition MakeMesh_final (g0 : GL.state) (r : result Mesh.t)
    (s : MeshUtil.locals) : Prop :=
  MakeMesh_inv g0 s /\ forall e, r = Err e -> MeshUtil.err s.1 = Some e.

(** The calls [DrawUniforms] makes when no entry is skipped: each uniform
    set at the location [loc] gives for its name. *)
Fixpoint set_all (loc : string -> Z) (uniforms : list (string * uniform))
    : M GL.state unit :=
  match uniforms with
  | [] => ret tt
  | (name, value) :: rest =>
      (Mesh.set_uniform (loc name) value ;;; set_all loc rest)%go
  end.

(** What the driver answers for a name of [InitUniformLocs] with the
    bytes [behind] it in memory. *)
Definition answer (loc_of : Z -> string -> Z) (mat : Material.t)
    (e : string * string) : Z :=
  loc_of (Material.Prog mat) (Material.c_string (e.1 +:+ e.2)).

(** The table [InitUniformLocs] has filled after the names [names]. *)
Definition registered (loc_of : Z -> string -> Z) (names : list (string * string))
    (mat : Material.t) : Material.t :=
  Material.set_UniformLocs
    (foldl (fun u e => <[e.1 := answer loc_of mat e]> u)
           (Material.UniformLocs mat) names)
    mat.

(** The image [LoadImage] hands to [LoadRGBA]: the image itself, or the
    copy drawn from it. *)
Definition rgba_of (img : Image.t) : Image.RGBA :=
  match img with
  | Image.IsRGBA i => i
  | Image.Generic b drawn => Texture.to_RGBA b drawn
  end.

(** The pixel bytes [LoadImage] uploads for an image. *)
Definition pixels_of (img : Image.t) : list Z :=
  match img with
  | Image.IsRGBA i => Image.Pix i
  | Image.Generic _ drawn => drawn
  end.

(** [path] leads from the manager at [a] up to the one at [b], parent by
    parent, and no manager before [b] has an entry under [local]. *)
Fixpoint misses {V} (local : Manager.t -> option V) (w : Manager.World)
    (a : loc) (path : list loc) (b : loc) : Prop :=
  match path with
  | [] => a = b
  | p :: rest =>
      exists mgr, Manager.managers w !! a = Some mgr /\ local mgr = None /\
                  Manager.Parent mgr = Some p /\ misses local w p rest b
  end.

(** * Properties *)

(** ** Go integers *)

Lemma int_in_range x : GoInt.in_range x -> GoInt.int x = x.
Proof.
  unfold GoInt.in_range, GoInt.min_int, GoInt.max_int, GoInt.int, GoInt.wrap.
  intros H. rewrite Z.mod_small; lia.
Qed.

(** Below 2^61 elements, far above what memory holds, the scalar count of
    a payload is the product without wrap. *)
Lemma scalar_count_exact t len :
  (Z.of_N len < 2 ^ 61) -> scalar_count t len = Z.of_N len * components t.
Proof.
  intros H. unfold scalar_count, GoInt.mul.
  destruct t; simpl; try lia;
    apply int_in_range; unfold GoInt.in_range, GoInt.min_int, GoInt.max_int; lia.
Qed.

(** ** Attribute arrays *)

Section AttribArrayFacts.

Import AttribArray.

(** A payload of a scalar type whose length is not a multiple of [dims]
    is refused with the length error, before the driver is touched. *)
Lemma NewAttribArray_scalar_not_multiple name dims t len cap usage g :
  supported t = true -> is_vector t = false ->
  len ≠ 0%N -> dims ≠ 0 -> GoInt.rem (scalar_count t len) dims ≠ 0 ->
  NewAttribArray name dims (Slice t len cap) usage g
  = Ret (Err (AttribLenError name (scalar_count t len) dims)) g.
Proof.
  intros Hs Hv Hl Hd Hr. unfold NewAttribArray, scalar_count in *.
  rewrite Hv in Hr. rewrite Hv.
  rewrite decide_False by lia.
  destruct t; simpl in *; try discriminate;
    rewrite decide_False by done; rewrite decide_True by done; done.
Qed.

(** A payload of vectors whose component count is not [dims] makes
    [NewAttribArray] panic, before the driver is touched. *)
Lemma NewAttribArray_vector_mismatch name dims t len cap usage g :
  is_vector t = true -> len ≠ 0%N -> dims ≠ components t ->
  NewAttribArray name dims (Slice t len cap) usage g
  = Abort (Panic "AttribArray error: dimension mismatch") g.
Proof.
  intros Hv Hl Hd. unfold NewAttribArray.
  rewrite decide_False by lia.
  destruct t; simpl in *; try discriminate;
    rewrite decide_True by done; done.
Qed.

(** A payload that passes every check gives an array of the scalar
    count, on a fresh live buffer. *)
Lemma NewAttribArray_valid name dims t len cap usage g :
  supported t = true -> len ≠ 0%N -> dims ≠ 0 ->
  (is_vector t = true -> dims = components t) ->
  GoInt.rem (scalar_count t len) dims = 0 ->
  NewAttribArray name dims (Slice t len cap) usage g
  = Ret (Ok (mk name dims (gl_type t) (GL.names g + 1)
                (scalar_count t len) (scalar_count t len)))
        (GL.mk (GL.names g + 1)
           (if decide (GoInt.mul (scalar_count t len) (scalar_bytes t) < 0)
            then <[GL.names g + 1 := 0]> (GL.buffers g)
            else <[GL.names g + 1 := GoInt.mul (scalar_count t len) (scalar_bytes t)]>
                   (<[GL.names g + 1 := 0]> (GL.buffers g)))
           (GL.trace g ++
              [GL.CBufferData (GL.names g + 1)
                 (GoInt.mul (scalar_count t len) (scalar_bytes t)) usage])).
Proof.
  intros Hs Hl Hd Hv Hr. unfold NewAttribArray, scalar_count in *.
  rewrite decide_False by lia.
  destruct t; simpl in *; try discriminate;
    try (rewrite (decide_False (P := dims ≠ _)) by (intros ?; apply H; symmetry; auto));
    try (specialize (Hv eq_refl); subst dims;
         rewrite (decide_False (P := _ ≠ _)) by (intros ?; congruence));
    rewrite (decide_False (P := _ = 0)) by done;
    rewrite (decide_False (P := GoInt.rem _ _ ≠ 0)) by (intros ?; congruence);
    unfold bind, GL.GenBuffers, GL.BufferData, ret; simpl;
    rewrite lookup_insert_eq; done.
Qed.

End AttribArrayFacts.

(** C5, as the specification states it, fails on the code: one [mgl32.Vec2]
    is two scalars, which is not a multiple of three, and [NewAttribArray]
    does not return the length error for it: it panics. *)
Lemma NewAttribArray_vector_payload_counterexample :
  GoInt.rem (scalar_count Vec2f 1) 3 ≠ 0 /\
  AttribArray.NewAttribArray "pos" 3 (Slice Vec2f 1 1) GL.STATIC_DRAW GL.init
  = Abort (Panic "AttribArray error: dimension mismatch") GL.init /\
  AttribArray.NewAttribArray "pos" 3 (Slice Vec2f 1 1) GL.STATIC_DRAW GL.init
  ≠ Ret (Err (AttribLenError "pos" (scalar_count Vec2f 1) 3)) GL.init.
Proof. repeat split; [vm_compute; discriminate | discriminate]. Qed.

(** C5, amended. For a non-zero [dims]:
    - a non-empty payload of a scalar type ([uint8], [float32], [float64])
      whose length is not a multiple of [dims] makes [NewAttribArray]
      return the length error and leaves the driver as it was;
    - a non-empty payload of vectors whose component count is not [dims]
      makes it panic, the driver left as it was;
    - a non-empty payload of a supported type whose scalar count is a
      multiple of [dims], with [dims] the component count when the payload
      is of vectors, gives an array with [Len = Cap =] the scalar count,
      [Attribs() =] count / dims, on a live buffer. *)
Theorem NewAttribArray_dimensions :
  (forall name dims t len cap usage g,
      supported t = true -> is_vector t = false ->
      len ≠ 0%N -> dims ≠ 0 -> GoInt.rem (scalar_count t len) dims ≠ 0 ->
      AttribArray.NewAttribArray name dims (Slice t len cap) usage g
      = Ret (Err (AttribLenError name (scalar_count t len) dims)) g) /\
  (forall name dims t len cap usage g,
      is_vector t = true -> len ≠ 0%N -> dims ≠ components t ->
      AttribArray.NewAttribArray name dims (Slice t len cap) usage g
      = Abort (Panic "AttribArray error: dimension mismatch") g) /\
  (forall name dims t len cap usage g,
      supported t = true -> len ≠ 0%N -> dims ≠ 0 ->
      (is_vector t = true -> dims = components t) ->
      GoInt.rem (scalar_count t len) dims = 0 ->
      exists arr g',
        AttribArray.NewAttribArray name dims (Slice t len cap) usage g
        = Ret (Ok arr) g' /\
        AttribArray.Len arr = scalar_count t len /\
        AttribArray.Cap arr = scalar_count t len /\
        AttribArray.Attribs arr g' = Ret (GoInt.quot (scalar_count t len) dims) g' /\
        GL.live (AttribArray.Buf arr) g').
Proof.
  split; [| split].
  - apply NewAttribArray_scalar_not_multiple.
  - apply NewAttribArray_vector_mismatch.
  - intros name dims t len cap usage g Hs Hl Hd Hv Hr.
    eexists _, _. split.
    { by apply NewAttribArray_valid. }
    simpl. repeat split.
    + unfold AttribArray.Attribs. simpl. by rewrite decide_False.
    + unfold GL.live. simpl. case_decide; rewrite lookup_insert_eq; eauto.
Qed.

Lemma NewAttribArray_dimensions_witness :
  AttribArray.NewAttribArray "pos" 3 (Slice Float32 4 4) GL.STATIC_DRAW GL.init
  = Ret (Err (AttribLenError "pos" 4 3)) GL.init /\
  AttribArray.NewAttribArray "pos" 3 (Slice Vec2d 5 5) GL.STATIC_DRAW GL.init
  = Abort (Panic "AttribArray error: dimension mismatch") GL.init /\
  exists arr g',
    AttribArray.NewAttribArray "pos" 3 (Slice Vec3f 4 4) GL.STATIC_DRAW GL.init
    = Ret (Ok arr) g' /\
    AttribArray.Len arr = 12 /\ AttribArray.Cap arr = 12 /\
    AttribArray.Attribs arr g' = Ret 4 g' /\
    GL.live (AttribArray.Buf arr) g'.
Proof.
  destruct NewAttribArray_dimensions as (Hlen & Hvec & Hok).
  split; [| split].
  - apply (Hlen "pos" 3 Float32 4%N 4%N GL.STATIC_DRAW GL.init);
      [reflexivity | reflexivity | discriminate | discriminate
      | vm_compute; discriminate].
  - apply (Hvec "pos" 3 Vec2d 5%N 5%N GL.STATIC_DRAW GL.init);
      [reflexivity | discriminate | vm_compute; discriminate].
  - apply (Hok "pos" 3 Vec3f 4%N 4%N GL.STATIC_DRAW GL.init);
      [reflexivity | discriminate | discriminate | reflexivity | reflexivity].
Defined.

(** *** Update *)

Section AttribArrayUpdate.

Import AttribArray.

(** An empty payload, of any element type, sets the length to zero and
    returns nil without a driver call. *)
Lemma Update_empty arr g t cap :
  Update (Slice t 0 cap) (arr, g) = Ret None (set_Len 0 arr, g).
Proof. reflexivity. Qed.

(** A non-empty payload with more elements than the capacity panics,
    after the length was overwritten. *)
Lemma Update_too_long arr g t len cap :
  len ≠ 0%N -> Z.of_N len > Cap arr ->
  Update (Slice t len cap) (arr, g)
  = Abort (Panic "asset.AttribArray.Update error: data length is longer than buffer")
          (set_Len (Z.of_N len) arr, g).
Proof.
  intros Hl Hc. unfold Update.
  rewrite decide_False by lia. simpl. by rewrite decide_True.
Qed.

(** A non-empty payload within capacity whose OpenGL type is not the
    array's panics. *)
Lemma Update_type_mismatch arr g t len cap :
  len ≠ 0%N -> Z.of_N len <= Cap arr -> supported t = true ->
  (is_vector t = true -> Dims arr = components t) ->
  gl_type t ≠ Type_ arr ->
  Update (Slice t len cap) (arr, g)
  = Abort (Panic "asset.AttribArray.Update error: data type does not match array type")
          (set_Len (scalar_count t len) arr, g).
Proof.
  intros Hl Hc Hs Hv Ht. unfold Update.
  rewrite decide_False by lia. simpl. rewrite decide_False by lia.
  destruct t; simpl in *; try discriminate;
    try (rewrite (Hv eq_refl); simpl);
    unfold Update_upload, scalar_count; simpl;
    rewrite decide_True by (intros ?; apply Ht; done); done.
Qed.

End AttribArrayUpdate.

(** C4, as the specification states it, fails on the code. An array made
    from four [float32], of capacity 4:
    - takes an empty [uint8] payload and returns nil, where the claim has
      a type error returned regardless of length;
    - on two [uint8] returns no error: it panics;
    - on six [float32], more than its capacity, returns no error: it
      panics. *)
Lemma Update_empty_mismatch_counterexample :
  let arr := AttribArray.mk "pos" 2 GL.FLOAT 1 4 4 in
  let g := GL.mk 1 {[1 := 16]} [GL.CBufferData 1 16 GL.STATIC_DRAW] in
  AttribArray.NewAttribArray "pos" 2 (Slice Float32 4 4) GL.STATIC_DRAW GL.init
  = Ret (Ok arr) g /\
  gl_type Uint8 ≠ AttribArray.Type_ arr /\
  AttribArray.Update (Slice Uint8 0 0) (arr, g)
  = Ret None (AttribArray.set_Len 0 arr, g) /\
  AttribArray.Update (Slice Uint8 2 2) (arr, g)
  = Abort (Panic "asset.AttribArray.Update error: data type does not match array type")
          (AttribArray.set_Len 2 arr, g) /\
  AttribArray.Update (Slice Float32 6 6) (arr, g)
  = Abort (Panic "asset.AttribArray.Update error: data length is longer than buffer")
          (AttribArray.set_Len 6 arr, g).
Proof.
  intros arr g.
  split; [reflexivity |]. split; [discriminate |].
  split; [reflexivity |]. split; reflexivity.
Qed.

(** The one error [Update] returns, and when. *)
Lemma Update_returned_error data arr g e s :
  AttribArray.Update data (arr, g) = Ret (Some e) s ->
  e = AttribUnhandledType (AttribArray.Name arr) /\
  exists t len cap,
    data = Slice t len cap /\ supported t = false /\ len ≠ 0%N /\
    Z.of_N len <= AttribArray.Cap arr /\
    s = (AttribArray.set_Len (Z.of_N len) arr, g).
Proof.
  unfold AttribArray.Update.
  destruct data as [| t len cap |]; try discriminate.
  case_decide as Hl; [discriminate |].
  cbn [AttribArray.Cap AttribArray.set_Len].
  case_decide as Hc; [discriminate |].
  destruct t; cbn [AttribArray.Dims AttribArray.set_Len AttribArray.Len];
    repeat (case_decide; try discriminate);
    unfold AttribArray.Update_upload;
    repeat (case_decide; try discriminate);
    intros [= <- <-]; (split; [reflexivity |]);
    eexists _, _, _; (split; [reflexivity |]);
    (split; [reflexivity |]); (split; [lia |]); (split; [lia | reflexivity]).
Qed.

Lemma Update_unhandled arr g t len cap :
  supported t = false -> len ≠ 0%N -> Z.of_N len <= AttribArray.Cap arr ->
  AttribArray.Update (Slice t len cap) (arr, g)
  = Ret (Some (AttribUnhandledType (AttribArray.Name arr)))
        (AttribArray.set_Len (Z.of_N len) arr, g).
Proof.
  intros Hs Hl Hc. unfold AttribArray.Update.
  rewrite decide_False by lia.
  cbn [AttribArray.Cap AttribArray.set_Len].
  rewrite decide_False by lia.
  by destruct t.
Qed.

(** C4, amended. [Update] returns neither a type nor a capacity error:
    - the one error it returns is "unhandled element type", and it
      returns it for exactly the non-empty payloads, no longer than the
      capacity, of an element type outside the supported ones, the length
      already overwritten;
    - a non-empty payload, no longer than the capacity, of a supported
      element type whose OpenGL type is not the array's (vectors agreeing
      with [Dims]) makes it panic with "data type does not match array
      type";
    - a non-empty payload with more slice elements than the capacity makes
      it panic with "data length is longer than buffer";
    - an empty payload, of the creation type or of any other, returns nil,
      sets the length to 0 and leaves the driver as it was. *)
Theorem Update_checks :
  (forall data arr g e s,
      AttribArray.Update data (arr, g) = Ret (Some e) s ->
      e = AttribUnhandledType (AttribArray.Name arr) /\
      exists t len cap,
        data = Slice t len cap /\ supported t = false /\ len ≠ 0%N /\
        Z.of_N len <= AttribArray.Cap arr /\
        s = (AttribArray.set_Len (Z.of_N len) arr, g)) /\
  (forall arr g t len cap,
      supported t = false -> len ≠ 0%N -> Z.of_N len <= AttribArray.Cap arr ->
      AttribArray.Update (Slice t len cap) (arr, g)
      = Ret (Some (AttribUnhandledType (AttribArray.Name arr)))
            (AttribArray.set_Len (Z.of_N len) arr, g)) /\
  (forall arr g t len cap,
      len ≠ 0%N -> Z.of_N len <= AttribArray.Cap arr -> supported t = true ->
      (is_vector t = true -> AttribArray.Dims arr = components t) ->
      gl_type t ≠ AttribArray.Type_ arr ->
      AttribArray.Update (Slice t len cap) (arr, g)
      = Abort (Panic "asset.AttribArray.Update error: data type does not match array type")
              (AttribArray.set_Len (scalar_count t len) arr, g)) /\
  (forall arr g t len cap,
      len ≠ 0%N -> Z.of_N len > AttribArray.Cap arr ->
      AttribArray.Update (Slice t len cap) (arr, g)
      = Abort (Panic "asset.AttribArray.Update error: data length is longer than buffer")
              (AttribArray.set_Len (Z.of_N len) arr, g)) /\
  (forall arr g t cap,
      AttribArray.Update (Slice t 0 cap) (arr, g)
      = Ret None (AttribArray.set_Len 0 arr, g)).
Proof.
  split; [| split; [| split; [| split]]].
  - apply Update_returned_error.
  - apply Update_unhandled.
  - apply Update_type_mismatch.
  - apply Update_too_long.
  - apply Update_empty.
Qed.

Lemma Update_checks_witness :
  let arr := AttribArray.mk "pos" 2 GL.FLOAT 1 4 4 in
  (exists t len cap,
     Slice Uint32 2 2 = Slice t len cap /\ supported t = false /\ len ≠ 0%N /\
     Z.of_N len <= AttribArray.Cap arr /\
     (AttribArray.set_Len 2 arr, GL.init)
     = (AttribArray.set_Len (Z.of_N len) arr, GL.init)) /\
  AttribArray.Update (Slice Uint32 2 2) (arr, GL.init)
  = Ret (Some (AttribUnhandledType "pos")) (AttribArray.set_Len 2 arr, GL.init) /\
  AttribArray.Update (Slice Uint8 2 2) (arr, GL.init)
  = Abort (Panic "asset.AttribArray.Update error: data type does not match array type")
          (AttribArray.set_Len 2 arr, GL.init) /\
  AttribArray.Update (Slice Float32 6 6) (arr, GL.init)
  = Abort (Panic "asset.AttribArray.Update error: data length is longer than buffer")
          (AttribArray.set_Len 6 arr, GL.init) /\
  AttribArray.Update (Slice Float32 0 0) (arr, GL.init)
  = Ret None (AttribArray.set_Len 0 arr, GL.init).
Proof.
  destruct Update_checks as (Herr & Hun & Hty & Hcap & Hempty).
  intros arr. split; [| split; [| split; [| split]]].
  - refine (proj2 (Herr (Slice Uint32 2 2) arr GL.init
                     (AttribUnhandledType "pos")
                     (AttribArray.set_Len 2 arr, GL.init) _)).
    reflexivity.
  - apply (Hun arr GL.init Uint32 2%N 2%N);
      [reflexivity | discriminate | vm_compute; discriminate].
  - apply (Hty arr GL.init Uint8 2%N 2%N);
      [discriminate | vm_compute; discriminate | reflexivity
      | discriminate | discriminate].
  - apply (Hcap arr GL.init Float32 6%N 6%N); [discriminate | reflexivity].
  - apply (Hempty arr GL.init Float32 0%N).
Defined.

(** ** Element arrays *)

Section ElementArrayFacts.

Import ElementArray.

(** What a successful [NewElementArray] did. *)
Lemma NewElementArray_ok t len cap usage g arr g' :
  NewElementArray (Slice t len cap) usage g = Ret (Ok arr) g' ->
  index_type t = true /\ len ≠ 0%N /\
  arr = mk (gl_type t) (GL.names g + 1) (Z.of_N len) (Z.of_N cap) /\
  GL.trace g' = GL.trace g ++
    [GL.CBufferData (GL.names g + 1)
       (GoInt.mul (Z.of_N len) (scalar_bytes t)) usage].
Proof.
  unfold NewElementArray. case_decide as Hl; [discriminate |].
  unfold bind, GL.GenBuffers, GL.BufferData, ret, throw.
  destruct t; simpl; try discriminate;
    intros [= <- <-]; repeat split; try done; lia.
Qed.

(** A non-empty payload of the array's type within the recorded capacity
    is taken: the length is set and a sub-upload issued. *)
Lemma ElementArray_Update_within t len cap arr h :
  index_type t = true -> gl_type t = Type_ arr ->
  len ≠ 0%N -> Z.of_N len <= Cap arr ->
  Update (Slice t len cap) (arr, h)
  = Ret tt (set_Len (Z.of_N len) arr,
            GL.issue (GL.CBufferSubData (Buf arr)
                        (GoInt.mul (Z.of_N len) (scalar_bytes t))) h).
Proof.
  intros Hi Ht Hl Hc. unfold Update.
  rewrite decide_False by lia.
  destruct t; simpl in *; try discriminate;
    rewrite decide_False by lia; unfold Update_upload; simpl;
    rewrite decide_False by (intros Hne; apply Hne; by symmetry); done.
Qed.

End ElementArrayFacts.

(** An attribute array is created with its capacity equal to its length. *)
Lemma NewAttribArray_Cap_Len name dims data usage g arr g' :
  AttribArray.NewAttribArray name dims data usage g = Ret (Ok arr) g' ->
  AttribArray.Cap arr = AttribArray.Len arr.
Proof.
  unfold AttribArray.NewAttribArray.
  destruct data as [| t len cap |]; try discriminate.
  case_decide; [discriminate |].
  destruct t; simpl; try discriminate;
    repeat (case_decide; try discriminate);
    unfold bind, GL.GenBuffers, GL.BufferData, ret, throw; simpl;
    intros [= <- _]; reflexivity.
Qed.

(** An attribute array that was created has a non-zero [Dims]: with
    [dims = 0] the remainder [l % dims] panics first. *)
Lemma NewAttribArray_Dims_nonzero name dims data usage g arr g' :
  AttribArray.NewAttribArray name dims data usage g = Ret (Ok arr) g' ->
  AttribArray.Dims arr ≠ 0.
Proof.
  unfold AttribArray.NewAttribArray.
  destruct data as [| t len cap |]; try discriminate.
  case_decide; [discriminate |].
  destruct t; simpl; try discriminate;
    repeat (case_decide; try discriminate);
    unfold bind, GL.GenBuffers, GL.BufferData, ret, throw; simpl;
    intros [= <- _]; simpl; done.
Qed.

(** What a successful [NewAttribArray] recorded: the count of scalar
    elements it made from the payload, as length and as capacity, whatever
    the capacity of the slice. *)
Lemma NewAttribArray_created_count name dims data usage g arr g' :
  AttribArray.NewAttribArray name dims data usage g = Ret (Ok arr) g' ->
  exists t len cap,
    data = Slice t len cap /\ len ≠ 0%N /\
    AttribArray.Len arr = scalar_count t len /\
    AttribArray.Cap arr = scalar_count t len /\
    GL.trace g' = GL.trace g ++
      [GL.CBufferData (AttribArray.Buf arr)
         (GoInt.mul (scalar_count t len) (scalar_bytes t)) usage].
Proof.
  unfold AttribArray.NewAttribArray.
  destruct data as [| t len cap |]; try discriminate.
  case_decide as Hl; [discriminate |].
  intros H. exists t, len, cap. split; [done |]. split; [lia |].
  revert H.
  destruct t; simpl; try discriminate;
    repeat (case_decide; try discriminate);
    unfold bind, GL.GenBuffers, GL.BufferData, ret, throw, scalar_count; simpl;
    intros [= <- <-]; simpl; repeat split; reflexivity.
Qed.

(** C10. When [NewElementArray] succeeds on a slice, the array records the
    capacity of the slice and its length, and uploads [length] elements;
    every later [Update] with a payload of the same element type, longer
    than the slice was but within its capacity, is taken: the length is
    set and the sub-upload issued, without panic. An [AttribArray] that
    was created records as its capacity, and as its length, the number of
    elements it was created with and uploaded, whatever the capacity of
    the slice. *)
Theorem NewElementArray_records_slice_capacity t len cap usage g arr g' :
  ElementArray.NewElementArray (Slice t len cap) usage g = Ret (Ok arr) g' ->
  ElementArray.Cap arr = Z.of_N cap /\
  ElementArray.Len arr = Z.of_N len /\
  GL.trace g' = GL.trace g ++
    [GL.CBufferData (ElementArray.Buf arr)
       (GoInt.mul (Z.of_N len) (scalar_bytes t)) usage] /\
  (forall len' cap' h,
      (len < len')%N -> (len' <= cap)%N ->
      ElementArray.Update (Slice t len' cap') (arr, h)
      = Ret tt (ElementArray.set_Len (Z.of_N len') arr,
                GL.issue (GL.CBufferSubData (ElementArray.Buf arr)
                            (GoInt.mul (Z.of_N len') (scalar_bytes t))) h)) /\
  (forall name dims data usage0 g0 a g0',
      AttribArray.NewAttribArray name dims data usage0 g0 = Ret (Ok a) g0' ->
      exists t0 len0 cap0,
        data = Slice t0 len0 cap0 /\
        AttribArray.Cap a = scalar_count t0 len0 /\
        AttribArray.Len a = scalar_count t0 len0 /\
        GL.trace g0' = GL.trace g0 ++
          [GL.CBufferData (AttribArray.Buf a)
             (GoInt.mul (scalar_count t0 len0) (scalar_bytes t0)) usage0]).
Proof.
  intros H. apply NewElementArray_ok in H as (Hi & Hl & -> & Htr).
  split; [reflexivity |]. split; [reflexivity |]. split; [exact Htr |].
  split.
  - intros len' cap' h Hlt Hle.
    apply ElementArray_Update_within; simpl; try done; lia.
  - intros name dims data usage0 g0 a g0' Hnew.
    destruct (NewAttribArray_created_count _ _ _ _ _ _ _ Hnew)
      as (t0 & len0 & cap0 & Hd & _ & Hlen & Hcap & Htr0).
    by exists t0, len0, cap0.
Qed.

Lemma NewElementArray_records_slice_capacity_witness :
  let arr := ElementArray.mk GL.UNSIGNED_BYTE 1 3 8 in
  let g' := GL.mk 1 {[1 := 3]} [GL.CBufferData 1 3 GL.STATIC_DRAW] in
  ElementArray.NewElementArray (Slice Uint8 3 8) GL.STATIC_DRAW GL.init
  = Ret (Ok arr) g' /\
  ElementArray.Cap arr = 8 /\ ElementArray.Len arr = 3 /\
  ElementArray.Update (Slice Uint8 6 6) (arr, g')
  = Ret tt (ElementArray.set_Len 6 arr,
            GL.issue (GL.CBufferSubData 1 6) g') /\
  exists a h,
    AttribArray.NewAttribArray "pos" 1 (Slice Float32 3 8) GL.STATIC_DRAW g'
    = Ret (Ok a) h /\
    AttribArray.Cap a = 3 /\ AttribArray.Len a = 3.
Proof.
  intros arr g'.
  assert (Hnew : ElementArray.NewElementArray (Slice Uint8 3 8) GL.STATIC_DRAW GL.init
                 = Ret (Ok arr) g') by reflexivity.
  destruct (NewElementArray_records_slice_capacity
              Uint8 3%N 8%N GL.STATIC_DRAW GL.init arr g' Hnew)
    as (Hcap & Hlen & _ & Hupd & Hattr).
  split; [exact Hnew |]. split; [exact Hcap |]. split; [exact Hlen |].
  split; [apply (Hupd 6%N 6%N g'); [reflexivity | discriminate] |].
  destruct (AttribArray.NewAttribArray "pos" 1 (Slice Float32 3 8)
              GL.STATIC_DRAW g') as [[a | e] h | p h |] eqn:Ha;
    try (vm_compute in Ha; discriminate Ha).
  exists a, h. split; [reflexivity |].
  destruct (Hattr "pos" 1 (Slice Float32 3 8) GL.STATIC_DRAW g' a h Ha)
    as (t0 & len0 & cap0 & Hd & Hc & Hl & _).
  injection Hd as <- <- <-. split; [exact Hc | exact Hl].
Defined.

(** ** Meshes *)

Section MeshFacts.

Import Mesh.

(** One channel added to a mesh. *)
Lemma AddArrays_cons_eq arr rest m :
  AddArrays (Some arr :: rest) m
  = let n := GoInt.quot (AttribArray.Len arr) (AttribArray.Dims arr) in
    if decide (AttribArray.Dims arr = 0) then Abort DivideByZero m
    else if decide (Vertices m = -1) then
      AddArrays rest
        (set_Attribs (<[AttribArray.Name arr := arr]> (Attribs m))
                     (set_Vertices n m))
    else if decide (n = Vertices m) then
      AddArrays rest (set_Attribs (<[AttribArray.Name arr := arr]> (Attribs m)) m)
    else Ret (Some (MeshInconsistent (Name m))) m.
Proof.
  cbn [AddArrays].
  unfold AttribArray.Attribs, bind, get, modify, ret, throw. cbv beta iota.
  destruct (decide (Vertices m = -1)); destruct (decide (AttribArray.Dims arr = 0));
    cbv beta iota zeta; try reflexivity.
  repeat case_decide; try reflexivity; congruence.
Qed.

Lemma AddArrays_cons arr rest m :
  AttribArray.Dims arr ≠ 0 ->
  AddArrays (Some arr :: rest) m
  = let n := GoInt.quot (AttribArray.Len arr) (AttribArray.Dims arr) in
    if decide (Vertices m = -1) then
      AddArrays rest
        (set_Attribs (<[AttribArray.Name arr := arr]> (Attribs m))
                     (set_Vertices n m))
    else if decide (n = Vertices m) then
      AddArrays rest (set_Attribs (<[AttribArray.Name arr := arr]> (Attribs m)) m)
    else Ret (Some (MeshInconsistent (Name m))) m.
Proof. intros Hd. rewrite AddArrays_cons_eq. cbv zeta. by rewrite decide_False. Qed.

Lemma AddArrays_app xs ys m :
  AddArrays (xs ++ ys) m
  = match AddArrays xs m with
    | Ret None m' => AddArrays ys m'
    | r => r
    end.
Proof.
  revert m. induction xs as [| [arr |] xs IH]; intros m.
  - simpl. by destruct (AddArrays ys m) as [[e|] ?| |].
  - rewrite <- app_comm_cons, !AddArrays_cons_eq. cbv zeta.
    repeat case_decide; try done; apply IH.
  - apply IH.
Qed.

(** [AddArrays] never renames the mesh. *)
Lemma AddArrays_Name xs m r m' :
  AddArrays xs m = Ret r m' -> Name m' = Name m.
Proof.
  revert m. induction xs as [| [arr |] xs IH]; intros m.
  - by intros [= _ <-].
  - rewrite AddArrays_cons_eq. cbv zeta.
    repeat case_decide; try discriminate;
      try (intros H'; apply IH in H'; exact H');
      by intros [= _ <-].
  - apply IH.
Qed.

(** Channels that are nil leave the mesh as it is. *)
Lemma AddArrays_all_nil xs m :
  Forall (fun o => o = None) xs -> AddArrays xs m = Ret None m.
Proof.
  induction 1 as [| o xs -> _ IH]; [reflexivity | exact IH].
Qed.

(** A vertex count that is set is kept by every call that succeeds. *)
Lemma AddArrays_keeps_count xs m m1 :
  AddArrays xs m = Ret None m1 -> Vertices m ≠ -1 -> Vertices m1 = Vertices m.
Proof.
  revert m. induction xs as [| [arr |] xs IH]; intros m.
  - by intros [= <-].
  - rewrite AddArrays_cons_eq. cbv zeta.
    repeat case_decide; try discriminate; try done.
    intros H' Hv. by rewrite (IH _ H' Hv).
  - apply IH.
Qed.

(** The element-group count of an array with a positive [Dims] and a
    length that a Go [int] holds and that is not negative is not negative:
    it is never the value -1 that marks the vertex count as unset. *)
Lemma Attribs_nonneg arr :
  0 < AttribArray.Dims arr ->
  0 <= AttribArray.Len arr <= GoInt.max_int ->
  0 <= GoInt.quot (AttribArray.Len arr) (AttribArray.Dims arr).
Proof.
  intros Hd [Hl Hmax]. unfold GoInt.quot.
  assert (0 <= AttribArray.Len arr ÷ AttribArray.Dims arr <= AttribArray.Len arr).
  { split; [apply Z.quot_pos; lia |].
    rewrite Z.quot_div_nonneg by lia.
    apply Z.div_le_upper_bound; nia. }
  rewrite int_in_range; [lia |].
  unfold GoInt.in_range, GoInt.min_int, GoInt.max_int in *. lia.
Qed.

(** So, for such arrays, once a successful call has added a channel to a
    mesh whose vertex count was unset, the count is set: the channel that
    meets an unset count is the first one added. *)
Lemma AddArrays_sets_count xs m m1 :
  AddArrays xs m = Ret None m1 ->
  Vertices m = -1 ->
  Forall (fun o => forall arr, o = Some arr ->
                     0 < AttribArray.Dims arr /\
                     0 <= AttribArray.Len arr <= GoInt.max_int) xs ->
  Exists (fun o => o ≠ None) xs ->
  0 <= Vertices m1.
Proof.
  revert m. induction xs as [| [arr |] xs IH]; intros m Hadd Hv Hwf Hex.
  - inversion Hex.
  - inversion Hwf as [| ? ? Harr Hwf']; subst.
    destruct (Harr arr eq_refl) as [Hd Hl].
    rewrite AddArrays_cons in Hadd by lia. cbv zeta in Hadd.
    rewrite decide_True in Hadd by done.
    apply AddArrays_keeps_count in Hadd as ->; simpl.
    + by apply Attribs_nonneg.
    + pose proof (Attribs_nonneg arr Hd Hl). lia.
  - inversion Hwf; subst. inversion Hex as [? ? Hne | ? ? Hex']; subst; [done |].
    by apply (IH m).
Qed.

End MeshFacts.

(** The three cases of [AddArrays]. In a call, take a channel that is not
    nil and whose [Dims] is not zero, reached after the channels before it
    were added without error, leaving the mesh [m1].
    - If the vertex count of [m1] is unset (-1), the channel sets it to its
      element-group count and is registered under its name.
    - If it is set and equal to the channel's count, the channel is
      registered under its name, replacing a channel of that name, and the
      vertex count is left as it was.
    - If it is set and differs, the call returns the inconsistency error
      that names the mesh, and the mesh is left as [m1]: vertex count and
      registered channels as before the channel. *)
Theorem AddArrays_vertex_count
    (pre post : list (option AttribArray.t)) (arr : AttribArray.t)
    (m m1 : Mesh.t) :
  Mesh.AddArrays pre m = Ret None m1 ->
  AttribArray.Dims arr ≠ 0 ->
  let n := GoInt.quot (AttribArray.Len arr) (AttribArray.Dims arr) in
  let add m := Mesh.set_Attribs (<[AttribArray.Name arr := arr]> (Mesh.Attribs m)) m in
  (Mesh.Vertices m1 = -1 ->
   Mesh.AddArrays (pre ++ Some arr :: post) m
   = Mesh.AddArrays post (add (Mesh.set_Vertices n m1)) /\
   Mesh.Vertices (add (Mesh.set_Vertices n m1)) = n /\
   Mesh.Attribs (add (Mesh.set_Vertices n m1)) !! AttribArray.Name arr = Some arr) /\
  (Mesh.Vertices m1 ≠ -1 -> n = Mesh.Vertices m1 ->
   Mesh.AddArrays (pre ++ Some arr :: post) m = Mesh.AddArrays post (add m1) /\
   Mesh.Vertices (add m1) = Mesh.Vertices m1 /\
   Mesh.Attribs (add m1) !! AttribArray.Name arr = Some arr /\
   (forall other, other ≠ AttribArray.Name arr ->
                  Mesh.Attribs (add m1) !! other = Mesh.Attribs m1 !! other)) /\
  (Mesh.Vertices m1 ≠ -1 -> n ≠ Mesh.Vertices m1 ->
   Mesh.AddArrays (pre ++ Some arr :: post) m
   = Ret (Some (MeshInconsistent (Mesh.Name m))) m1).
Proof.
  intros Hpre Hd n add.
  assert (Hname := AddArrays_Name _ _ _ _ Hpre).
  rewrite AddArrays_app, Hpre, AddArrays_cons by done. fold n.
  split; [| split].
  - intros Hv. rewrite decide_True by done.
    repeat split. simpl. apply lookup_insert_eq.
  - intros Hv Hn. rewrite decide_False, decide_True by done.
    repeat split; simpl.
    + apply lookup_insert_eq.
    + intros other Ho. by apply lookup_insert_ne.
  - intros Hv Hn. rewrite !decide_False by done. by rewrite Hname.
Qed.

Lemma AddArrays_vertex_count_witness :
  let a := AttribArray.mk "pos" 2 GL.FLOAT 1 8 8 in
  let b := AttribArray.mk "color" 4 GL.FLOAT 2 16 16 in
  let c := AttribArray.mk "normal" 3 GL.FLOAT 3 9 9 in
  exists m1,
    Mesh.AddArrays [Some a; Some b] (Mesh.NewMesh "quad") = Ret None m1 /\
    Mesh.Vertices m1 = 4 /\
    Mesh.AddArrays [Some a; Some b; Some c] (Mesh.NewMesh "quad")
    = Ret (Some (MeshInconsistent "quad")) m1.
Proof.
  intros a b c. eexists.
  assert (Hpre : Mesh.AddArrays [Some a; Some b] (Mesh.NewMesh "quad")
                 = Ret None
                     (Mesh.mk "quad" (<["color" := b]> (<["pos" := a]> ∅)) None 0 0 4))
    by reflexivity.
  split; [exact Hpre |]. split; [reflexivity |].
  apply (proj2 (proj2 (AddArrays_vertex_count
                         [Some a; Some b] [] c (Mesh.NewMesh "quad") _ Hpre
                         ltac:(discriminate)))).
  - discriminate.
  - vm_compute. discriminate.
Defined.

(** C7: the code registers a channel whose count differs. [NewAttribArray]
    takes the dimension -1: one [float32] then makes an array of
    element-group count 1 / -1 = -1, the value by which a mesh marks its
    vertex count as unset. Added first, that array leaves the count at -1;
    the colors added after it, two groups of four, meet the test for an
    unset count, are registered and set the count to 2, and no error is
    returned. [MakeMesh] with [dims = -1] builds such a mesh. With one
    position of dimension 1, of count 1, the same colors are refused. *)
Theorem AddArrays_takes_mismatch_after_count_minus_one :
  let pos := AttribArray.mk "pos" (-1) GL.FLOAT 1 1 1 in
  let col := AttribArray.mk "color" 4 GL.FLOAT 2 8 8 in
  let one := AttribArray.mk "pos" 1 GL.FLOAT 1 1 1 in
  let g1 := GL.mk 1 {[1 := 4]} [GL.CBufferData 1 4 GL.STATIC_DRAW] in
  let g2 := GL.mk 2 {[1 := 4; 2 := 32]}
              [GL.CBufferData 1 4 GL.STATIC_DRAW;
               GL.CBufferData 2 32 GL.STATIC_DRAW] in
  let m1 := Mesh.mk "mesh" {["pos" := pos]} None 0 0 (-1) in
  let m2 := Mesh.mk "mesh" {["pos" := pos; "color" := col]} None 0 0 2 in
  AttribArray.NewAttribArray "pos" (-1) (Slice Float32 1 1) GL.STATIC_DRAW GL.init
  = Ret (Ok pos) g1 /\
  AttribArray.NewAttribArray "color" 4 (Slice Float32 8 8) GL.STATIC_DRAW g1
  = Ret (Ok col) g2 /\
  AttribArray.Attribs pos tt = Ret (-1) tt /\
  AttribArray.Attribs col tt = Ret 2 tt /\
  Mesh.AddArrays [Some pos] (Mesh.NewMesh "mesh") = Ret None m1 /\
  Mesh.AddArrays [Some col] m1 = Ret None m2 /\
  Mesh.AddArrays [Some pos; Some col] (Mesh.NewMesh "mesh") = Ret None m2 /\
  (exists m g,
     MeshUtil.MakeMesh "mesh" (-1) GL.TRIANGLES (Slice Float32 1 1)
       (Slice Float32 8 8) Nil [] (Slice Uint8 3 3) GL.init = Ret (Ok m) g /\
     Mesh.Vertices m = 2 /\
     Mesh.Attribs m !! "pos" = Some pos /\
     Mesh.Attribs m !! "color" = Some col) /\
  Mesh.AddArrays [Some one; Some col] (Mesh.NewMesh "mesh")
  = Ret (Some (MeshInconsistent "mesh"))
        (Mesh.mk "mesh" {["pos" := one]} None 0 0 1).
Proof.
  intros pos col one g1 g2 m1 m2.
  split; [vm_compute; reflexivity |].
  split; [vm_compute; reflexivity |].
  split; [vm_compute; reflexivity |].
  split; [vm_compute; reflexivity |].
  split; [vm_compute; reflexivity |].
  split; [vm_compute; reflexivity |].
  split; [vm_compute; reflexivity |].
  split; [| vm_compute; reflexivity].
  eexists _, _. split; [vm_compute; reflexivity |].
  split; [vm_compute; reflexivity |].
  split; vm_compute; reflexivity.
Qed.

(** ** The manager *)

Section ManagerFacts.

Import Manager.

Lemma GetMaterial_chain fuel am name w :
  GetMaterial fuel am name w
  = lookup_chain (fun m => Materials m !! name) None fuel am w.
Proof.
  revert am. induction fuel as [| fuel IH]; intros am; [reflexivity |].
  simpl. unfold bind, deref, ret. simpl.
  destruct (managers w !! am) as [mgr |]; [| reflexivity].
  destruct (Materials mgr !! name); [reflexivity |].
  destruct (Parent mgr); [apply IH | reflexivity].
Qed.

Lemma GetShader_chain fuel am name w :
  GetShader fuel am name w
  = lookup_chain (fun m => Shaders m !! name) 0 fuel am w.
Proof.
  revert am. induction fuel as [| fuel IH]; intros am; [reflexivity |].
  simpl. unfold bind, deref, ret. simpl.
  destruct (managers w !! am) as [mgr |]; [| reflexivity].
  destruct (Shaders mgr !! name); [reflexivity |].
  destruct (Parent mgr); [apply IH | reflexivity].
Qed.

Lemma GetProgram_chain fuel am set w :
  GetProgram fuel am set w
  = lookup_chain (fun m => Programs m !! set) 0 fuel am w.
Proof.
  revert am. induction fuel as [| fuel IH]; intros am; [reflexivity |].
  simpl. unfold bind, deref, ret. simpl.
  destruct (managers w !! am) as [mgr |]; [| reflexivity].
  destruct (Programs mgr !! set); [reflexivity |].
  destruct (Parent mgr); [apply IH | reflexivity].
Qed.

Context {V : Type} (local : t -> option V) (zero : V).

(** A lookup does not write. *)
Lemma lookup_chain_state fuel am w r w' :
  lookup_chain local zero fuel am w = Ret r w' -> w' = w.
Proof.
  revert am. induction fuel as [| fuel IH]; intros am; [discriminate |].
  simpl. destruct (managers w !! am) as [mgr |]; [| discriminate].
  destruct (local mgr); [by intros [= _ <-] |].
  destruct (Parent mgr); [apply IH | by intros [= _ <-]].
Qed.

(** A lookup that returns started at a manager that exists. *)
Lemma lookup_chain_manager fuel am w r w' :
  lookup_chain local zero fuel am w = Ret r w' -> is_Some (managers w !! am).
Proof.
  destruct fuel; [discriminate |]. simpl.
  destruct (managers w !! am); [eauto | discriminate].
Qed.

(** An entry of the manager's own map is found first. *)
Lemma lookup_chain_local fuel am w mgr v :
  managers w !! am = Some mgr -> local mgr = Some v ->
  lookup_chain local zero (S fuel) am w = Ret (v, true) w.
Proof. intros Hm Hl. simpl. by rewrite Hm, Hl. Qed.

(** A miss in the manager's own map hands over to the parent. *)
Lemma lookup_chain_parent fuel am w mgr parent :
  managers w !! am = Some mgr -> local mgr = None ->
  Parent mgr = Some parent ->
  lookup_chain local zero (S fuel) am w = lookup_chain local zero fuel parent w.
Proof. intros Hm Hl Hp. simpl. by rewrite Hm, Hl, Hp. Qed.

(** More fuel does not change what a lookup returns. *)
Lemma lookup_chain_more fuel k am w r w' :
  lookup_chain local zero fuel am w = Ret r w' ->
  lookup_chain local zero (fuel + k) am w = Ret r w'.
Proof.
  revert am. induction fuel as [| fuel IH]; intros am; [discriminate |].
  simpl. destruct (managers w !! am) as [mgr |]; [| discriminate].
  destruct (local mgr); [done |].
  destruct (Parent mgr); [apply IH | done].
Qed.

(** When the parent pointers of a store lead to existing managers of
    smaller rank, as they do when every manager is made by [NewManager]
    after its parent, every lookup returns; the rank of the manager it
    starts at, plus one, is fuel enough. *)
Lemma lookup_chain_total (rank : loc -> nat) w :
  (forall a mgr p,
      managers w !! a = Some mgr -> Parent mgr = Some p ->
      is_Some (managers w !! p) /\ (rank p < rank a)%nat) ->
  forall n am,
    (rank am <= n)%nat -> is_Some (managers w !! am) ->
    exists r, lookup_chain local zero (S n) am w = Ret r w.
Proof.
  intros Hwf. induction n as [| n IH]; intros am Hr [mgr Hm]; simpl; rewrite Hm.
  - destruct (local mgr); [eauto |].
    destruct (Parent mgr) as [p |] eqn:Hp; [| eauto].
    destruct (Hwf _ _ _ Hm Hp) as [_ Hlt]. lia.
  - destruct (local mgr); [eauto |].
    destruct (Parent mgr) as [p |] eqn:Hp; [| eauto].
    destruct (Hwf _ _ _ Hm Hp) as [Hsome Hlt].
    apply IH; [lia | exact Hsome].
Qed.

(** A lookup gives the same in a world with the same view. *)
Lemma lookup_chain_same w w' :
  same_view local w w' ->
  forall fuel am r,
    lookup_chain local zero fuel am w = Ret r w ->
    lookup_chain local zero fuel am w' = Ret r w'.
Proof.
  intros Hsame. induction fuel as [| fuel IH]; intros am r; [discriminate |].
  simpl. specialize (Hsame am) as Ha.
  destruct (managers w !! am) as [mgr |], (managers w' !! am) as [mgr' |];
    try done.
  destruct Ha as [<- <-].
  destruct (local mgr); [by intros [= <-] |].
  destruct (Parent mgr); [apply IH | by intros [= <-]].
Qed.

End ManagerFacts.

Section ManagerRegistration.

Import Manager.

Lemma AddMaterial_eq am m w mgr mat :
  managers w !! am = Some mgr -> materials w !! m = Some mat ->
  AddMaterial am (Some m) w
  = match Materials mgr !! Material.Name mat with
    | Some _ => Ret (Some (MaterialExists (Material.Name mat))) w
    | None =>
        Ret None
            (set_managers
               (<[am := set_Materials (<[Material.Name mat := Some m]> (Materials mgr)) mgr]>
                  (managers w)) w)
    end.
Proof.
  intros Hm Hmat. unfold AddMaterial, bind, deref, store_manager, modify, ret.
  simpl. rewrite Hmat, Hm. by destruct (Materials mgr !! Material.Name mat).
Qed.

Lemma AddMesh_eq am m w mgr mesh :
  managers w !! am = Some mgr -> meshes w !! m = Some mesh ->
  AddMesh am (Some m) w
  = match Meshes mgr !! Mesh.Name mesh with
    | Some _ => Ret (Some (MeshExists (Mesh.Name mesh))) w
    | None =>
        Ret None
            (set_managers
               (<[am := set_Meshes (<[Mesh.Name mesh := Some m]> (Meshes mgr)) mgr]>
                  (managers w)) w)
    end.
Proof.
  intros Hm Hmesh. unfold AddMesh, bind, deref, store_manager, modify, ret.
  simpl. rewrite Hmesh, Hm. by destruct (Meshes mgr !! Mesh.Name mesh).
Qed.

Lemma AddTexture_eq am p w mgr tex :
  managers w !! am = Some mgr -> textures w !! p = Some tex ->
  AddTexture am (Some p) w
  = match Textures mgr !! Texture.Name tex with
    | Some _ => Ret (Some (TextureExists (Texture.Name tex))) w
    | None =>
        Ret None
            (set_managers
               (<[am := set_Textures (<[Texture.Name tex := Some p]> (Textures mgr)) mgr]>
                  (managers w)) w)
    end.
Proof.
  intros Hm Htex. unfold AddTexture, bind, deref, store_manager, modify, ret.
  simpl. rewrite Htex, Hm. by destruct (Textures mgr !! Texture.Name tex).
Qed.

(** [AddShader] follows what [GetShader] answers. *)
Lemma AddShader_eq fuel am name shader w v found mgr :
  managers w !! am = Some mgr ->
  GetShader fuel am name w = Ret (v, found) w ->
  AddShader fuel am name shader w
  = if found then Ret (Some (ShaderExists name)) w
    else Ret None
           (set_managers
              (<[am := set_Shaders (<[name := shader]> (Shaders mgr)) mgr]>
                 (managers w)) w).
Proof.
  intros Hm Hget. unfold AddShader, bind. rewrite Hget. simpl.
  destruct found; [reflexivity |].
  unfold deref, store_manager, modify, ret. simpl. by rewrite Hm.
Qed.

Lemma AddProgram_eq fuel am set prog w v found mgr :
  managers w !! am = Some mgr ->
  GetProgram fuel am set w = Ret (v, found) w ->
  AddProgram fuel am set prog w
  = if found then Ret (Some (ProgramExists (Vs set) (Fs set) (Gs set))) w
    else Ret None
           (set_managers
              (<[am := set_Programs (<[set := prog]> (Programs mgr)) mgr]>
                 (managers w)) w).
Proof.
  intros Hm Hget. unfold AddProgram, bind. rewrite Hget. simpl.
  destruct found; [reflexivity |].
  unfold deref, store_manager, modify, ret. simpl. by rewrite Hm.
Qed.

End ManagerRegistration.

(** C8. A child manager whose parent holds a material under a name the
    child's own map lacks: [GetMaterial] on the child returns the parent's
    pointer with [true]. Once the child adds a material of its own under
    that name, [GetMaterial] on the child returns the child's pointer, the
    parent manager is what it was, and [GetMaterial] on the parent still
    returns the parent's pointer. *)
Theorem GetMaterial_shadowing w child parent cmgr pmgr name pm :
  Manager.managers w !! child = Some cmgr ->
  Manager.Parent cmgr = Some parent ->
  Manager.managers w !! parent = Some pmgr ->
  Manager.Materials pmgr !! name = Some pm ->
  Manager.Materials cmgr !! name = None ->
  (forall fuel,
      Manager.GetMaterial (S (S fuel)) child name w = Ret (pm, true) w) /\
  (forall cm mat,
      Manager.materials w !! cm = Some mat -> Material.Name mat = name ->
      exists w',
        Manager.AddMaterial child (Some cm) w = Ret None w' /\
        (forall fuel,
            Manager.GetMaterial (S fuel) child name w' = Ret (Some cm, true) w') /\
        Manager.managers w' !! parent = Some pmgr /\
        (forall fuel,
            Manager.GetMaterial (S fuel) parent name w' = Ret (pm, true) w')).
Proof.
  intros Hc Hpar Hp Hpm Hcm.
  assert (Hne : child ≠ parent) by (intros ->; congruence).
  split.
  - intros fuel. rewrite GetMaterial_chain.
    rewrite (lookup_chain_parent _ _ _ _ _ _ _ Hc Hcm Hpar).
    by apply (lookup_chain_local _ _ _ _ _ pmgr).
  - intros cm mat Hmat <-.
    eexists. split; [| split; [| split]].
    + rewrite (AddMaterial_eq _ _ _ _ _ Hc Hmat), Hcm. reflexivity.
    + intros fuel. rewrite GetMaterial_chain.
      eapply lookup_chain_local; simpl; [apply lookup_insert_eq |].
      simpl. apply lookup_insert_eq.
    + simpl. by rewrite lookup_insert_ne.
    + intros fuel. rewrite GetMaterial_chain.
      eapply lookup_chain_local; simpl; [by rewrite lookup_insert_ne |].
      exact Hpm.
Qed.

Lemma GetMaterial_shadowing_witness :
  let pmgr := Manager.mk {["M" := Some 10%positive]} ∅ ∅ ∅ ∅ None in
  let cmgr := Manager.mk ∅ ∅ ∅ ∅ ∅ (Some 1%positive) in
  let w := Manager.mkWorld
             {[1%positive := pmgr; 2%positive := cmgr]}
             {[10%positive := Material.NewMaterial "M";
               11%positive := Material.NewMaterial "M"]}
             ∅ ∅ GL.init in
  Manager.GetMaterial 2 2%positive "M" w = Ret (Some 10%positive, true) w /\
  exists w',
    Manager.AddMaterial 2%positive (Some 11%positive) w = Ret None w' /\
    Manager.GetMaterial 1 2%positive "M" w' = Ret (Some 11%positive, true) w' /\
    Manager.managers w' !! 1%positive = Some pmgr /\
    Manager.GetMaterial 1 1%positive "M" w' = Ret (Some 10%positive, true) w'.
Proof.
  intros pmgr cmgr w.
  destruct (GetMaterial_shadowing w 2%positive 1%positive cmgr pmgr "M"
              (Some 10%positive)
              eq_refl eq_refl eq_refl eq_refl eq_refl) as [Hget Hadd].
  split; [apply (Hget 0%nat) |].
  destruct (Hadd 11%positive (Material.NewMaterial "M") eq_refl eq_refl)
    as (w' & H1 & H2 & H3 & H4).
  exists w'. repeat split; [exact H1 | apply (H2 0%nat) | exact H3 | apply (H4 0%nat)].
Defined.

(** C3, as the specification states it, fails on the code for shaders: a
    child whose own map is empty cannot add a shader under a name that its
    parent holds. *)
Lemma AddShader_parent_name_counterexample :
  let pmgr := Manager.mk ∅ ∅ {["basic.vert" := 5]} ∅ ∅ None in
  let cmgr := Manager.mk ∅ ∅ ∅ ∅ ∅ (Some 1%positive) in
  let w := Manager.mkWorld {[1%positive := pmgr; 2%positive := cmgr]}
                           ∅ ∅ ∅ GL.init in
  Manager.managers w !! 2%positive = Some cmgr /\
  Manager.Shaders cmgr !! "basic.vert" = None /\
  Manager.AddShader 2 2%positive "basic.vert" 9 w
  = Ret (Some (ShaderExists "basic.vert")) w.
Proof. repeat split. Qed.

(** C3, amended. For materials, meshes and textures, [Add] returns the
    already-exists error exactly when the manager's own map holds the name,
    and registers the pointer otherwise, whatever the parent holds. For
    shaders and programs, [AddShader] and [AddProgram] return the error
    exactly when [GetShader] and [GetProgram] find the name or stage set,
    in the manager's own map or up the parent chain, and register
    otherwise; a name in the manager's own map is always found. *)
Theorem Add_already_exists :
  (forall w am mgr m mat,
      Manager.managers w !! am = Some mgr ->
      Manager.materials w !! m = Some mat ->
      (is_Some (Manager.Materials mgr !! Material.Name mat) ->
       Manager.AddMaterial am (Some m) w
       = Ret (Some (MaterialExists (Material.Name mat))) w) /\
      (Manager.Materials mgr !! Material.Name mat = None ->
       Manager.AddMaterial am (Some m) w
       = Ret None
           (Manager.set_managers
              (<[am := Manager.set_Materials
                         (<[Material.Name mat := Some m]> (Manager.Materials mgr)) mgr]>
                 (Manager.managers w)) w))) /\
  (forall w am mgr m mesh,
      Manager.managers w !! am = Some mgr ->
      Manager.meshes w !! m = Some mesh ->
      (is_Some (Manager.Meshes mgr !! Mesh.Name mesh) ->
       Manager.AddMesh am (Some m) w
       = Ret (Some (MeshExists (Mesh.Name mesh))) w) /\
      (Manager.Meshes mgr !! Mesh.Name mesh = None ->
       Manager.AddMesh am (Some m) w
       = Ret None
           (Manager.set_managers
              (<[am := Manager.set_Meshes
                         (<[Mesh.Name mesh := Some m]> (Manager.Meshes mgr)) mgr]>
                 (Manager.managers w)) w))) /\
  (forall w am mgr p tex,
      Manager.managers w !! am = Some mgr ->
      Manager.textures w !! p = Some tex ->
      (is_Some (Manager.Textures mgr !! Texture.Name tex) ->
       Manager.AddTexture am (Some p) w
       = Ret (Some (TextureExists (Texture.Name tex))) w) /\
      (Manager.Textures mgr !! Texture.Name tex = None ->
       Manager.AddTexture am (Some p) w
       = Ret None
           (Manager.set_managers
              (<[am := Manager.set_Textures
                         (<[Texture.Name tex := Some p]> (Manager.Textures mgr)) mgr]>
                 (Manager.managers w)) w))) /\
  (forall fuel w am mgr name shader v found,
      Manager.managers w !! am = Some mgr ->
      Manager.GetShader fuel am name w = Ret (v, found) w ->
      (found = true ->
       Manager.AddShader fuel am name shader w
       = Ret (Some (ShaderExists name)) w) /\
      (found = false ->
       Manager.AddShader fuel am name shader w
       = Ret None
           (Manager.set_managers
              (<[am := Manager.set_Shaders
                         (<[name := shader]> (Manager.Shaders mgr)) mgr]>
                 (Manager.managers w)) w)) /\
      (is_Some (Manager.Shaders mgr !! name) -> found = true)) /\
  (forall fuel w am mgr set prog v found,
      Manager.managers w !! am = Some mgr ->
      Manager.GetProgram fuel am set w = Ret (v, found) w ->
      (found = true ->
       Manager.AddProgram fuel am set prog w
       = Ret (Some (ProgramExists (Manager.Vs set) (Manager.Fs set) (Manager.Gs set))) w) /\
      (found = false ->
       Manager.AddProgram fuel am set prog w
       = Ret None
           (Manager.set_managers
              (<[am := Manager.set_Programs
                         (<[set := prog]> (Manager.Programs mgr)) mgr]>
                 (Manager.managers w)) w)) /\
      (is_Some (Manager.Programs mgr !! set) -> found = true)).
Proof.
  repeat apply conj.
  - intros w am mgr m mat Hm Hmat.
    rewrite (AddMaterial_eq _ _ _ _ _ Hm Hmat).
    split; [intros [x ->] | intros ->]; reflexivity.
  - intros w am mgr m mesh Hm Hmesh.
    rewrite (AddMesh_eq _ _ _ _ _ Hm Hmesh).
    split; [intros [x ->] | intros ->]; reflexivity.
  - intros w am mgr p tex Hm Htex.
    rewrite (AddTexture_eq _ _ _ _ _ Hm Htex).
    split; [intros [x ->] | intros ->]; reflexivity.
  - intros fuel w am mgr name shader v found Hm Hget.
    rewrite (AddShader_eq _ _ _ shader _ _ _ _ Hm Hget).
    repeat split; try (intros ->; reflexivity).
    intros [s Hs]. rewrite GetShader_chain in Hget.
    destruct fuel; [discriminate |].
    rewrite (lookup_chain_local _ _ _ _ _ _ _ Hm Hs) in Hget. congruence.
  - intros fuel w am mgr set prog v found Hm Hget.
    rewrite (AddProgram_eq _ _ _ prog _ _ _ _ Hm Hget).
    repeat split; try (intros ->; reflexivity).
    intros [s Hs]. rewrite GetProgram_chain in Hget.
    destruct fuel; [discriminate |].
    rewrite (lookup_chain_local _ _ _ _ _ _ _ Hm Hs) in Hget. congruence.
Qed.

Lemma Add_already_exists_witness :
  let pmgr := Manager.mk {["M" := Some 10%positive]} ∅ {["basic.vert" := 5]} ∅ ∅ None in
  let cmgr := Manager.mk ∅ ∅ ∅ ∅ ∅ (Some 1%positive) in
  let w := Manager.mkWorld
             {[1%positive := pmgr; 2%positive := cmgr]}
             {[10%positive := Material.NewMaterial "M";
               11%positive := Material.NewMaterial "M"]}
             ∅ ∅ GL.init in
  Manager.AddMaterial 1%positive (Some 11%positive) w
  = Ret (Some (MaterialExists "M")) w /\
  Manager.AddMaterial 2%positive (Some 11%positive) w
  = Ret None
      (Manager.set_managers
         (<[2%positive := Manager.set_Materials {["M" := Some 11%positive]} cmgr]>
            (Manager.managers w)) w) /\
  Manager.AddShader 2 2%positive "basic.vert" 9 w
  = Ret (Some (ShaderExists "basic.vert")) w /\
  Manager.AddShader 2 2%positive "basic.frag" 9 w
  = Ret None
      (Manager.set_managers
         (<[2%positive := Manager.set_Shaders {["basic.frag" := 9]} cmgr]>
            (Manager.managers w)) w).
Proof.
  intros pmgr cmgr w.
  destruct Add_already_exists as (Hmat & _ & _ & Hsh & _).
  split; [| split; [| split]].
  - apply (proj1 (Hmat w 1%positive pmgr 11%positive
                    (Material.NewMaterial "M") eq_refl eq_refl)).
    exists (Some 10%positive). reflexivity.
  - apply (proj2 (Hmat w 2%positive cmgr 11%positive
                    (Material.NewMaterial "M") eq_refl eq_refl)).
    reflexivity.
  - apply (proj1 (Hsh 2%nat w 2%positive cmgr "basic.vert" 9 5 true
                    eq_refl eq_refl)).
    reflexivity.
  - apply (proj1 (proj2 (Hsh 2%nat w 2%positive cmgr "basic.frag" 9 0 false
                           eq_refl eq_refl))).
    reflexivity.
Defined.

(** *** Loading shaders and programs *)

Section SameView.

Import Manager.
Context {V : Type} (local : t -> option V).

Lemma same_view_driver w g : same_view local w (set_driver g w).
Proof. intros a. simpl. by destruct (managers w !! a). Qed.

(** Replacing a manager by one with the same parent and the same entry
    under [local] keeps the view. *)
Lemma same_view_store w am mgr mgr' :
  managers w !! am = Some mgr ->
  local mgr = local mgr' -> Parent mgr = Parent mgr' ->
  same_view local w (set_managers (<[am := mgr']> (managers w)) w).
Proof.
  intros Hm Hl Hp a. simpl.
  destruct (decide (a = am)) as [-> | Hne].
  - by rewrite lookup_insert_eq, Hm.
  - rewrite lookup_insert_ne by done. by destruct (managers w !! a).
Qed.

Lemma same_view_trans w1 w2 w3 :
  same_view local w1 w2 -> same_view local w2 w3 -> same_view local w1 w3.
Proof.
  intros H12 H23 a. specialize (H12 a). specialize (H23 a).
  destruct (managers w1 !! a), (managers w2 !! a), (managers w3 !! a);
    try done.
  destruct H12 as [-> ->]. exact H23.
Qed.

End SameView.

Section Loading.

Import Manager.

Variable read_file : string -> option string.
Variable shader_log : GL.state -> Z -> string -> string.
Variable program_log : GL.state -> Z -> Z -> Z -> string.

Abbreviation LoadShader := (LoadShader read_file shader_log).
Abbreviation LoadProgram_link := (LoadProgram_link program_log).
Abbreviation LoadProgram := (LoadProgram read_file shader_log program_log).

Lemma GetShader_state fuel am name w r w' :
  GetShader fuel am name w = Ret r w' -> w' = w.
Proof. rewrite GetShader_chain. apply lookup_chain_state. Qed.

Lemma GetProgram_state fuel am set w r w' :
  GetProgram fuel am set w = Ret r w' -> w' = w.
Proof. rewrite GetProgram_chain. apply lookup_chain_state. Qed.

Lemma GetShader_same n w w' fuel am r :
  same_view (fun m => Shaders m !! n) w w' ->
  GetShader fuel am n w = Ret r w -> GetShader fuel am n w' = Ret r w'.
Proof. rewrite !GetShader_chain. intros H. by apply lookup_chain_same. Qed.

Lemma GetProgram_same set w w' fuel am r :
  same_view (fun m => Programs m !! set) w w' ->
  GetProgram fuel am set w = Ret r w -> GetProgram fuel am set w' = Ret r w'.
Proof. rewrite !GetProgram_chain. intros H. by apply lookup_chain_same. Qed.

(** A shader that is found is returned as it is: nothing is read,
    compiled or registered. *)
Lemma LoadShader_found fuel am typ name w s :
  GetShader fuel am name w = Ret (s, true) w ->
  LoadShader fuel am typ name w = Ret (Ok s) w.
Proof. intros H. unfold Manager.LoadShader, bind. by rewrite H. Qed.

(** After a successful [LoadShader] the shader is found under its name,
    and every shader that was found before still is. *)
Lemma LoadShader_post fuel am typ name w s w1 :
  LoadShader fuel am typ name w = Ret (Ok s) w1 ->
  GetShader fuel am name w1 = Ret (s, true) w1 /\
  (forall n v, GetShader fuel am n w = Ret (v, true) w ->
               GetShader fuel am n w1 = Ret (v, true) w1).
Proof.
  unfold Manager.LoadShader, bind.
  destruct (GetShader fuel am name w) as [[v found] w' | |] eqn:Hget;
    try discriminate.
  assert (w' = w) as -> by (by eapply GetShader_state).
  destruct found; simpl.
  { intros [= <- <-]. by split. }
  unfold gl.
  destruct (newShader read_file shader_log _ typ (driver w))
    as [[s' | e] g' | |]; try discriminate.
  assert (Hm : is_Some (managers w !! am)).
  { rewrite GetShader_chain in Hget. by eapply lookup_chain_manager. }
  destruct Hm as [mgr Hm].
  assert (Hget' : GetShader fuel am name (set_driver g' w)
                  = Ret (v, false) (set_driver g' w)).
  { eapply GetShader_same; [apply same_view_driver | exact Hget]. }
  rewrite (AddShader_eq fuel am name s' (set_driver g' w) v false mgr Hm Hget').
  unfold ret. intros [= <- <-]. split.
  - destruct fuel; [discriminate |]. rewrite GetShader_chain.
    eapply lookup_chain_local; simpl; [apply lookup_insert_eq |].
    simpl. apply lookup_insert_eq.
  - intros n v' Hn.
    assert (n ≠ name) by (intros ->; congruence).
    eapply GetShader_same; [| exact Hn].
    eapply same_view_trans; [apply (same_view_driver _ w g') |].
    apply (same_view_store _ (set_driver g' w) _ mgr); [exact Hm | | reflexivity].
    simpl. by rewrite lookup_insert_ne.
Qed.

(** A program that is found is returned as it is: nothing is linked. *)
Lemma LoadProgram_link_found fuel am set w p :
  GetProgram fuel am set w = Ret (p, true) w ->
  LoadProgram_link fuel am set w = Ret (Ok p) w.
Proof. intros H. unfold Manager.LoadProgram_link, bind. by rewrite H. Qed.

(** After a successful link step the program is found under its stage
    set, and every shader that was found before still is. *)
Lemma LoadProgram_link_post fuel am set w p w1 :
  LoadProgram_link fuel am set w = Ret (Ok p) w1 ->
  GetProgram fuel am set w1 = Ret (p, true) w1 /\
  (forall n v, GetShader fuel am n w = Ret (v, true) w ->
               GetShader fuel am n w1 = Ret (v, true) w1).
Proof.
  unfold Manager.LoadProgram_link, bind.
  destruct (GetProgram fuel am set w) as [[v found] w' | |] eqn:Hget;
    try discriminate.
  assert (w' = w) as -> by (by eapply GetProgram_state).
  destruct found; simpl.
  { intros [= <- <-]. by split. }
  unfold gl, GL.GenName, GL.Issue, get. simpl.
  case_decide; [discriminate |].
  assert (Hm : is_Some (managers w !! am)).
  { rewrite GetProgram_chain in Hget. by eapply lookup_chain_manager. }
  destruct Hm as [mgr Hm].
  match goal with
  | |- context [AddProgram fuel am set ?prog ?w2] =>
      assert (Hget' : GetProgram fuel am set w2 = Ret (v, false) w2);
      [ eapply GetProgram_same; [| exact Hget]; intros a; simpl;
        by destruct (managers w !! a)
      | rewrite (AddProgram_eq fuel am set prog w2 v false mgr Hm Hget') ]
  end.
  unfold ret. intros [= <- <-]. split.
  - destruct fuel; [discriminate |]. rewrite GetProgram_chain.
    eapply lookup_chain_local; simpl; [apply lookup_insert_eq |].
    simpl. apply lookup_insert_eq.
  - intros n v' Hn.
    eapply GetShader_same; [| exact Hn].
    intros a. simpl.
    destruct (decide (a = am)) as [-> | Hne].
    + by rewrite lookup_insert_eq, Hm.
    + rewrite lookup_insert_ne by done. by destruct (managers w !! a).
Qed.

(** After a successful [LoadProgram] every stage it resolved is found
    under its file name, and the program under the stage set. *)
Lemma LoadProgram_post fuel am vfile ffile gfile w p w1 :
  LoadProgram fuel am vfile ffile gfile w = Ret (Ok p) w1 ->
  exists vs fs gs,
    GetShader fuel am vfile w1 = Ret (vs, true) w1 /\
    GetShader fuel am ffile w1 = Ret (fs, true) w1 /\
    (if decide (Z.of_nat (String.length gfile) > 0)
     then GetShader fuel am gfile w1 = Ret (gs, true) w1
     else gs = 0) /\
    GetProgram fuel am (mkSet vs fs gs) w1 = Ret (p, true) w1.
Proof.
  unfold Manager.LoadProgram, bind.
  destruct (LoadShader fuel am GL.VERTEX_SHADER vfile w)
    as [[vs | e] wa | |] eqn:Hv; try discriminate.
  destruct (LoadShader fuel am GL.FRAGMENT_SHADER ffile wa)
    as [[fs | e] wb | |] eqn:Hf; try discriminate.
  apply LoadShader_post in Hv as [Hv _].
  apply LoadShader_post in Hf as [Hf Hfk].
  apply Hfk in Hv.
  case_decide.
  - destruct (LoadShader fuel am GL.GEOMETRY_SHADER gfile wb)
      as [[gs | e] wc | |] eqn:Hg; try discriminate.
    apply LoadShader_post in Hg as [Hg Hgk].
    apply Hgk in Hv, Hf.
    intros Hl. apply LoadProgram_link_post in Hl as [Hp Hpk].
    apply Hpk in Hv, Hf, Hg.
    by exists vs, fs, gs.
  - intros Hl. apply LoadProgram_link_post in Hl as [Hp Hpk].
    apply Hpk in Hv, Hf.
    by exists vs, fs, 0.
Qed.

(** A successful [LoadProgram], called again in the state it left, gives
    the same program and leaves that state as it is. *)
Lemma LoadProgram_again fuel am vfile ffile gfile w p w1 :
  LoadProgram fuel am vfile ffile gfile w = Ret (Ok p) w1 ->
  LoadProgram fuel am vfile ffile gfile w1 = Ret (Ok p) w1.
Proof.
  intros H. apply LoadProgram_post in H as (vs & fs & gs & Hv & Hf & Hg & Hp).
  unfold Manager.LoadProgram, bind.
  rewrite (LoadShader_found _ _ _ _ _ _ Hv).
  rewrite (LoadShader_found _ _ _ _ _ _ Hf).
  case_decide.
  - rewrite (LoadShader_found _ _ _ _ _ _ Hg).
    by apply LoadProgram_link_found.
  - subst gs. by apply LoadProgram_link_found.
Qed.

End Loading.

(** C9. When [LoadProgram(vfile, ffile, "")] succeeds on a manager, the
    same call made next on that manager succeeds with the same program
    handle and leaves the whole state, the driver with its trace of
    compile and link calls included, as the first call left it: nothing is
    read, compiled, linked or registered. After the first call both
    stages are found under their file names and the program under their
    stage set with no geometry stage. *)
Theorem LoadProgram_dedup
    (read_file : string -> option string)
    (shader_log : GL.state -> Z -> string -> string)
    (program_log : GL.state -> Z -> Z -> Z -> string)
    fuel am vfile ffile w p w1 :
  Manager.LoadProgram read_file shader_log program_log
    fuel am vfile ffile "" w = Ret (Ok p) w1 ->
  Manager.LoadProgram read_file shader_log program_log
    fuel am vfile ffile "" w1 = Ret (Ok p) w1 /\
  exists vs fs,
    Manager.GetShader fuel am vfile w1 = Ret (vs, true) w1 /\
    Manager.GetShader fuel am ffile w1 = Ret (fs, true) w1 /\
    Manager.GetProgram fuel am (Manager.mkSet vs fs 0) w1 = Ret (p, true) w1.
Proof.
  intros H. split.
  - eapply LoadProgram_again. exact H.
  - apply LoadProgram_post in H as (vs & fs & gs & Hv & Hf & Hg & Hp).
    simpl in Hg. subst gs. by exists vs, fs.
Qed.

Lemma LoadProgram_dedup_witness :
  let read_file := fun _ : string => Some "void main() {}" in
  let shader_log := fun (_ : GL.state) (_ : Z) (_ : string) => "" in
  let program_log := fun (_ : GL.state) (_ _ _ : Z) => "" in
  let w := Manager.mkWorld {[1%positive := Manager.mk ∅ ∅ ∅ ∅ ∅ None]}
                           ∅ ∅ ∅ GL.init in
  exists w1,
    Manager.LoadProgram read_file shader_log program_log
      1 1%positive "basic.vert" "basic.frag" "" w = Ret (Ok 3) w1 /\
    GL.trace (Manager.driver w1)
    = [GL.CCompileShader 1 GL.VERTEX_SHADER;
       GL.CCompileShader 2 GL.FRAGMENT_SHADER;
       GL.CLinkProgram 3 1 2 0] /\
    Manager.LoadProgram read_file shader_log program_log
      1 1%positive "basic.vert" "basic.frag" "" w1 = Ret (Ok 3) w1.
Proof.
  intros read_file shader_log program_log w.
  eexists. split; [vm_compute; reflexivity |]. split; [reflexivity |].
  refine (proj1 (LoadProgram_dedup read_file shader_log program_log
                   1 1%positive "basic.vert" "basic.frag" w 3 _ _)).
  vm_compute. reflexivity.
Defined.

(** ** Drawing *)

Section DrawFacts.

Import Mesh.

(** A name the material holds no location for reads location 0, which
    is not negative: the uniform is set, at location 0. *)
Lemma DrawUniforms_range_unregistered material name value rest g :
  Material.UniformLocs material !! name = None ->
  DrawUniforms_range material ((name, value) :: rest) g
  = bind (set_uniform 0 value)
         (fun _ => DrawUniforms_range material rest) g.
Proof. intros H. simpl. rewrite H. reflexivity. Qed.

(** A name registered with a location that is not negative is set at
    that location. *)
Lemma DrawUniforms_range_registered material name value rest g loc :
  Material.UniformLocs material !! name = Some loc -> 0 <= loc ->
  DrawUniforms_range material ((name, value) :: rest) g
  = bind (set_uniform loc value)
         (fun _ => DrawUniforms_range material rest) g.
Proof. intros H Hl. simpl. rewrite H. simpl. by rewrite decide_False by lia. Qed.

(** [InitUniformLocs] never registers the location -1 it tests for, so
    the maps it fills never make [DrawUniforms] skip an entry for it. *)
Lemma InitUniformLocs_range_not_minus_one loc_of uniforms mat r mat' :
  (forall n l, Material.UniformLocs mat !! n = Some l -> l ≠ -1) ->
  Material.InitUniformLocs_range loc_of uniforms mat = Ret r mat' ->
  forall n l, Material.UniformLocs mat' !! n = Some l -> l ≠ -1.
Proof.
  revert mat. induction uniforms as [| [name behind] rest IH]; intros mat Hinv;
    cbn [Material.InitUniformLocs_range].
  - by intros [= _ <-].
  - case_decide; [discriminate |].
    case_decide as Hloc; [by intros [= _ <-] |].
    apply IH. intros n l. simpl.
    destruct (decide (name = n)) as [-> | Hne].
    + rewrite lookup_insert_eq. by intros [= <-].
    + rewrite lookup_insert_ne by done. apply Hinv.
Qed.

End DrawFacts.

(** C2: the code sets a uniform the material never registered. A material
    with a program and no resolved uniform, drawn with the uniform "mvp":
    [glUniform1i] is issued for it, at location 0. *)
Theorem DrawUniforms_sets_unregistered_uniform :
  let material := Material.SetProgram 7 (Material.NewMaterial "mat") in
  let m := Mesh.mk "quad" ∅ (Some (ElementArray.mk GL.UNSIGNED_BYTE 2 6 6))
                   1 GL.TRIANGLES 4 in
  Material.UniformLocs material !! "mvp" = None /\
  Mesh.DrawUniforms m (Some material) [("mvp", UInt32 7)] GL.init
  = Ret tt
      (GL.mk 0 ∅
         [GL.CUseProgram 7; GL.CUniform1i 0 7; GL.CBindVertexArray 1;
          GL.CDrawElements GL.TRIANGLES 6 GL.UNSIGNED_BYTE;
          GL.CBindVertexArray 0; GL.CUseProgram 0]).
Proof. split; reflexivity. Qed.

(** ** Textures *)

Section TextureFacts.

Import Texture.
Variable map_buffer : GL.state -> bool.

(** [LoadSubRGBA] has no out-of-bounds error of its own. *)
Lemma LoadSubRGBA_not_out_of_bounds t img offset level g g' :
  LoadSubRGBA map_buffer t img offset level g ≠ Ret (Some TextureOutOfBounds) g'.
Proof.
  unfold LoadSubRGBA, bind, get, GL.BufferData, GL.Issue, ret. simpl.
  destruct (map_buffer _); [| discriminate].
  destruct (copy_rows _ _ _ _ _ _ _); discriminate.
Qed.

(** The out-of-bounds error is returned exactly when the image, shifted
    by the offset, passes the right or the bottom edge: the check has no
    lower bound. *)
Lemma LoadSubImage_out_of_bounds_iff t img offset level g :
  LoadSubImage map_buffer t img offset level g = Ret (Some TextureOutOfBounds) g
  <-> (GoInt.add (Image.Dx (Image.bounds_of img)) (Image.X offset) > W t \/
       GoInt.add (Image.Dy (Image.bounds_of img)) (Image.Y offset) > H t).
Proof.
  unfold LoadSubImage. case_decide as Hc.
  - split; [intros _; exact Hc | reflexivity].
  - split; [| intros Hc'; by destruct Hc].
    intros Hr. exfalso.
    destruct img; by eapply LoadSubRGBA_not_out_of_bounds.
Qed.

End TextureFacts.

(** C6: the code does not reject a negative offset. On a 4x4 texture, a
    1x1 image at offset (-1, 1) does not lie within the texture, yet
    [LoadSubImage] returns nil, having written the pixel at the end of row
    0 of the staging buffer; at offset (-1, 0) it panics on a negative
    slice index instead of returning the error. An upload that passes the
    right or bottom edge is refused, and the upload of a 4x4 image at
    offset (0, 0) succeeds. *)
Theorem LoadSubImage_negative_offset :
  let t := Texture.mk "tex" 1 2 4 4 in
  let img := Image.IsRGBA
               (Image.mkRGBA [9; 9; 9; 9] 4 (Image.Rect (Image.Pt 0 0) (Image.Pt 1 1))) in
  let g := GL.mk 2 {[2 := 0]} [] in
  let ok := fun _ : GL.state => true in
  ~ region_within t (Image.bounds_of img) (Image.Pt (-1) 1) /\
  Texture.LoadSubImage ok t img (Image.Pt (-1) 1) 0 g
  = Ret None
      (GL.mk 2 {[2 := 64]}
         [GL.CBufferData 2 64 GL.STREAM_DRAW;
          GL.CTexSubImage2D 1 0 0 0 1 1
            (replicate 12 0 ++ [9; 9; 9; 9] ++ replicate 48 0)]) /\
  ~ region_within t (Image.bounds_of img) (Image.Pt (-1) 0) /\
  Texture.LoadSubImage ok t img (Image.Pt (-1) 0) 0 g
  = Abort SliceOutOfRange
      (GL.mk 2 {[2 := 64]} [GL.CBufferData 2 64 GL.STREAM_DRAW]) /\
  Texture.LoadSubImage ok t img (Image.Pt 3 3) 0 g = Ret None
      (GL.mk 2 {[2 := 64]}
         [GL.CBufferData 2 64 GL.STREAM_DRAW;
          GL.CTexSubImage2D 1 0 0 0 1 1
            (replicate 60 0 ++ [9; 9; 9; 9])]) /\
  Texture.LoadSubImage ok t img (Image.Pt 4 3) 0 g
  = Ret (Some TextureOutOfBounds) g /\
  Texture.LoadSubImage ok t
    (Image.IsRGBA (Image.mkRGBA (replicate 64 7) 16
                     (Image.Rect (Image.Pt 0 0) (Image.Pt 4 4))))
    (Image.Pt 0 0) 0 g
  = Ret None
      (GL.mk 2 {[2 := 64]}
         [GL.CBufferData 2 64 GL.STREAM_DRAW;
          GL.CTexSubImage2D 1 0 0 0 4 4 (replicate 64 7)]).
Proof.
  repeat split; try (vm_compute; reflexivity).
  - vm_compute. intros (H & _). by apply H.
  - vm_compute. intros (H & _). by apply H.
Qed.

(** ** The composite mesh builder *)

(** C1: the code leaks the color buffer. Positions, colors and normals are
    given and valid, the element slice is empty, so the element array
    fails after three attribute buffers were made: buffers 1 (positions),
    2 (colors) and 3 (normals). [MakeMesh] returns the error of
    [NewElementArray]; buffers 1 and 3 were deleted, the color buffer 2 is
    still live in the driver, because the normal array was assigned to the
    variable that held the color array. *)
Theorem MakeMesh_leaks_color_buffer :
  let pos := Slice Float32 2 2 in
  let cols := Slice Float32 4 4 in
  let nrms := Slice Float32 3 3 in
  let elems := Slice Uint8 0 0 in
  let g1 := GL.mk 1 {[1 := 8]} [GL.CBufferData 1 8 GL.STATIC_DRAW] in
  exists colarr g2 g',
    AttribArray.NewAttribArray "pos" 2 pos GL.STATIC_DRAW GL.init
    = Ret (Ok (AttribArray.mk "pos" 2 GL.FLOAT 1 2 2)) g1 /\
    AttribArray.NewAttribArray "color" 4 cols GL.STATIC_DRAW g1
    = Ret (Ok colarr) g2 /\
    AttribArray.Buf colarr = 2 /\
    MeshUtil.MakeMesh "mesh" 2 GL.TRIANGLES pos cols nrms [] elems GL.init
    = Ret (Err ElementZeroLength) g' /\
    GL.live (AttribArray.Buf colarr) g' /\
    ~ GL.live 1 g' /\ ~ GL.live 3 g'.
Proof.
  intros pos cols nrms elems g1.
  exists (AttribArray.mk "color" 4 GL.FLOAT 2 4 4).
  exists (GL.mk 2 {[1 := 8; 2 := 16]}
            [GL.CBufferData 1 8 GL.STATIC_DRAW; GL.CBufferData 2 16 GL.STATIC_DRAW]).
  exists (GL.mk 3 {[2 := 16]}
            [GL.CBufferData 1 8 GL.STATIC_DRAW; GL.CBufferData 2 16 GL.STATIC_DRAW;
             GL.CBufferData 3 12 GL.STATIC_DRAW]).
  repeat split; try (vm_compute; reflexivity).
  - vm_compute. eauto.
  - vm_compute. intros [x Hx]. discriminate.
  - vm_compute. intros [x Hx]. discriminate.
Qed.

(** The leak does not depend on the data: whenever positions, colors and
    normals are all given and valid and the element slice is empty, the
    call returns the error of [NewElementArray] and the second buffer it
    made, the color buffer, is still live. *)
Lemma MakeMesh_color_buffer_stays_live
    name dims prim tp lp cp tc lc cc tn ln cn te ce g :
  supported tp = true -> lp ≠ 0%N -> dims ≠ 0 ->
  (is_vector tp = true -> dims = components tp) ->
  GoInt.rem (scalar_count tp lp) dims = 0 ->
  supported tc = true -> lc ≠ 0%N ->
  (is_vector tc = true -> 4 = components tc) ->
  GoInt.rem (scalar_count tc lc) 4 = 0 ->
  supported tn = true -> ln ≠ 0%N ->
  (is_vector tn = true -> 3 = components tn) ->
  GoInt.rem (scalar_count tn ln) 3 = 0 ->
  exists g',
    MeshUtil.MakeMesh name dims prim (Slice tp lp cp) (Slice tc lc cc)
      (Slice tn ln cn) [] (Slice te 0 ce) g
    = Ret (Err ElementZeroLength) g' /\
    GL.live (GL.names g + 2) g'.
Proof.
  intros Hp1 Hp2 Hp3 Hp4 Hp5 Hc1 Hc2 Hc4 Hc5 Hn1 Hn2 Hn4 Hn5.
  unfold MeshUtil.MakeMesh, MeshUtil.MakeMesh_body, MeshUtil.then_, bind,
    MeshUtil.gl, MeshUtil.local, MeshUtil.return_on_err, MeshUtil.checkSlice,
    ret. cbn [is_nil is_slice negb].
  rewrite (NewAttribArray_valid "pos" dims tp lp cp GL.STATIC_DRAW g) by done.
  cbn [MeshUtil.assign_posarr MeshUtil.error_of MeshUtil.pointer_of MeshUtil.err].
  rewrite (NewAttribArray_valid "color" 4 tc lc cc GL.STATIC_DRAW) by done.
  cbn [MeshUtil.assign_colarr MeshUtil.error_of MeshUtil.pointer_of MeshUtil.err
       GL.names].
  rewrite (NewAttribArray_valid "normal" 3 tn ln cn GL.STATIC_DRAW) by done.
  eexists. split; [reflexivity |].
  unfold GL.live. cbn.
  replace (GL.names g + 1 + 1) with (GL.names g + 2) by lia.
  replace (GL.names g + 2 + 1) with (GL.names g + 3) by lia.
  rewrite !lookup_delete_ne by lia.
  repeat case_decide;
    rewrite ?(lookup_insert_ne _ (GL.names g + 3)) by lia;
    rewrite lookup_insert_eq; eauto.
Qed.

(** * Further properties *)

(** ** vertexarray.go *)

(** [GL_wf] can be checked by evaluation on a given state. *)
Lemma GL_wf_check g :
  bool_decide (0 <= GL.names g) = true ->
  bool_decide (map_Forall (fun b _ => 0 < b <= GL.names g) (GL.buffers g)) = true ->
  GL_wf g.
Proof.
  intros Hn Hb. apply bool_decide_eq_true in Hn, Hb.
  split; [exact Hn |]. intros b [x Hx]. by apply (Hb b x).
Qed.

Lemma GL_wf_init : GL_wf GL.init.
Proof. split; [done |]. intros b [x Hx]. simpl in Hx. by rewrite lookup_empty in Hx. Qed.

(** X1. Whatever it is given, [NewAttribArray] either fails, by an error
    or by a panic, and then leaves the driver exactly as it was, or
    succeeds, and then has generated exactly one buffer, under the next
    fresh name, which is live, and has touched no other buffer. *)
Theorem NewAttribArray_outcome name dims data usage g :
  match AttribArray.NewAttribArray name dims data usage g with
  | Ret (Ok arr) g' =>
      AttribArray.Buf arr = GL.names g + 1 /\
      GL.names g' = GL.names g + 1 /\
      GL.live (AttribArray.Buf arr) g' /\
      (forall b, b ≠ GL.names g + 1 -> GL.buffers g' !! b = GL.buffers g !! b)
  | Ret (Err _) g' => g' = g
  | Abort _ g' => g' = g
  | Diverge => False
  end.
Proof.
  unfold AttribArray.NewAttribArray.
  destruct data as [| t len cap |]; try done.
  case_decide; [done |].
  destruct t; simpl; try done;
    repeat (case_decide; try done);
    unfold bind, GL.GenBuffers, GL.BufferData, ret, GL.live; simpl;
    rewrite lookup_insert_eq; (repeat split; try done);
    try (case_decide; rewrite lookup_insert_eq; eauto);
    intros b Hb; case_decide; rewrite ?lookup_insert_ne by done;
    by rewrite ?lookup_insert_ne by done.
Qed.

(** X2. The refusals of [NewAttribArray], in the order the code tests
    them: a value that is not a slice gives the not-a-slice error; an
    empty slice gives the zero-length error, whatever its element type; a
    non-empty slice of an element type outside the switch gives the
    unhandled-type error, whatever [dims] is, zero included. *)
Theorem NewAttribArray_rejections name dims usage g :
  AttribArray.NewAttribArray name dims Nil usage g
  = Ret (Err (AttribNotSlice name)) g /\
  AttribArray.NewAttribArray name dims NotSlice usage g
  = Ret (Err (AttribNotSlice name)) g /\
  (forall t cap,
      AttribArray.NewAttribArray name dims (Slice t 0 cap) usage g
      = Ret (Err (AttribZeroLength name)) g) /\
  (forall t len cap,
      len ≠ 0%N -> supported t = false ->
      AttribArray.NewAttribArray name dims (Slice t len cap) usage g
      = Ret (Err (AttribUnhandledType name)) g).
Proof.
  repeat split.
  intros t len cap Hl Hs. unfold AttribArray.NewAttribArray.
  rewrite decide_False by lia. by destruct t.
Qed.

Lemma NewAttribArray_rejections_witness :
  AttribArray.NewAttribArray "pos" 0 (Slice Uint32 3 3) GL.STATIC_DRAW GL.init
  = Ret (Err (AttribUnhandledType "pos")) GL.init /\
  AttribArray.NewAttribArray "pos" 2 (Slice OtherElem 0 4) GL.STATIC_DRAW GL.init
  = Ret (Err (AttribZeroLength "pos")) GL.init.
Proof.
  destruct (NewAttribArray_rejections "pos" 0 GL.STATIC_DRAW GL.init)
    as (_ & _ & _ & Hun).
  destruct (NewAttribArray_rejections "pos" 2 GL.STATIC_DRAW GL.init)
    as (_ & _ & Hzero & _).
  split.
  - apply (Hun Uint32 3%N 3%N); [discriminate | reflexivity].
  - apply (Hzero OtherElem 4%N).
Defined.

(** X3. [Update] never reallocates: whatever the payload and however the
    call ends, the array keeps its name, dimensions, OpenGL type, buffer
    handle and capacity, and the driver keeps its names and its buffers
    with their store sizes. *)
Theorem Update_keeps_allocation data arr g :
  match AttribArray.Update data (arr, g) with
  | Ret _ (arr', g') | Abort _ (arr', g') =>
      AttribArray.Name arr' = AttribArray.Name arr /\
      AttribArray.Dims arr' = AttribArray.Dims arr /\
      AttribArray.Type_ arr' = AttribArray.Type_ arr /\
      AttribArray.Buf arr' = AttribArray.Buf arr /\
      AttribArray.Cap arr' = AttribArray.Cap arr /\
      GL.names g' = GL.names g /\ GL.buffers g' = GL.buffers g
  | Diverge => False
  end.
Proof.
  unfold AttribArray.Update.
  destruct data as [| t len cap |]; try done.
  case_decide; [done |]. case_decide; [done |].
  destruct t; simpl; try done;
    unfold AttribArray.Update_upload; simpl;
    repeat (case_decide; try done).
Qed.

(** What [Update] does with a payload that passes its checks. *)
Lemma Update_accepts arr g t len cap :
  len ≠ 0%N -> Z.of_N len <= AttribArray.Cap arr -> supported t = true ->
  (is_vector t = true -> AttribArray.Dims arr = components t) ->
  gl_type t = AttribArray.Type_ arr -> AttribArray.Dims arr ≠ 0 ->
  GoInt.rem (scalar_count t len) (AttribArray.Dims arr) = 0 ->
  AttribArray.Update (Slice t len cap) (arr, g)
  = Ret None
      (AttribArray.set_Len (scalar_count t len) arr,
       GL.issue (GL.CBufferSubData (AttribArray.Buf arr)
                   (GoInt.mul (scalar_count t len) (scalar_bytes t))) g).
Proof.
  intros Hl Hc Hs Hv Ht Hd Hr. unfold AttribArray.Update.
  rewrite decide_False by lia.
  cbn [AttribArray.Cap AttribArray.set_Len].
  rewrite decide_False by lia.
  destruct t; try discriminate; try specialize (Hv eq_refl);
    unfold AttribArray.Update_upload, scalar_count in *;
    cbn [is_vector components gl_type scalar_bytes AttribArray.Len
         AttribArray.Dims AttribArray.Type_ AttribArray.Buf
         AttribArray.set_Len] in *;
    repeat case_decide; try done; try congruence.
Qed.

(** X4. A non-empty payload of the array's OpenGL type, no longer than the
    capacity, vectors agreeing with [Dims]: when its scalar count is a
    multiple of [Dims], [Update] returns nil, the length becomes the scalar
    count and one sub-upload of length times element size is issued on the
    array's buffer; when it is not, [Update] panics with "invalid data
    length", the length already overwritten. *)
Theorem Update_same_type arr g t len cap :
  len ≠ 0%N -> Z.of_N len <= AttribArray.Cap arr -> supported t = true ->
  (is_vector t = true -> AttribArray.Dims arr = components t) ->
  gl_type t = AttribArray.Type_ arr -> AttribArray.Dims arr ≠ 0 ->
  (GoInt.rem (scalar_count t len) (AttribArray.Dims arr) = 0 ->
   AttribArray.Update (Slice t len cap) (arr, g)
   = Ret None
       (AttribArray.set_Len (scalar_count t len) arr,
        GL.issue (GL.CBufferSubData (AttribArray.Buf arr)
                    (GoInt.mul (scalar_count t len) (scalar_bytes t))) g)) /\
  (GoInt.rem (scalar_count t len) (AttribArray.Dims arr) ≠ 0 ->
   AttribArray.Update (Slice t len cap) (arr, g)
   = Abort (Panic "asset.AttribArray.Update error: invalid data length")
           (AttribArray.set_Len (scalar_count t len) arr, g)).
Proof.
  intros Hl Hc Hs Hv Ht Hd. unfold AttribArray.Update.
  rewrite decide_False by lia.
  cbn [AttribArray.Cap AttribArray.set_Len].
  rewrite decide_False by lia.
  split; intros Hr;
    (destruct t; try discriminate; try specialize (Hv eq_refl);
     unfold AttribArray.Update_upload, scalar_count in *;
     cbn [is_vector components gl_type scalar_bytes AttribArray.Len
          AttribArray.Dims AttribArray.Type_ AttribArray.Buf
          AttribArray.set_Len] in *;
     repeat case_decide; try done; try congruence).
Qed.

Lemma Update_same_type_witness :
  let arr := AttribArray.mk "pos" 2 GL.FLOAT 1 8 8 in
  AttribArray.Update (Slice Float32 6 6) (arr, GL.init)
  = Ret None (AttribArray.set_Len 6 arr,
              GL.issue (GL.CBufferSubData 1 24) GL.init) /\
  AttribArray.Update (Slice Float32 5 5) (arr, GL.init)
  = Abort (Panic "asset.AttribArray.Update error: invalid data length")
          (AttribArray.set_Len 5 arr, GL.init).
Proof.
  intros arr. split.
  - apply (proj1 (Update_same_type arr GL.init Float32 6%N 6%N
                    ltac:(discriminate) ltac:(vm_compute; discriminate) eq_refl
                    ltac:(discriminate) eq_refl ltac:(discriminate))).
    reflexivity.
  - apply (proj2 (Update_same_type arr GL.init Float32 5%N 5%N
                    ltac:(discriminate) ltac:(vm_compute; discriminate) eq_refl
                    ltac:(discriminate) eq_refl ltac:(discriminate))).
    vm_compute. discriminate.
Defined.

(** X5. The capacity test of [Update] compares the number of slice
    elements, not of scalars: a payload of vectors with no more elements
    than the capacity but more scalars is taken, and leaves the array with
    a length above its capacity and a sub-upload of that length issued. *)
Theorem Update_vectors_past_capacity arr g t len cap :
  is_vector t = true -> AttribArray.Dims arr = components t ->
  gl_type t = AttribArray.Type_ arr ->
  len ≠ 0%N -> Z.of_N len < 2 ^ 61 ->
  Z.of_N len <= AttribArray.Cap arr < Z.of_N len * components t ->
  exists arr' g',
    AttribArray.Update (Slice t len cap) (arr, g) = Ret None (arr', g') /\
    AttribArray.Len arr' = Z.of_N len * components t /\
    AttribArray.Cap arr' = AttribArray.Cap arr /\
    AttribArray.Cap arr' < AttribArray.Len arr' /\
    GL.trace g' = GL.trace g ++
      [GL.CBufferSubData (AttribArray.Buf arr)
         (GoInt.mul (Z.of_N len * components t) (scalar_bytes t))].
Proof.
  intros Hv Hd Ht Hl Hb [Hc1 Hc2].
  assert (Hcount := scalar_count_exact t len Hb).
  eexists _, _. split.
  - apply Update_accepts; try done.
    + by destruct t.
    + rewrite Hd. by destruct t.
    + rewrite Hcount, Hd. unfold GoInt.rem. apply Z.rem_mul. by destruct t.
  - rewrite Hcount. simpl. repeat split; lia.
Qed.

Lemma Update_vectors_past_capacity_witness :
  let arr := AttribArray.mk "pos" 2 GL.FLOAT 1 4 4 in
  exists arr' g',
    AttribArray.Update (Slice Vec2f 3 3) (arr, GL.init) = Ret None (arr', g') /\
    AttribArray.Len arr' = 6 /\ AttribArray.Cap arr' = 4.
Proof.
  intros arr.
  destruct (Update_vectors_past_capacity arr GL.init Vec2f 3%N 3%N
              eq_refl eq_refl eq_refl ltac:(discriminate) eq_refl
              ltac:(split; [vm_compute; discriminate | reflexivity]))
    as (arr' & g' & Hup & Hlen & Hcap & _).
  exists arr', g'. repeat split; assumption.
Defined.

(** X6. [Clean] on a nil array does nothing. On an array it deletes the
    buffer and zeroes the handle; called again on that array in a driver
    that satisfies [GL_wf], it changes nothing, neither the array nor the
    driver: no other buffer is ever deleted by the second call. The same
    holds of the [Clean] of element arrays. *)
Theorem Clean_twice (a : AttribArray.t) (e : ElementArray.t) g :
  GL_wf g ->
  AttribArray.Clean None g = Ret None g /\
  ElementArray.Clean None g = Ret None g /\
  (exists a' g1,
      AttribArray.Clean (Some a) g = Ret (Some a') g1 /\
      AttribArray.Buf a' = 0 /\ ~ GL.live (AttribArray.Buf a) g1 /\
      (forall b, b ≠ AttribArray.Buf a -> GL.buffers g1 !! b = GL.buffers g !! b) /\
      AttribArray.Clean (Some a') g1 = Ret (Some a') g1) /\
  (exists e' g1,
      ElementArray.Clean (Some e) g = Ret (Some e') g1 /\
      ElementArray.Buf e' = 0 /\ ~ GL.live (ElementArray.Buf e) g1 /\
      (forall b, b ≠ ElementArray.Buf e -> GL.buffers g1 !! b = GL.buffers g !! b) /\
      ElementArray.Clean (Some e') g1 = Ret (Some e') g1).
Proof.
  intros [Hn Hwf].
  assert (H0 : GL.buffers g !! 0 = None).
  { destruct (GL.buffers g !! 0) eqn:E; [| done].
    assert (0 < 0 <= GL.names g) by (apply Hwf; eauto). lia. }
  split; [reflexivity |]. split; [reflexivity |]. split.
  - eexists _, _. split; [reflexivity |]. simpl. repeat split.
    + unfold GL.live. simpl. rewrite lookup_delete_eq. by intros [? ?].
    + intros b Hb. by rewrite lookup_delete_ne.
    + unfold AttribArray.Clean, bind, GL.DeleteBuffers, ret. simpl.
      destruct g as [n bufs tr]. simpl in *. do 2 f_equal.
      apply delete_id. destruct (decide (AttribArray.Buf a = 0)) as [-> |].
      * apply lookup_delete_eq.
      * by rewrite lookup_delete_ne.
  - eexists _, _. split; [reflexivity |]. simpl. repeat split.
    + unfold GL.live. simpl. rewrite lookup_delete_eq. by intros [? ?].
    + intros b Hb. by rewrite lookup_delete_ne.
    + unfold ElementArray.Clean, bind, GL.DeleteBuffers, ret. simpl.
      destruct g as [n bufs tr]. simpl in *. do 2 f_equal.
      apply delete_id. destruct (decide (ElementArray.Buf e = 0)) as [-> |].
      * apply lookup_delete_eq.
      * by rewrite lookup_delete_ne.
Qed.

Lemma Clean_twice_witness :
  let a := AttribArray.mk "pos" 2 GL.FLOAT 1 8 8 in
  let g := GL.mk 2 {[1 := 32; 2 := 6]} [] in
  exists a' g1,
    AttribArray.Clean (Some a) g = Ret (Some a') g1 /\
    AttribArray.Buf a' = 0 /\
    GL.buffers g1 !! 2 = Some 6 /\
    AttribArray.Clean (Some a') g1 = Ret (Some a') g1.
Proof.
  intros a g.
  assert (Hwf : GL_wf g) by (apply GL_wf_check; reflexivity).
  destruct (Clean_twice a (ElementArray.mk 0 0 0 0) g Hwf)
    as (_ & _ & (a' & g1 & H1 & H2 & _ & H4 & H5) & _).
  exists a', g1. repeat split; try assumption.
  rewrite H4; [reflexivity | discriminate].
Defined.

(** X7. The failures of [NewElementArray]: a value that is not a slice
    makes it panic; an empty slice gives the zero-length error, with the
    driver as it was; a non-empty slice whose elements are neither [uint8]
    nor [uint32] makes it panic after the buffer was generated, and that
    buffer stays live. *)
Theorem NewElementArray_failures usage g :
  ElementArray.NewElementArray Nil usage g
  = Abort (Panic "asset.NewElementArray error: data is not a slice") g /\
  ElementArray.NewElementArray NotSlice usage g
  = Abort (Panic "asset.NewElementArray error: data is not a slice") g /\
  (forall t cap,
      ElementArray.NewElementArray (Slice t 0 cap) usage g
      = Ret (Err ElementZeroLength) g) /\
  (forall t len cap,
      len ≠ 0%N -> index_type t = false ->
      exists g',
        ElementArray.NewElementArray (Slice t len cap) usage g
        = Abort (Panic "asset.NewElementArray error: unhandled data type") g' /\
        GL.names g' = GL.names g + 1 /\
        GL.live (GL.names g + 1) g').
Proof.
  repeat split.
  intros t len cap Hl Hi. eexists.
  unfold ElementArray.NewElementArray. rewrite decide_False by lia.
  unfold bind, GL.GenBuffers, throw.
  destruct t; try discriminate;
    (split; [reflexivity |]; split; [reflexivity |]);
    unfold GL.live; simpl; rewrite lookup_insert_eq; eauto.
Qed.

Lemma NewElementArray_failures_witness :
  exists g',
    ElementArray.NewElementArray (Slice Float32 3 3) GL.STATIC_DRAW GL.init
    = Abort (Panic "asset.NewElementArray error: unhandled data type") g' /\
    GL.live 1 g'.
Proof.
  destruct (NewElementArray_failures GL.STATIC_DRAW GL.init) as (_ & _ & _ & H).
  destruct (H Float32 3%N 3%N ltac:(discriminate) eq_refl) as (g' & H1 & _ & H3).
  exists g'. split; assumption.
Defined.

(** X8. [Update] of an element array at its edges. An empty [uint8] or
    [uint32] payload makes it panic on [&v[0]], the length already set to
    0 (where the [Update] of an attribute array returns nil). A payload
    longer than the capacity makes it panic with the array untouched. A
    non-empty index payload within the capacity whose OpenGL type is not
    the array's, and any slice of another element type on an array that
    was created (its type is not 0), make it panic on the type test,
    the length already overwritten. *)
Theorem ElementArray_Update_edges arr g :
  (forall t cap,
      index_type t = true -> 0 <= ElementArray.Cap arr ->
      ElementArray.Update (Slice t 0 cap) (arr, g)
      = Abort IndexOutOfRange (ElementArray.set_Len 0 arr, g)) /\
  (forall t len cap,
      Z.of_N len > ElementArray.Cap arr ->
      ElementArray.Update (Slice t len cap) (arr, g)
      = Abort (Panic "ElementArray error: data is larger than array") (arr, g)) /\
  (forall t len cap,
      index_type t = true -> len ≠ 0%N ->
      Z.of_N len <= ElementArray.Cap arr ->
      gl_type t ≠ ElementArray.Type_ arr ->
      ElementArray.Update (Slice t len cap) (arr, g)
      = Abort (Panic "asset.ElementArray.Update error: data type does not match array type")
              (ElementArray.set_Len (Z.of_N len) arr, g)) /\
  (forall t len cap,
      index_type t = false -> Z.of_N len <= ElementArray.Cap arr ->
      ElementArray.Type_ arr ≠ 0 ->
      ElementArray.Update (Slice t len cap) (arr, g)
      = Abort (Panic "asset.ElementArray.Update error: data type does not match array type")
              (ElementArray.set_Len (Z.of_N len) arr, g)).
Proof.
  repeat split.
  - intros t cap Hi Hc. unfold ElementArray.Update.
    rewrite decide_False by lia. by destruct t.
  - intros t len cap Hc. unfold ElementArray.Update. by rewrite decide_True.
  - intros t len cap Hi Hl Hc Ht. unfold ElementArray.Update.
    rewrite decide_False by lia.
    destruct t; try discriminate; rewrite decide_False by lia;
      unfold ElementArray.Update_upload; simpl;
      rewrite decide_True by (intros Heq; by apply Ht); reflexivity.
  - intros t len cap Hi Hc Ht. unfold ElementArray.Update.
    rewrite decide_False by lia.
    destruct t; try discriminate;
      unfold ElementArray.Update_upload; simpl;
      rewrite decide_True by done; reflexivity.
Qed.

Lemma ElementArray_Update_edges_witness :
  let arr := ElementArray.mk GL.UNSIGNED_BYTE 1 6 6 in
  ElementArray.Update (Slice Uint8 0 0) (arr, GL.init)
  = Abort IndexOutOfRange (ElementArray.set_Len 0 arr, GL.init) /\
  ElementArray.Update (Slice Uint8 7 7) (arr, GL.init)
  = Abort (Panic "ElementArray error: data is larger than array") (arr, GL.init) /\
  ElementArray.Update (Slice Uint32 3 3) (arr, GL.init)
  = Abort (Panic "asset.ElementArray.Update error: data type does not match array type")
          (ElementArray.set_Len 3 arr, GL.init).
Proof.
  intros arr.
  destruct (ElementArray_Update_edges arr GL.init) as (H1 & H2 & H3 & _).
  split; [| split].
  - apply (H1 Uint8 0%N); [reflexivity | discriminate].
  - apply (H2 Uint8 7%N 7%N). reflexivity.
  - apply (H3 Uint32 3%N 3%N);
      [reflexivity | discriminate | discriminate | discriminate].
Defined.

(** ** Meshes *)

(** X9. Channels that agree: when every channel of a call that is not nil
    has a non-zero [Dims] and the element-group count [n], and the vertex
    count of the mesh is unset or is [n], [AddArrays] returns nil; the mesh
    then holds each channel under its name, a later channel replacing an
    earlier one of the same name, on top of the channels it had, its vertex
    count is [n] as soon as one channel was added, and nothing else of it
    has changed. *)
Theorem AddArrays_agreeing xs m n :
  Mesh.Vertices m = -1 \/ Mesh.Vertices m = n ->
  Forall (fun o => forall a, o = Some a ->
                     AttribArray.Dims a ≠ 0 /\
                     GoInt.quot (AttribArray.Len a) (AttribArray.Dims a) = n) xs ->
  Mesh.AddArrays xs m
  = Ret None
      (Mesh.mk (Mesh.Name m)
         (foldl (fun acc a => <[AttribArray.Name a := a]> acc)
                (Mesh.Attribs m) (omap id xs))
         (Mesh.Elements m) (Mesh.Array m) (Mesh.Primitive m)
         (if decide (omap id xs = []) then Mesh.Vertices m else n)).
Proof.
  intros Hv Hall. revert m Hv.
  induction Hall as [| [a |] xs Ha _ IH]; intros m Hv.
  - by destruct m.
  - destruct (Ha a eq_refl) as [Hd Hn].
    rewrite AddArrays_cons by done. cbv zeta. rewrite Hn.
    assert (omap id (Some a :: xs) = a :: omap id xs) as -> by reflexivity.
    cbn [foldl].
    rewrite (decide_False (P := a :: omap id xs = [])) by done.
    destruct (decide (Mesh.Vertices m = -1)) as [Hunset | Hset].
    + rewrite IH by (right; reflexivity). simpl.
      f_equal. f_equal. by case_decide.
    + destruct Hv as [Hv | Hv]; [done |].
      rewrite decide_True by done.
      rewrite IH by (right; exact Hv). simpl.
      f_equal. f_equal. by case_decide.
  - cbn [Mesh.AddArrays]. rewrite IH by done. reflexivity.
Qed.

Lemma AddArrays_agreeing_witness :
  let a := AttribArray.mk "pos" 2 GL.FLOAT 1 8 8 in
  let b := AttribArray.mk "color" 4 GL.FLOAT 2 16 16 in
  let c := AttribArray.mk "pos" 3 GL.FLOAT 3 12 12 in
  Mesh.AddArrays [Some a; None; Some b; Some c] (Mesh.NewMesh "quad")
  = Ret None (Mesh.mk "quad" (<["pos" := c]> (<["color" := b]> (<["pos" := a]> ∅)))
                      None 0 0 4).
Proof.
  intros a b c.
  apply (AddArrays_agreeing [Some a; None; Some b; Some c] (Mesh.NewMesh "quad") 4).
  - left. reflexivity.
  - repeat (apply List.Forall_cons;
            [intros x Hx;
             first [discriminate
                   | injection Hx as <-; split; [discriminate | reflexivity]] |]).
    apply List.Forall_nil.
Defined.

(** X10. [AddArrays] keeps every channel under its own name: if each
    array of the mesh sits under the key that is its [Name], this still
    holds of the mesh the call leaves, whether it returns nil, returns the
    inconsistency error or panics. *)
Theorem AddArrays_keyed_by_name xs m :
  (forall k a, Mesh.Attribs m !! k = Some a -> AttribArray.Name a = k) ->
  match Mesh.AddArrays xs m with
  | Ret _ m' | Abort _ m' =>
      forall k a, Mesh.Attribs m' !! k = Some a -> AttribArray.Name a = k
  | Diverge => False
  end.
Proof.
  revert m. induction xs as [| [arr |] xs IH]; intros m Hm.
  - exact Hm.
  - rewrite AddArrays_cons_eq. cbv zeta.
    repeat case_decide; try exact Hm; apply IH; simpl;
      intros k a; (destruct (decide (AttribArray.Name arr = k)) as [<- | Hne];
        [rewrite lookup_insert_eq; by intros [= <-]
        | rewrite lookup_insert_ne by done; apply Hm]).
  - by apply IH.
Qed.

Lemma AddArrays_keyed_by_name_witness :
  let a := AttribArray.mk "pos" 2 GL.FLOAT 1 8 8 in
  let b := AttribArray.mk "color" 4 GL.FLOAT 2 12 12 in
  match Mesh.AddArrays [Some a; Some b] (Mesh.NewMesh "quad") with
  | Ret _ m' | Abort _ m' =>
      Mesh.Attribs m' !! "pos" = Some a /\
      forall k x, Mesh.Attribs m' !! k = Some x -> AttribArray.Name x = k
  | Diverge => False
  end.
Proof.
  intros a b.
  pose proof (AddArrays_keyed_by_name [Some a; Some b] (Mesh.NewMesh "quad")) as K.
  destruct (Mesh.AddArrays [Some a; Some b] (Mesh.NewMesh "quad"))
    as [r m' | p m' |] eqn:E; [| discriminate E | discriminate E].
  split.
  - vm_compute in E. injection E as _ <-. reflexivity.
  - apply K. intros k x Hx. simpl in Hx. by rewrite lookup_empty in Hx.
Defined.

(** *** Releasing a mesh *)

Section MeshClean.

(** What the loop of [Clean] leaves: every entry rewritten with a zero
    handle, every buffer of an entry deleted. *)
Lemma Clean_range_eq entries attribs g :
  Mesh.Clean_range entries (attribs, g)
  = Ret tt
      (foldl (fun acc e => <[e.1 := AttribArray.set_Buf 0 e.2]> acc) attribs entries,
       GL.mk (GL.names g)
             (foldl (fun bs e => delete (AttribArray.Buf e.2) bs) (GL.buffers g) entries)
             (GL.trace g)).
Proof.
  revert attribs g. induction entries as [| [k a] rest IH]; intros attribs g.
  - by destruct g.
  - cbn [Mesh.Clean_range]. unfold AttribArray.Clean, bind, GL.DeleteBuffers, ret.
    rewrite IH. reflexivity.
Qed.

Lemma foldl_delete_lookup (entries : list (string * AttribArray.t)) (bs : gmap Z Z) b :
  foldl (fun bs e => delete (AttribArray.Buf e.2) bs) bs entries !! b
  = if decide (Exists (fun e => AttribArray.Buf e.2 = b) entries)
    then None else bs !! b.
Proof.
  revert bs. induction entries as [| e rest IH]; intros bs; cbn [foldl].
  - rewrite decide_False; [done |]. by intros H; inversion H.
  - rewrite IH. destruct (decide (AttribArray.Buf e.2 = b)) as [Heq | Hne].
    + rewrite (decide_True (P := Exists _ (e :: rest))) by (by left).
      case_decide; [done |]. subst. apply lookup_delete_eq.
    + rewrite lookup_delete_ne by done.
      destruct (decide (Exists (fun e => AttribArray.Buf e.2 = b) rest)).
      * by rewrite decide_True by (by right).
      * rewrite decide_False; [done |]. intros H; inversion H; by subst.
Qed.

Lemma foldl_insert_lookup {A B} (f : A -> B) (entries : list (string * A))
    (acc : gmap string B) k :
  NoDup entries.*1 ->
  foldl (fun acc e => <[e.1 := f e.2]> acc) acc entries !! k
  = match list_to_map (M := gmap string A) entries !! k with
    | Some a => Some (f a)
    | None => acc !! k
    end.
Proof.
  revert acc. induction entries as [| [k' a] rest IH]; intros acc Hnd; simpl.
  - by rewrite lookup_empty.
  - apply NoDup_cons in Hnd as [Hnot Hnd]. rewrite IH by done.
    destruct (decide (k' = k)) as [-> | Hne].
    + rewrite lookup_insert_eq.
      assert (list_to_map (M := gmap string A) rest !! k = None) as ->
        by (by apply not_elem_of_list_to_map_1).
      by rewrite lookup_insert_eq.
    + rewrite !lookup_insert_ne by done. reflexivity.
Qed.

End MeshClean.

(** X11. [Clean] releases what the mesh owns. For every order in which the
    channels are visited it returns, and then: the vertex array object of
    the mesh is gone and its handle zeroed; every channel and the element
    array have a zero handle; no buffer of a channel or of the element
    array is live; every other buffer is as it was. *)
Theorem Mesh_Clean_releases order m g v :
  order ≡ₚ map_to_list (Mesh.Attribs m) ->
  exists m' g' v',
    Mesh.Clean order (m, (g, v)) = Ret tt (m', (g', v')) /\
    Mesh.Array m' = 0 /\
    VertexArray.objects v' !! Mesh.Array m = None /\
    (forall k, Mesh.Attribs m' !! k
               = AttribArray.set_Buf 0 <$> Mesh.Attribs m !! k) /\
    Mesh.Elements m' = ElementArray.set_Buf 0 <$> Mesh.Elements m /\
    (forall k a, Mesh.Attribs m !! k = Some a ->
                 ~ GL.live (AttribArray.Buf a) g') /\
    (forall e, Mesh.Elements m = Some e -> ~ GL.live (ElementArray.Buf e) g') /\
    (forall b,
        (forall k a, Mesh.Attribs m !! k = Some a -> AttribArray.Buf a ≠ b) ->
        (forall e, Mesh.Elements m = Some e -> ElementArray.Buf e ≠ b) ->
        GL.buffers g' !! b = GL.buffers g !! b).
Proof.
  intros Hperm.
  assert (Hnd : NoDup order.*1).
  { rewrite Hperm. apply NoDup_fst_map_to_list. }
  assert (Hin : forall k a, (k, a) ∈ order <-> Mesh.Attribs m !! k = Some a).
  { intros k a. rewrite Hperm. apply elem_of_map_to_list. }
  assert (Hmap : forall k, list_to_map (M := gmap string AttribArray.t) order !! k
                           = Mesh.Attribs m !! k).
  { intros k. apply option_eq. intros a.
    rewrite <- Hin. symmetry. by apply elem_of_list_to_map. }
  assert (Hex : forall b, Exists (fun e => AttribArray.Buf e.2 = b) order <->
                          exists k a, Mesh.Attribs m !! k = Some a /\ AttribArray.Buf a = b).
  { intros b. rewrite Exists_exists. split.
    - intros [[k a] [Hka Hb]]. exists k, a. split; [by apply Hin | done].
    - intros (k & a & Hka & Hb). exists (k, a). split; [by apply Hin | done]. }
  unfold Mesh.Clean, VertexArray.DeleteVertexArrays.
  cbn [Mesh.Attribs Mesh.set_Array]. rewrite Clean_range_eq.
  cbn [Mesh.Elements Mesh.set_Attribs Mesh.set_Array].
  destruct (Mesh.Elements m) as [e |] eqn:He;
    unfold ElementArray.Clean, bind, GL.DeleteBuffers, ret;
    eexists _, _, _; (split; [reflexivity |]);
    unfold GL.live;
    cbn [fst snd Mesh.Array Mesh.Attribs Mesh.Elements Mesh.set_Elements
         Mesh.set_Attribs Mesh.set_Array GL.buffers VertexArray.objects
         ElementArray.Buf ElementArray.set_Buf fmap option_fmap option_map];
    (split; [done |]); (split; [apply lookup_delete_eq |]);
    (split; [| split; [done |]; split; [| split]]).
  - intros k. rewrite (foldl_insert_lookup (AttribArray.set_Buf 0)) by done.
    rewrite Hmap. by destruct (Mesh.Attribs m !! k).
  - intros k a Hka [x Hx].
    destruct (decide (AttribArray.Buf a = ElementArray.Buf e)) as [Heq | Hne].
    + rewrite Heq, lookup_delete_eq in Hx. discriminate.
    + rewrite lookup_delete_ne in Hx by done.
      rewrite foldl_delete_lookup, decide_True in Hx; [discriminate |].
      apply Hex. eauto.
  - intros e' [= <-] [x Hx]. rewrite lookup_delete_eq in Hx. discriminate.
  - intros b Ha Hb. rewrite lookup_delete_ne by (by apply Hb).
    rewrite foldl_delete_lookup, decide_False; [done |].
    intros (k & a & Hka & Hba)%Hex. by apply (Ha k a).
  - intros k. rewrite (foldl_insert_lookup (AttribArray.set_Buf 0)) by done.
    rewrite Hmap. by destruct (Mesh.Attribs m !! k).
  - intros k a Hka [x Hx].
    rewrite foldl_delete_lookup, decide_True in Hx; [discriminate |].
    apply Hex. eauto.
  - intros e' [=].
  - intros b Ha Hb.
    rewrite foldl_delete_lookup, decide_False; [done |].
    intros (k & a & Hka & Hba)%Hex. by apply (Ha k a).
Qed.

Lemma Mesh_Clean_releases_witness :
  let a := AttribArray.mk "pos" 2 GL.FLOAT 1 8 8 in
  let e := ElementArray.mk GL.UNSIGNED_BYTE 2 6 6 in
  let m := Mesh.mk "quad" {["pos" := a]} (Some e) 3 GL.TRIANGLES 4 in
  let g := GL.mk 4 {[1 := 32; 2 := 6; 4 := 9]} [] in
  exists m' g' v',
    Mesh.Clean (map_to_list (Mesh.Attribs m)) (m, (g, VertexArray.init))
    = Ret tt (m', (g', v')) /\
    Mesh.Array m' = 0 /\
    ~ GL.live 1 g' /\ ~ GL.live 2 g' /\ GL.buffers g' !! 4 = Some 9.
Proof.
  intros a e m g.
  destruct (Mesh_Clean_releases (map_to_list (Mesh.Attribs m)) m g
              VertexArray.init ltac:(reflexivity))
    as (m' & g' & v' & H1 & H2 & _ & _ & _ & H6 & H7 & H8).
  exists m', g', v'.
  split; [exact H1 |]. split; [exact H2 |].
  split; [apply (H6 "pos" a); reflexivity |].
  split; [apply (H7 e); reflexivity |].
  rewrite H8; [reflexivity | |].
  - intros k x Hx. unfold m in Hx. cbn [Mesh.Attribs] in Hx.
    apply lookup_singleton_Some in Hx as [_ <-]. discriminate.
  - intros x [= <-]. discriminate.
Defined.

(** What [NewElementArray] does with a payload that passes its checks. *)
Lemma NewElementArray_valid t len cap usage g :
  index_type t = true -> len ≠ 0%N ->
  ElementArray.NewElementArray (Slice t len cap) usage g
  = Ret (Ok (ElementArray.mk (gl_type t) (GL.names g + 1) (Z.of_N len) (Z.of_N cap)))
        (GL.mk (GL.names g + 1)
           (if decide (GoInt.mul (Z.of_N len) (scalar_bytes t) < 0)
            then <[GL.names g + 1 := 0]> (GL.buffers g)
            else <[GL.names g + 1 := GoInt.mul (Z.of_N len) (scalar_bytes t)]>
                   (<[GL.names g + 1 := 0]> (GL.buffers g)))
           (GL.trace g ++
              [GL.CBufferData (GL.names g + 1)
                 (GoInt.mul (Z.of_N len) (scalar_bytes t)) usage])).
Proof.
  intros Hi Hl. unfold ElementArray.NewElementArray.
  rewrite decide_False by lia.
  unfold bind, GL.GenBuffers, GL.BufferData, ret.
  destruct t; try discriminate; simpl; rewrite lookup_insert_eq; reflexivity.
Qed.

(** [NewBox] on any name and driver. *)
Lemma NewBox_eq name g :
  MeshUtil.NewBox name g
  = Ret (Ok (Mesh.mk name
               {["pos" := AttribArray.mk "pos" 2 GL.FLOAT (GL.names g + 1) 8 8]}
               (Some (ElementArray.mk GL.UNSIGNED_BYTE (GL.names g + 1 + 1) 6 6))
               0 GL.TRIANGLES 4))
        (GL.mk (GL.names g + 1 + 1)
           (<[GL.names g + 1 + 1 := 6]>
              (<[GL.names g + 1 + 1 := 0]>
                 (<[GL.names g + 1 := 32]> (<[GL.names g + 1 := 0]> (GL.buffers g)))))
           ((GL.trace g ++ [GL.CBufferData (GL.names g + 1) 32 GL.STATIC_DRAW])
              ++ [GL.CBufferData (GL.names g + 1 + 1) 6 GL.STATIC_DRAW])).
Proof.
  unfold MeshUtil.NewBox, MeshUtil.MakeMesh, MeshUtil.MakeMesh_body,
    MeshUtil.then_, bind, MeshUtil.gl, MeshUtil.local, MeshUtil.return_on_err,
    MeshUtil.checkSlice, ret. cbn [is_nil is_slice negb].
  rewrite (NewAttribArray_valid "pos" 2 Float32 8%N 8%N GL.STATIC_DRAW g)
    by (try done; intros; discriminate).
  cbn [MeshUtil.assign_posarr MeshUtil.error_of MeshUtil.pointer_of MeshUtil.err
       MeshUtil.texcoords_range GL.names].
  unfold ret. cbv beta iota.
  rewrite (NewElementArray_valid Uint8 6%N 6%N GL.STATIC_DRAW) by done.
  reflexivity.
Qed.

(** X12. A box from end to end. On every driver, [NewBox] returns a mesh
    of 4 vertices with the single channel "pos" of 8 [float32] in groups
    of 2, an element array of 6 [uint8] indices and the primitive
    [GL_TRIANGLES], on two new live buffers. When the driver satisfied
    [GL_wf], [Clean] on that mesh leaves the buffers of the driver exactly
    as they were before [NewBox]. *)
Theorem NewBox_then_Clean name g v order :
  GL_wf g ->
  exists m g1,
    MeshUtil.NewBox name g = Ret (Ok m) g1 /\
    Mesh.Vertices m = 4 /\
    Mesh.Primitive m = GL.TRIANGLES /\
    (exists a, Mesh.Attribs m = {["pos" := a]} /\
               AttribArray.Len a = 8 /\ AttribArray.Dims a = 2 /\
               GL.live (AttribArray.Buf a) g1) /\
    (exists e, Mesh.Elements m = Some e /\ ElementArray.Len e = 6 /\
               ElementArray.Type_ e = GL.UNSIGNED_BYTE /\
               GL.live (ElementArray.Buf e) g1) /\
    (order ≡ₚ map_to_list (Mesh.Attribs m) ->
     exists m' g2 v',
       Mesh.Clean order (m, (g1, v)) = Ret tt (m', (g2, v')) /\
       GL.buffers g2 = GL.buffers g).
Proof.
  intros [Hn Hwf]. eexists _, _. split; [apply NewBox_eq |].
  split; [reflexivity |]. split; [reflexivity |].
  split; [| split].
  - eexists. split; [reflexivity |]. repeat split.
    unfold GL.live. cbn.
    rewrite !lookup_insert_ne by lia. rewrite lookup_insert_eq. eauto.
  - eexists. split; [reflexivity |]. repeat split.
    unfold GL.live. cbn. rewrite lookup_insert_eq. eauto.
  - cbn [Mesh.Attribs]. rewrite map_to_list_singleton.
    intros ->%Permutation_singleton_r.
    eexists _, _, _. split; [reflexivity |]. cbn.
    apply map_eq. intros b.
    assert (Hfresh : forall k, GL.names g < k -> GL.buffers g !! k = None).
    { intros k Hk. destruct (GL.buffers g !! k) eqn:E; [| done].
      assert (0 < k <= GL.names g) by (apply Hwf; eauto). lia. }
    destruct (decide (b = GL.names g + 1 + 1)) as [-> | H2].
    { rewrite lookup_delete_eq. symmetry. apply Hfresh. lia. }
    rewrite lookup_delete_ne by done.
    destruct (decide (b = GL.names g + 1)) as [-> | H1].
    { rewrite lookup_delete_eq. symmetry. apply Hfresh. lia. }
    rewrite lookup_delete_ne by done.
    by rewrite !lookup_insert_ne by done.
Qed.

Lemma NewBox_then_Clean_witness :
  exists m g1,
    MeshUtil.NewBox "box" GL.init = Ret (Ok m) g1 /\
    Mesh.Vertices m = 4 /\
    exists m' g2 v',
      Mesh.Clean (map_to_list (Mesh.Attribs m)) (m, (g1, VertexArray.init))
      = Ret tt (m', (g2, v')) /\
      GL.buffers g2 = GL.buffers GL.init.
Proof.
  destruct (NewBox_then_Clean "box" GL.init VertexArray.init
              [("pos", AttribArray.mk "pos" 2 GL.FLOAT 1 8 8)] GL_wf_init)
    as (m & g1 & Hbox & Hv & _ & (a & Ha & _) & _ & Hclean).
  exists m, g1. split; [exact Hbox |]. split; [exact Hv |].
  assert (Hm : Mesh.Attribs m = {["pos" := AttribArray.mk "pos" 2 GL.FLOAT 1 8 8]}).
  { rewrite NewBox_eq in Hbox. by injection Hbox as <- _. }
  rewrite Hm, map_to_list_singleton in *.
  apply Hclean. reflexivity.
Defined.

(** *** Binding a mesh *)

Lemma int32_small x : - 2 ^ 31 <= x < 2 ^ 31 -> GoInt.int32 x = x.
Proof.
  intros H. unfold GoInt.int32, GoInt.wrap. rewrite Z.mod_small; lia.
Qed.

Section MeshInit.

(** One channel bound into the bound object. *)
Lemma AttribArray_Init_eq k arr objs a o :
  objs !! a = Some o ->
  AttribArray.Init arr (slot_of (AttribArray.Name arr)) (VertexArray.mk objs a)
  = Ret tt (VertexArray.mk (<[a := init_step o (k, arr)]> objs) a).
Proof.
  intros Ho.
  unfold AttribArray.Init, bind, VertexArray.EnableVertexAttribArray,
    VertexArray.VertexAttribPointer, VertexArray.on_bound, ret, init_step.
  cbn [VertexArray.objects VertexArray.bound fst snd
       VertexArray.enabled VertexArray.pointers VertexArray.elements].
  rewrite Ho.
  destruct (decide (1 <= GoInt.int32 (AttribArray.Dims arr) <= 4)).
  - cbn [VertexArray.objects VertexArray.bound].
    rewrite lookup_insert_eq, insert_insert_eq. reflexivity.
  - reflexivity.
Qed.

(** The loop of [Init] on a bound object. *)
Lemma Init_range_eq order objs a o :
  objs !! a = Some o ->
  Mesh.Init_range order (VertexArray.mk objs a)
  = Ret tt (VertexArray.mk (<[a := foldl init_step o order]> objs) a).
Proof.
  revert objs o. induction order as [| [k arr] rest IH]; intros objs o Ho.
  - simpl. unfold ret. by rewrite insert_id.
  - cbn [Mesh.Init_range foldl]. unfold bind.
    change (default 0 (Mesh.attribMap !! AttribArray.Name arr))
      with (slot_of (AttribArray.Name arr)).
    rewrite (AttribArray_Init_eq k arr objs a o Ho).
    erewrite IH by apply lookup_insert_eq. by rewrite insert_insert_eq.
Qed.

Lemma init_step_elements order o :
  VertexArray.elements (foldl init_step o order) = VertexArray.elements o.
Proof.
  revert o. induction order as [| e rest IH]; intros o; [done |].
  cbn [foldl]. by rewrite IH.
Qed.

(** A slot no entry binds keeps its pointer. *)
Lemma init_step_other order o s :
  (forall e, e ∈ order -> slot_of (AttribArray.Name e.2) ≠ s) ->
  VertexArray.pointers (foldl init_step o order) !! s
  = VertexArray.pointers o !! s.
Proof.
  revert o. induction order as [| e rest IH]; intros o Hno; [done |].
  cbn [foldl]. rewrite IH by (intros e' He'; apply Hno; by right).
  unfold init_step. cbn [VertexArray.pointers].
  case_decide; [| done]. rewrite lookup_insert_ne; [done |].
  apply Hno. by left.
Qed.

Lemma init_step_enabled_mono order o s :
  s ∈ VertexArray.enabled o -> s ∈ VertexArray.enabled (foldl init_step o order).
Proof.
  revert o. induction order as [| e rest IH]; intros o Hs; [done |].
  cbn [foldl]. apply IH. unfold init_step. cbn. set_solver.
Qed.

(** The one entry that binds a slot enables it, and leaves its pointer
    there when the driver takes its size. *)
Lemma init_step_unique order o e :
  e ∈ order ->
  (forall e', e' ∈ order ->
              slot_of (AttribArray.Name e'.2) = slot_of (AttribArray.Name e.2) ->
              e' = e) ->
  NoDup order ->
  VertexArray.pointers (foldl init_step o order) !! slot_of (AttribArray.Name e.2)
  = (if decide (1 <= GoInt.int32 (AttribArray.Dims e.2) <= 4)
     then Some (VertexArray.mkPointer (AttribArray.Buf e.2)
                  (GoInt.int32 (AttribArray.Dims e.2)) (AttribArray.Type_ e.2))
     else VertexArray.pointers o !! slot_of (AttribArray.Name e.2)) /\
  slot_of (AttribArray.Name e.2) ∈ VertexArray.enabled (foldl init_step o order).
Proof.
  intros Hin Huniq Hnd. revert o.
  induction order as [| e0 rest IH]; intros o; [by inversion Hin |].
  apply NoDup_cons in Hnd as [Hnot Hnd]. cbn [foldl].
  apply elem_of_cons in Hin as [-> | Hin].
  - split.
    + rewrite init_step_other.
      * unfold init_step. cbn [VertexArray.pointers].
        case_decide; [apply lookup_insert_eq | done].
      * intros e' He' Heq. apply Hnot.
        rewrite <- (Huniq e'); [done | by right | done].
    + apply init_step_enabled_mono. unfold init_step. cbn. set_solver.
  - assert (Hne : e0 ≠ e) by (by intros ->).
    destruct (IH Hin) with (o := init_step o e0) as [Hp He].
    { intros e' He'. apply Huniq. by right. }
    { exact Hnd. }
    split; [| exact He]. rewrite Hp. case_decide; [done |].
    unfold init_step. cbn [VertexArray.pointers].
    case_decide; [| done]. rewrite lookup_insert_ne; [done |].
    intros Heq. apply Hne. apply Huniq; [by left | exact Heq].
Qed.

End MeshInit.

(** X13. [Init] binds each channel at the slot of its name. Take a
    driver whose name counter is not negative and in which the next name
    is not yet a vertex array object. With an element array, [Init]
    returns nil for every order in which the channels are visited; the
    mesh then has the new name as its vertex array handle, no vertex array
    is left bound, and the object of that name has the buffer of the
    element array as its element buffer. For every channel, the slot read
    from the table under the [Name] of its array, or slot 0, the slot of
    "pos", when the table does not hold that name, is enabled; when no
    other channel of the mesh has that slot, it points at the channel's
    buffer with its dimensions, as an [int32], and type if the dimensions
    are 1 to 4, and has no pointer if they are not, the driver refusing
    the size. Without an element array [Init] panics on the nil pointer,
    and no vertex array is left bound either. *)
Theorem Mesh_Init_slots order m g v :
  order ≡ₚ map_to_list (Mesh.Attribs m) ->
  0 <= GL.names g ->
  VertexArray.objects v !! (GL.names g + 1) = None ->
  (forall e, Mesh.Elements m = Some e ->
     exists m' g' v' o,
       Mesh.Init order (m, (g, v)) = Ret None (m', (g', v')) /\
       Mesh.Array m' = GL.names g + 1 /\
       VertexArray.bound v' = 0 /\
       VertexArray.objects v' !! Mesh.Array m' = Some o /\
       VertexArray.elements o = ElementArray.Buf e /\
       (forall k a,
           Mesh.Attribs m !! k = Some a ->
           slot_of (AttribArray.Name a) ∈ VertexArray.enabled o /\
           ((forall k' a', Mesh.Attribs m !! k' = Some a' ->
                           slot_of (AttribArray.Name a')
                           = slot_of (AttribArray.Name a) -> k' = k) ->
            VertexArray.pointers o !! slot_of (AttribArray.Name a)
            = if decide (1 <= GoInt.int32 (AttribArray.Dims a) <= 4)
              then Some (VertexArray.mkPointer (AttribArray.Buf a)
                           (GoInt.int32 (AttribArray.Dims a))
                           (AttribArray.Type_ a))
              else None))) /\
  (Mesh.Elements m = None ->
     exists m' g' v',
       Mesh.Init order (m, (g, v)) = Abort NilDereference (m', (g', v')) /\
       VertexArray.bound v' = 0).
Proof.
  intros Hperm Hnames Hfresh.
  assert (Hnd : NoDup order).
  { rewrite Hperm. apply NoDup_map_to_list. }
  assert (Hin : forall k a, (k, a) ∈ order <-> Mesh.Attribs m !! k = Some a).
  { intros k a. rewrite Hperm. apply elem_of_map_to_list. }
  assert (Hbody : forall oe,
    (VertexArray.BindVertexArray (GL.names g + 1) ;;;
     Mesh.Init_range order ;;; ElementArray.Init oe)%go v
    = match oe with
      | Some e =>
          Ret tt (VertexArray.mk
                    (<[GL.names g + 1 :=
                         VertexArray.mkObject
                           (VertexArray.enabled
                              (foldl init_step (VertexArray.mkObject ∅ ∅ 0) order))
                           (VertexArray.pointers
                              (foldl init_step (VertexArray.mkObject ∅ ∅ 0) order))
                           (ElementArray.Buf e)]> (VertexArray.objects v))
                    (GL.names g + 1))
      | None =>
          Abort NilDereference
            (VertexArray.mk
               (<[GL.names g + 1 :=
                    foldl init_step (VertexArray.mkObject ∅ ∅ 0) order]>
                  (VertexArray.objects v))
               (GL.names g + 1))
      end).
  { intros oe. unfold bind at 1. unfold VertexArray.BindVertexArray.
    rewrite decide_False by lia. rewrite Hfresh.
    unfold bind. erewrite Init_range_eq by apply lookup_insert_eq.
    rewrite insert_insert_eq.
    destruct oe as [e |]; [| reflexivity].
    unfold ElementArray.Init, VertexArray.BindElementBuffer, VertexArray.on_bound.
    cbn [VertexArray.objects VertexArray.bound].
    rewrite lookup_insert_eq, insert_insert_eq. reflexivity. }
  split.
  - intros e He. unfold Mesh.Init, GL.GenName.
    cbn [Mesh.Array Mesh.set_Array Mesh.Elements]. rewrite He, Hbody.
    eexists _, _, _, _. split; [reflexivity |].
    cbn [Mesh.Array Mesh.set_Array VertexArray.bound VertexArray.objects
         VertexArray.elements VertexArray.pointers VertexArray.enabled].
    rewrite decide_True by done.
    cbn [VertexArray.bound VertexArray.objects].
    split; [done |]. split; [done |].
    split; [apply lookup_insert_eq |]. split; [done |].
    intros k a Hka.
    cbn [VertexArray.pointers VertexArray.enabled].
    split.
    + apply Hin in Hka. clear -Hka.
      revert Hka. generalize (VertexArray.mkObject ∅ ∅ 0).
      induction order as [| e0 rest IH]; intros o Hka;
        [by apply elem_of_nil in Hka |].
      cbn [foldl]. apply elem_of_cons in Hka as [<- | Hka]; [| by apply IH].
      apply init_step_enabled_mono. unfold init_step. cbn. set_solver.
    + intros Huniq.
      pose proof (init_step_unique order (VertexArray.mkObject ∅ ∅ 0) (k, a)) as Hu.
      cbn [fst snd VertexArray.pointers] in Hu.
      rewrite lookup_empty in Hu. apply Hu; [by apply Hin | | done].
      intros [k' a'] Hin' Hslot. cbn [fst snd] in Hslot.
      apply Hin in Hin'.
      assert (k' = k) as -> by (by eapply Huniq).
      f_equal. congruence.
  - intros He. unfold Mesh.Init, GL.GenName.
    cbn [Mesh.Array Mesh.set_Array Mesh.Elements]. rewrite He, Hbody.
    eexists _, _, _. split; [reflexivity |].
    cbn. by rewrite decide_True.
Qed.

Lemma Mesh_Init_slots_witness :
  let b := AttribArray.mk "color" 4 GL.FLOAT 2 16 16 in
  let c := AttribArray.mk "tangent" 5 GL.FLOAT 3 20 20 in
  let e := ElementArray.mk GL.UNSIGNED_BYTE 4 6 6 in
  let m := Mesh.mk "quad" {["color" := b; "tangent" := c]} (Some e)
                   0 GL.TRIANGLES 4 in
  let g := GL.mk 4 {[2 := 64; 3 := 80; 4 := 6]} [] in
  exists m' g' v' o,
    Mesh.Init (map_to_list (Mesh.Attribs m)) (m, (g, VertexArray.init))
    = Ret None (m', (g', v')) /\
    Mesh.Array m' = 5 /\
    VertexArray.objects v' !! 5 = Some o /\
    VertexArray.elements o = 4 /\
    VertexArray.pointers o !! 1 = Some (VertexArray.mkPointer 2 4 GL.FLOAT) /\
    0 ∈ VertexArray.enabled o /\
    VertexArray.pointers o !! 0 = None.
Proof.
  intros b c e m g.
  assert (Huniq : forall k a,
            map_Forall (fun k' a' => slot_of (AttribArray.Name a')
                                     = slot_of (AttribArray.Name a) -> k' = k)
                       (Mesh.Attribs m) ->
            forall k' a', Mesh.Attribs m !! k' = Some a' ->
                          slot_of (AttribArray.Name a')
                          = slot_of (AttribArray.Name a) -> k' = k).
  { intros k a H k' a' Ha'. exact (H k' a' Ha'). }
  destruct (Mesh_Init_slots (map_to_list (Mesh.Attribs m)) m g VertexArray.init
              ltac:(reflexivity) ltac:(vm_compute; discriminate)
              ltac:(reflexivity)) as [Hinit _].
  destruct (Hinit e eq_refl) as (m' & g' & v' & o & H1 & H2 & _ & H4 & H5 & H6).
  exists m', g', v', o.
  split; [exact H1 |]. split; [exact H2 |].
  split; [rewrite H2 in H4; exact H4 |]. split; [exact H5 |].
  split; [| split].
  - apply (H6 "color" b eq_refl). apply Huniq.
    apply (bool_decide_unpack
             (map_Forall (fun k' (a' : AttribArray.t) =>
                            slot_of (AttribArray.Name a')
                            = slot_of (AttribArray.Name b) -> k' = "color")
                         (Mesh.Attribs m))).
    vm_compute. exact I.
  - apply (H6 "tangent" c eq_refl).
  - apply (H6 "tangent" c eq_refl). apply Huniq.
    apply (bool_decide_unpack
             (map_Forall (fun k' (a' : AttribArray.t) =>
                            slot_of (AttribArray.Name a')
                            = slot_of (AttribArray.Name c) -> k' = "tangent")
                         (Mesh.Attribs m))).
    vm_compute. exact I.
Defined.

(** ** meshutil.go *)

(** X14. Normals without colors. With valid positions, no colors and any
    normals, [MakeMesh] panics on the test that the color data, not the
    normal data, is a slice; no error is set when the deferred function
    runs, so the position buffer, the first buffer of the call, stays
    live. *)
Theorem MakeMesh_normals_without_colors
    name dims prim tp lp cp nrms texcoords elems g :
  supported tp = true -> lp ≠ 0%N -> dims ≠ 0 ->
  (is_vector tp = true -> dims = components tp) ->
  GoInt.rem (scalar_count tp lp) dims = 0 ->
  nrms ≠ Nil ->
  exists g',
    MeshUtil.MakeMesh name dims prim (Slice tp lp cp) Nil nrms texcoords elems g
    = Abort (PanicError (MakeMeshNotSlice name "normal")) g' /\
    GL.live (GL.names g + 1) g'.
Proof.
  intros Hp1 Hp2 Hp3 Hp4 Hp5 Hn.
  assert (Hnil : is_nil nrms = false) by (by destruct nrms).
  unfold MeshUtil.MakeMesh, MeshUtil.MakeMesh_body, MeshUtil.then_, bind,
    MeshUtil.gl, MeshUtil.local, MeshUtil.return_on_err, MeshUtil.checkSlice,
    ret, throw. cbn [is_nil is_slice negb]. rewrite Hnil. cbn [negb].
  rewrite (NewAttribArray_valid "pos" dims tp lp cp GL.STATIC_DRAW g) by done.
  cbn [MeshUtil.assign_posarr MeshUtil.error_of MeshUtil.pointer_of MeshUtil.err
       MeshUtil.MakeMesh_deferred].
  eexists. split; [reflexivity |].
  unfold GL.live. cbn. case_decide; rewrite lookup_insert_eq; eauto.
Qed.

Lemma MakeMesh_normals_without_colors_witness :
  exists g',
    MeshUtil.MakeMesh "mesh" 2 GL.TRIANGLES (Slice Float32 8 8) Nil
      (Slice Float32 12 12) [] (Slice Uint8 6 6) GL.init
    = Abort (PanicError (MakeMeshNotSlice "mesh" "normal")) g' /\
    GL.live 1 g'.
Proof.
  apply (MakeMesh_normals_without_colors "mesh" 2 GL.TRIANGLES Float32 8%N 8%N
           (Slice Float32 12 12) [] (Slice Uint8 6 6) GL.init);
    [reflexivity | discriminate | discriminate | discriminate | reflexivity
    | discriminate].
Defined.

Section Holds.
Context {S : Type}.

Lemma holds_bind {A B} (P : S -> Prop) (m : M S A) (Q : A -> S -> Prop)
    (k : A -> M S B) (R : B -> S -> Prop) :
  holds P m Q -> (forall a, holds (Q a) (k a) R) -> holds P (bind m k) R.
Proof.
  intros Hm Hk s Hs b s'. unfold bind.
  destruct (m s) as [a s1 | |] eqn:E; [| done | done].
  intros Hb. exact (Hk a s1 (Hm s Hs a s1 E) b s' Hb).
Qed.

Lemma holds_then {R} (P : S -> Prop) (s1 : M S (option R)) (Q : S -> Prop)
    (s2 : M S R) (F : R -> S -> Prop) :
  holds P s1 (fun r s => match r with Some x => F x s | None => Q s end) ->
  holds Q s2 F -> holds P (MeshUtil.then_ s1 s2) F.
Proof.
  intros H1 H2. unfold MeshUtil.then_. eapply holds_bind; [exact H1 |].
  intros [x |]; [| exact H2].
  intros s Hs a s'. unfold ret. by intros [= <- <-].
Qed.

Lemma holds_weaken {A} (P P' : S -> Prop) (m : M S A) (Q : A -> S -> Prop) :
  (forall s, P' s -> P s) -> holds P m Q -> holds P' m Q.
Proof. intros HP Hm s Hs. apply Hm, HP, Hs. Qed.

Lemma holds_throw {A} (P : S -> Prop) p (Q : A -> S -> Prop) :
  holds P (throw p) Q.
Proof. by intros s _ a s'. Qed.

Lemma holds_checkSlice (P : S -> Prop) name attr data :
  holds P (MeshUtil.checkSlice name attr data) (fun _ s => P s).
Proof.
  unfold MeshUtil.checkSlice. destruct (is_slice data); [| apply holds_throw].
  intros s Hs a s'. unfold ret. by intros [= <- <-].
Qed.

End Holds.

Section MakeMeshError.
Variable g0 : GL.state.

Lemma elem_of_frame_bufs b f :
  b ∈ frame_bufs f <->
  (exists a, MeshUtil.posarr f = Some a /\ AttribArray.Buf a = b) \/
  (exists a, MeshUtil.colarr f = Some a /\ AttribArray.Buf a = b) \/
  (exists a, MeshUtil.nrmarr f = Some a /\ AttribArray.Buf a = b) \/
  (exists j a, MeshUtil.texcarr f !! j = Some (Some a) /\ AttribArray.Buf a = b) \/
  (exists a, MeshUtil.elemarr f = Some a /\ ElementArray.Buf a = b).
Proof.
  unfold frame_bufs. rewrite !elem_of_app, !list_elem_of_omap.
  setoid_rewrite elem_of_cons. setoid_rewrite elem_of_cons.
  setoid_rewrite elem_of_cons. setoid_rewrite elem_of_nil.
  setoid_rewrite list_elem_of_lookup.
  split.
  - intros [(x & Hx & Hb) | [(x & (j & Hj) & Hb) | (x & Hx & Hb)]].
    + destruct x as [a |]; [| done]. injection Hb as <-.
      destruct Hx as [<- | [<- | [<- | []]]]; eauto 10.
    + destruct x as [a |]; [| done]. injection Hb as <-. eauto 10.
    + destruct x as [a |]; [| done]. injection Hb as <-.
      destruct Hx as [<- | []]. eauto 10.
  - intros [(a & Ha & <-) | [(a & Ha & <-) | [(a & Ha & <-)
           | [(j & a & Ha & <-) | (a & Ha & <-)]]]].
    + left. exists (Some a). rewrite Ha. eauto.
    + left. exists (Some a). rewrite Ha. eauto.
    + left. exists (Some a). rewrite Ha. eauto 6.
    + right; left. exists (Some a). eauto.
    + right; right. exists (Some a). rewrite Ha. eauto.
Qed.

Lemma create_stmt {X} (new : M GL.state (result X)) (bufof : X -> Z)
    (assign : result X -> MeshUtil.frame -> MeshUtil.frame)
    (P Q : MeshUtil.frame -> Prop) :
  creates new bufof ->
  (forall r f, P f ->
     MeshUtil.err (assign r f) = MeshUtil.error_of r /\
     (forall b, b ∈ frame_bufs (assign r f) <->
                (exists x, r = Ok x /\ b = bufof x) \/ b ∈ frame_bufs f) /\
     Q (assign r f)) ->
  holds (fun s => MakeMesh_inv g0 s /\ P s.1)
    (r <- MeshUtil.gl new ;; MeshUtil.local (assign r) ;;;
     MeshUtil.return_on_err)%go
    (fun r s => match r with
                | Some x => MakeMesh_final g0 x s
                | None => MakeMesh_inv g0 s /\ Q s.1
                end).
Proof.
  intros Hnew Has [f g] [Hinv HP] r s'.
  unfold bind, MeshUtil.gl, MeshUtil.local, MeshUtil.return_on_err.
  specialize (Hnew g). destruct (new g) as [x g1 | |]; [| done | done].
  destruct (Has x f HP) as (He & Hb & HQ). rewrite He.
  destruct Hinv as (H1 & H2 & H3). cbn [fst snd] in *.
  destruct x as [x | e]; cbn [MeshUtil.error_of].
  - intros [= <- <-]. split; [| done].
    destruct Hnew as (Hbuf & Hn & Hoth).
    split; [| split]; cbn [fst snd].
    + lia.
    + intros b [(x' & Hx' & ->) | Hin]%Hb.
      * injection Hx' as <-. lia.
      * apply H2 in Hin. lia.
    + intros b Hnin. rewrite Hoth.
      * apply H3. intros Hin. apply Hnin, Hb. by right.
      * intros ->. apply Hnin, Hb. left. exists x. by rewrite Hbuf.
  - intros [= <- <-]. subst g1. split; [| by intros ? [= <-]].
    split; [| split]; cbn [fst snd].
    + done.
    + intros b [(x' & Hx' & _) | Hin]%Hb; [done | by apply H2].
    + intros b Hnin. apply H3. intros Hin. apply Hnin, Hb. by right.
Qed.

Lemma NewAttribArray_creates name dims data usage :
  creates (AttribArray.NewAttribArray name dims data usage) AttribArray.Buf.
Proof.
  intros g. unfold AttribArray.NewAttribArray.
  destruct data as [| t len cap |]; try done.
  case_decide; [done |].
  destruct t; simpl; try done;
    repeat (case_decide; try done);
    unfold bind, GL.GenBuffers, GL.BufferData, ret; simpl;
    rewrite lookup_insert_eq; (repeat split; try done);
    intros b Hb; case_decide; rewrite ?lookup_insert_ne by done;
    by rewrite ?lookup_insert_ne by done.
Qed.

Lemma NewElementArray_creates data usage :
  creates (ElementArray.NewElementArray data usage) ElementArray.Buf.
Proof.
  intros g. unfold ElementArray.NewElementArray.
  destruct data as [| t len cap |]; try done.
  case_decide; [done |].
  destruct t; simpl; try done;
    unfold bind, GL.GenBuffers, GL.BufferData, ret; simpl;
    rewrite lookup_insert_eq; (repeat split; try done);
    intros b Hb; case_decide; rewrite ?lookup_insert_ne by done;
    by rewrite ?lookup_insert_ne by done.
Qed.

Lemma holds_ret_None {R} (P Q : MeshUtil.locals -> Prop) (F : R -> MeshUtil.locals -> Prop) :
  (forall s, P s -> Q s) ->
  holds P (ret None)
    (fun r s => match r with Some x => F x s | None => Q s end).
Proof. intros H s Hs a s'. unfold ret. intros [= <- <-]. by apply H. Qed.

(** The loop over [texcoords], entered at index [i] with the entries
    from [i] on still nil. *)
Lemma texcoords_range_holds name (Q : MeshUtil.frame -> Prop) texcoords :
  (forall r i f, Q f -> Q (MeshUtil.assign_texcarr i r f)) ->
  forall i,
  holds (fun s => MakeMesh_inv g0 s /\ Q s.1 /\
                  drop i (MeshUtil.texcarr s.1)
                  = replicate (length texcoords) None)
    (MeshUtil.texcoords_range name i texcoords)
    (fun r s => match r with
                | Some x => MakeMesh_final g0 x s
                | None => MakeMesh_inv g0 s /\ Q s.1
                end).
Proof.
  intros HQ. induction texcoords as [| texcoord rest IH]; intros i;
    cbn [MeshUtil.texcoords_range].
  - apply holds_ret_None. tauto.
  - eapply holds_bind; [apply holds_checkSlice |]. intros u.
    set (P := fun f : MeshUtil.frame =>
                Q f /\ drop i (MeshUtil.texcarr f)
                       = replicate (length (texcoord :: rest)) None).
    set (Q' := fun f : MeshUtil.frame =>
                 Q f /\ drop (S i) (MeshUtil.texcarr f)
                        = replicate (length rest) None).
    pose proof (create_stmt
      (AttribArray.NewAttribArray ("texcoord" +:+ pretty i) 2 texcoord
         GL.STATIC_DRAW)
      AttribArray.Buf (MeshUtil.assign_texcarr i) P Q'
      (NewAttribArray_creates _ _ _ _)) as Hc.
    assert (Hst : holds (fun s => MakeMesh_inv g0 s /\ P s.1)
      (r <- MeshUtil.gl (AttribArray.NewAttribArray
                           ("texcoord" +:+ pretty i) 2 texcoord GL.STATIC_DRAW) ;;
       MeshUtil.local (MeshUtil.assign_texcarr i r) ;;;
       MeshUtil.return_on_err (R := Mesh.t))%go
      (fun r s => match r with
                  | Some x => MakeMesh_final g0 x s
                  | None => MakeMesh_inv g0 s /\ Q' s.1
                  end)).
    { apply Hc. intros r f [HQf Hdrop].
      assert (Hi : MeshUtil.texcarr f !! i = Some None).
      { pose proof (f_equal (fun l => l !! 0%nat) Hdrop) as H0.
        cbn in H0. rewrite lookup_drop, Nat.add_0_r in H0. exact H0. }
      assert (Hlen : (i < length (MeshUtil.texcarr f))%nat)
        by (by eapply lookup_lt_Some).
      split; [done |]. split.
      - intros b. rewrite !elem_of_frame_bufs.
        cbn [MeshUtil.assign_texcarr MeshUtil.posarr MeshUtil.colarr
             MeshUtil.nrmarr MeshUtil.texcarr MeshUtil.elemarr].
        split.
        + intros [H | [H | [H | [(j & a & Hj & Hb) | H]]]]; eauto 10.
          apply list_lookup_insert_Some in Hj
            as [(-> & Hr & _) | (Hne & Hj)].
          * left. exists a. destruct r; [| done]. simpl in Hr.
            injection Hr as ->. done.
          * right. eauto 10.
        + intros [(x & -> & ->) | [H | [H | [H | [(j & a & Hj & Hb) | H]]]]];
            eauto 10.
          * do 3 right. left. exists i, x. split; [| done].
            by apply list_lookup_insert_eq.
          * do 3 right. left. exists j, a. split; [| done].
            rewrite list_lookup_insert_ne; [done |].
            intros ->. congruence.
      - split; [by apply HQ |].
        cbn [MeshUtil.assign_texcarr MeshUtil.texcarr].
        rewrite drop_insert_lt by lia.
        rewrite <- (Nat.add_1_r i), <- drop_drop, Hdrop. done. }
    intros [f g] Hpre r s'. unfold bind.
    destruct (MeshUtil.gl _ (f, g)) as [x s1 | |] eqn:E1; [| done | done].
    destruct (MeshUtil.local _ s1) as [u2 s2 | |] eqn:E2; [| done | done].
    destruct (MeshUtil.return_on_err s2) as [failed s3 | |] eqn:E3;
      [| done | done].
    assert (Hs3 : match failed with
                  | Some x => MakeMesh_final g0 x s3
                  | None => MakeMesh_inv g0 s3 /\ Q' s3.1
                  end).
    { apply (Hst (f, g) Hpre). unfold bind. by rewrite E1, E2. }
    destruct failed as [x3 |].
    + unfold ret. by intros [= <- <-].
    + intros Hrest. apply (IH (S i) s3); [| exact Hrest].
      destruct Hs3 as (? & ? & ?). done.
Qed.

(** [if err = mesh.AddArrays(...); err != nil { return nil, err }] *)
Lemma AddArrays_stmt_holds (arrs : MeshUtil.frame -> list (option AttribArray.t)) :
  holds (MakeMesh_inv g0)
    (f <- get ;;
     e <- MeshUtil.on_mesh (Mesh.AddArrays (arrs (fst f))) ;;
     MeshUtil.local (MeshUtil.set_err e) ;;;
     MeshUtil.return_on_err)%go
    (fun r s => match r with
                | Some x => MakeMesh_final g0 x s
                | None => MakeMesh_inv g0 s
                end).
Proof.
  intros [f g] Hinv r s'.
  unfold bind, get, MeshUtil.on_mesh, MeshUtil.local, MeshUtil.return_on_err.
  cbn [fst].
  destruct (Mesh.AddArrays (arrs f) (MeshUtil.mesh f)) as [e m' | |];
    [| done | done].
  cbn [MeshUtil.set_err MeshUtil.err].
  destruct e as [e |]; intros [= <- <-].
  - split; [exact Hinv | by intros ? [= <-]].
  - exact Hinv.
Qed.

Lemma MakeMesh_body_holds name dims prim pos cols texcoords elems :
  holds (fun s => MakeMesh_inv g0 s /\
                  MeshUtil.posarr s.1 = None /\ MeshUtil.colarr s.1 = None /\
                  MeshUtil.elemarr s.1 = None /\
                  MeshUtil.texcarr s.1 = replicate (length texcoords) None)
    (MeshUtil.MakeMesh_body name dims prim pos cols Nil texcoords elems)
    (MakeMesh_final g0).
Proof.
  unfold MeshUtil.MakeMesh_body. cbn [is_nil negb].
  apply holds_then with
    (Q := fun s => MakeMesh_inv g0 s /\
                   (MeshUtil.colarr s.1 = None /\ MeshUtil.elemarr s.1 = None /\
                    MeshUtil.texcarr s.1 = replicate (length texcoords) None)).
  { destruct (is_nil pos); [apply holds_throw |].
    eapply holds_bind; [apply holds_checkSlice |]. intros u.
    apply (create_stmt
             (AttribArray.NewAttribArray "pos" dims pos GL.STATIC_DRAW)
             AttribArray.Buf MeshUtil.assign_posarr
             (fun f => MeshUtil.posarr f = None /\ MeshUtil.colarr f = None /\
                       MeshUtil.elemarr f = None /\
                       MeshUtil.texcarr f = replicate (length texcoords) None)
             (fun f => MeshUtil.colarr f = None /\ MeshUtil.elemarr f = None /\
                       MeshUtil.texcarr f = replicate (length texcoords) None));
      [apply NewAttribArray_creates |].
    intros r f (Hp & Hc & He & Ht). split; [done |]. split; [| done].
    intros b. rewrite !elem_of_frame_bufs.
    cbn [MeshUtil.assign_posarr MeshUtil.posarr MeshUtil.colarr
         MeshUtil.nrmarr MeshUtil.texcarr MeshUtil.elemarr].
    rewrite Hp. destruct r; cbn [MeshUtil.pointer_of]; (split; intros Hor; decompose [or ex and] Hor; clear Hor; simplify_eq; eauto 12). }
  apply holds_then with
    (Q := fun s => MakeMesh_inv g0 s /\
                   (MeshUtil.elemarr s.1 = None /\
                    MeshUtil.texcarr s.1 = replicate (length texcoords) None)).
  { destruct (negb (is_nil cols)); [| apply holds_ret_None; tauto].
    eapply holds_bind; [apply holds_checkSlice |]. intros u.
    apply (create_stmt
             (AttribArray.NewAttribArray "color" 4 cols GL.STATIC_DRAW)
             AttribArray.Buf MeshUtil.assign_colarr
             (fun f => MeshUtil.colarr f = None /\ MeshUtil.elemarr f = None /\
                       MeshUtil.texcarr f = replicate (length texcoords) None)
             (fun f => MeshUtil.elemarr f = None /\
                       MeshUtil.texcarr f = replicate (length texcoords) None));
      [apply NewAttribArray_creates |].
    intros r f (Hc & He & Ht). split; [done |]. split; [| done].
    intros b. rewrite !elem_of_frame_bufs.
    cbn [MeshUtil.assign_colarr MeshUtil.posarr MeshUtil.colarr
         MeshUtil.nrmarr MeshUtil.texcarr MeshUtil.elemarr].
    rewrite Hc. destruct r; cbn [MeshUtil.pointer_of]; (split; intros Hor; decompose [or ex and] Hor; clear Hor; simplify_eq; eauto 12). }
  apply holds_then with
    (Q := fun s => MakeMesh_inv g0 s /\
                   (MeshUtil.elemarr s.1 = None /\
                    MeshUtil.texcarr s.1 = replicate (length texcoords) None)).
  { apply holds_ret_None. tauto. }
  apply holds_then with
    (Q := fun s => MakeMesh_inv g0 s /\ MeshUtil.elemarr s.1 = None).
  { eapply holds_weaken;
      [| apply (texcoords_range_holds name
                  (fun f => MeshUtil.elemarr f = None) texcoords); done].
    intros s (Hinv & He & Ht). split; [done |]. split; [done |].
    by rewrite Ht. }
  apply holds_then with (Q := MakeMesh_inv g0).
  { destruct (is_nil elems); [apply holds_throw |].
    eapply holds_bind; [apply holds_checkSlice |]. intros u.
    pose proof (create_stmt
                  (ElementArray.NewElementArray elems GL.STATIC_DRAW)
                  ElementArray.Buf MeshUtil.assign_elemarr
                  (fun f => MeshUtil.elemarr f = None) (fun _ => True)
                  (NewElementArray_creates _ _)) as Hc.
    intros s Hs r s' Hrun.
    assert (Hr : match r with
                 | Some x => MakeMesh_final g0 x s'
                 | None => MakeMesh_inv g0 s' /\ True
                 end).
    { refine (Hc _ s Hs r s' Hrun).
      intros r' f He. split; [done |]. split; [| done].
      intros b. rewrite !elem_of_frame_bufs.
      cbn [MeshUtil.assign_elemarr MeshUtil.posarr MeshUtil.colarr
           MeshUtil.nrmarr MeshUtil.texcarr MeshUtil.elemarr].
      rewrite He. destruct r'; cbn [MeshUtil.pointer_of]; (split; intros Hor; decompose [or ex and] Hor; clear Hor; simplify_eq; eauto 12). }
    destruct r; tauto. }
  apply holds_then with (Q := MakeMesh_inv g0).
  { apply (AddArrays_stmt_holds
             (fun f => [MeshUtil.posarr f; MeshUtil.colarr f; MeshUtil.nrmarr f])). }
  apply holds_then with (Q := MakeMesh_inv g0).
  { apply (AddArrays_stmt_holds MeshUtil.texcarr). }
  intros [f g] Hinv r s'. unfold bind, get, MeshUtil.local, ret. cbn [fst].
  intros [= <- <-]. split; [exact Hinv | done].
Qed.

End MakeMeshError.

Lemma delete_all_lookup (l : list Z) (bs : gmap Z Z) b :
  delete_all bs l !! b = if decide (b ∈ l) then None else bs !! b.
Proof.
  unfold delete_all. revert bs.
  induction l as [| x l IH]; intros bs; cbn [foldl].
  - rewrite decide_False; [done | apply not_elem_of_nil].
  - rewrite IH. destruct (decide (b ∈ l)) as [Hin | Hnin].
    + by rewrite decide_True by (by right).
    + destruct (decide (b = x)) as [-> | Hne].
      * rewrite decide_True by (by left). apply lookup_delete_eq.
      * rewrite lookup_delete_ne by done.
        rewrite decide_False; [done |].
        intros [? | ?]%elem_of_cons; done.
Qed.

Lemma delete_all_app (bs : gmap Z Z) l1 l2 :
  delete_all bs (l1 ++ l2) = delete_all (delete_all bs l1) l2.
Proof. unfold delete_all. apply foldl_app. Qed.

Lemma MeshUtil_Clean_range_eq arrs g :
  MeshUtil.Clean_range arrs g
  = Ret tt (GL.mk (GL.names g)
              (delete_all (GL.buffers g) (omap (fmap AttribArray.Buf) arrs))
              (GL.trace g)).
Proof.
  revert g. induction arrs as [| arr rest IH]; intros g;
    cbn [MeshUtil.Clean_range].
  - by destruct g.
  - unfold bind. destruct arr as [a |]; cbn.
    + rewrite IH. done.
    + rewrite IH. done.
Qed.

(** The deferred function with an error set: every array in the
    variables is cleaned. *)
Lemma MakeMesh_deferred_err f g e :
  MeshUtil.err f = Some e ->
  MeshUtil.MakeMesh_deferred (f, g)
  = Ret tt (f, GL.mk (GL.names g) (delete_all (GL.buffers g) (frame_bufs f))
                 (GL.trace g)).
Proof.
  intros He. unfold MeshUtil.MakeMesh_deferred. rewrite He.
  unfold MeshUtil.gl, bind, frame_bufs. rewrite !delete_all_app.
  destruct (MeshUtil.posarr f), (MeshUtil.colarr f), (MeshUtil.nrmarr f);
    cbn; rewrite MeshUtil_Clean_range_eq; cbn;
    by destruct (MeshUtil.elemarr f).
Qed.

(** X15. An error return of [MakeMesh] releases what the call created.
    Called without normals on a driver whose live buffers all bear names
    handed out so far, a call that returns an error leaves exactly the
    buffers that were live before it: every buffer created on the way has
    been deleted by the deferred function. *)
Theorem MakeMesh_error_releases
    name dims prim pos cols texcoords elems g e g' :
  GL_wf g ->
  MeshUtil.MakeMesh name dims prim pos cols Nil texcoords elems g
  = Ret (Err e) g' ->
  GL.buffers g' = GL.buffers g /\ GL.names g <= GL.names g'.
Proof.
  intros [_ Hwf]. unfold MeshUtil.MakeMesh.
  set (f0 := MeshUtil.mkFrame None None None
               (replicate (length texcoords) None) None (Mesh.NewMesh name) None).
  pose proof (MakeMesh_body_holds g name dims prim pos cols texcoords elems
                (f0, g)) as Hbody.
  destruct (MeshUtil.MakeMesh_body _ _ _ _ _ _ _ _ (f0, g))
    as [r [f g1] | p [f g1] |]; [| | done].
  - assert (Hfin : MakeMesh_final g r (f, g1)).
    { apply Hbody; [| done]. split; [| done].
      split; [cbn; lia |]. split; [| done].
      intros b Hb. exfalso. apply elem_of_frame_bufs in Hb.
      cbn in Hb.
      destruct Hb as [(? & ? & _) | [(? & ? & _) | [(? & ? & _)
                     | [(j & a & Hj & _) | (? & ? & _)]]]]; try done.
      apply lookup_replicate in Hj as [? _]. done. }
    destruct Hfin as [(Hn & Hin & Hout) Herr]. cbn [fst snd] in *.
    destruct (MeshUtil.MakeMesh_deferred (f, g1)) as [u [f' g2] | p [f' g2] |] eqn:Ed;
      [| done | done].
    intros [= -> ->].
    rewrite (MakeMesh_deferred_err f g1 e (Herr e eq_refl)) in Ed.
    injection Ed as _ _ <-. cbn [GL.buffers GL.names].
    split; [| done].
    apply map_eq. intros b. rewrite delete_all_lookup.
    case_decide as Hb.
    + apply Hin in Hb. destruct (GL.buffers g !! b) eqn:E; [| done].
      assert (0 < b <= GL.names g) by (apply Hwf; eauto). lia.
    + by apply Hout.
  - by destruct (MeshUtil.MakeMesh_deferred (f, g1)) as [u [f' g2] | p' [f' g2] |].
Qed.

Lemma MakeMesh_error_releases_witness :
  exists e g',
    MeshUtil.MakeMesh "mesh" 2 GL.TRIANGLES (Slice Float32 8 8)
      (Slice Float32 6 6) Nil [] (Slice Uint8 6 6) GL.init = Ret (Err e) g' /\
    GL.buffers g' = GL.buffers GL.init /\ GL.names GL.init <= GL.names g'.
Proof.
  eexists _, _. split; [vm_compute; reflexivity |].
  refine (MakeMesh_error_releases "mesh" 2 GL.TRIANGLES (Slice Float32 8 8)
            (Slice Float32 6 6) [] (Slice Uint8 6 6) GL.init _ _ _ _);
    [apply GL_wf_init | vm_compute; reflexivity].
Defined.

(** ** material.go *)

(** With a zero byte right behind a name that has none, the driver reads
    the name. *)
Lemma c_string_zero_behind name rest :
  Material.c_string name = name ->
  Material.c_string (name +:+ String Ascii.zero rest) = name.
Proof.
  induction name as [| c name IH]; simpl.
  - done.
  - case_decide; [discriminate |]. intros [= Hname]. f_equal. by apply IH.
Qed.

Section MaterialFacts.
Variable loc_of : Z -> string -> Z.

Lemma InitUniformLocs_range_outcome uniforms mat :
  match Material.InitUniformLocs_range loc_of uniforms mat with
  | Ret r mat' =>
      Material.set_UniformLocs (Material.UniformLocs mat) mat' = mat /\
      (forall n, n ∉ uniforms.*1 ->
                 Material.UniformLocs mat' !! n = Material.UniformLocs mat !! n) /\
      (forall n l, Material.UniformLocs mat' !! n = Some l ->
                   Material.UniformLocs mat !! n = Some l \/
                   exists behind, (n, behind) ∈ uniforms /\
                                  l = answer loc_of mat (n, behind) /\ l ≠ -1) /\
      (r = None ->
       forall n, n ∈ uniforms.*1 ->
         exists behind, (n, behind) ∈ uniforms /\
           Material.UniformLocs mat' !! n = Some (answer loc_of mat (n, behind)) /\
           answer loc_of mat (n, behind) ≠ -1)
  | Abort p mat' => p = IndexOutOfRange /\ "" ∈ uniforms.*1
  | Diverge => False
  end.
Proof.
  revert mat. induction uniforms as [| [name behind] rest IH]; intros mat;
    cbn [Material.InitUniformLocs_range fmap list_fmap fst].
  - unfold ret. split; [by destruct mat |]. split; [done |].
    split; [by left |]. intros _ n Hn. by apply elem_of_nil in Hn.
  - case_decide as Hname; [subst; split; [done | by left] |].
    fold (answer loc_of mat (name, behind)).
    case_decide as Hloc.
    + split; [by destruct mat |]. split; [done |]. split; [by left | done].
    + specialize (IH (Material.set_UniformLocs
                        (<[name := answer loc_of mat (name, behind)]>
                           (Material.UniformLocs mat)) mat)).
      destruct (Material.InitUniformLocs_range _ _ _) as [r mat' | p mat' |];
        [| destruct IH; split; [done | by right] | done].
      cbn [Material.set_UniformLocs Material.Prog Material.UniformLocs] in IH.
      destruct IH as (Hsame & Hout & Hin & Hall).
      split; [| split; [| split]].
      * destruct mat, mat'. cbn in *. by injection Hsame as -> -> -> -> ->.
      * intros n Hn. apply not_elem_of_cons in Hn as [Hne Hn].
        rewrite Hout by done. by rewrite lookup_insert_ne.
      * intros n l Hl. apply Hin in Hl as [Hl | (b & Hb & Hlb & Hl1)].
        -- destruct (decide (name = n)) as [-> | Hne].
           ++ rewrite lookup_insert_eq in Hl. injection Hl as <-.
              right. exists behind. split; [by left | done].
           ++ rewrite lookup_insert_ne in Hl by done. by left.
        -- right. exists b. split; [by right | done].
      * intros -> n Hn. destruct (decide (n ∈ rest.*1)) as [Hr | Hr].
        -- destruct (Hall eq_refl n Hr) as (b & Hb & Hlb & Hne).
           exists b. split; [by right | done].
        -- apply elem_of_cons in Hn as [-> | ?]; [| done].
           exists behind. split; [by left |].
           rewrite Hout by done. split; [apply lookup_insert_eq | done].
Qed.

(** The loop on names for which the driver resolves what it reads, and on
    such names followed by one for which it does not. *)
Lemma InitUniformLocs_range_registered pre mat :
  Forall (fun e => e.1 ≠ "" /\ answer loc_of mat e ≠ -1) pre ->
  Material.InitUniformLocs_range loc_of pre mat
  = Ret None (registered loc_of pre mat) /\
  forall bad post,
    bad.1 ≠ "" -> answer loc_of mat bad = -1 ->
    Material.InitUniformLocs_range loc_of (pre ++ bad :: post) mat
    = Ret (Some (MaterialNoUniform (Material.Name mat) bad.1))
          (registered loc_of pre mat).
Proof.
  revert mat. induction pre as [| [n b] pre IH]; intros mat Hpre.
  - split.
    + unfold registered. by destruct mat.
    + intros [name behind] post Hn Hl. cbn in *.
      rewrite decide_False by done.
      fold (answer loc_of mat (name, behind)).
      rewrite decide_True by done. unfold registered. by destruct mat.
  - apply Forall_cons in Hpre as [[Hn Hl] Hpre]. cbn [fst] in Hn.
    destruct (IH (Material.set_UniformLocs
                    (<[n := answer loc_of mat (n, b)]>
                       (Material.UniformLocs mat)) mat) Hpre) as [IH1 IH2].
    split.
    + cbn [Material.InitUniformLocs_range].
      rewrite decide_False by done.
      fold (answer loc_of mat (n, b)). rewrite decide_False by done.
      exact IH1.
    + intros bad post Hname Hloc.
      cbn [app Material.InitUniformLocs_range].
      rewrite decide_False by done.
      fold (answer loc_of mat (n, b)). rewrite decide_False by done.
      exact (IH2 bad post Hname Hloc).
Qed.

End MaterialFacts.

(** X16. What [InitUniformLocs] can do. It never diverges and panics only
    on an empty name, with a program set. When it returns, with or without
    an error, the material differs from before in its table of uniform
    locations at most: keys that are not among the names keep what they
    had, and an entry that is new is a name of the call with a location
    the driver gave, under the program, for the bytes it read at that
    name, the name and what lay behind it up to the first zero; that
    location is not -1. Returning nil, it has a program and has registered
    every name of the call in this way; without a program it returns the
    error for that and changes nothing, whatever the names are. *)
Theorem InitUniformLocs_outcome loc_of uniforms mat :
  match Material.InitUniformLocs loc_of uniforms mat with
  | Ret r mat' =>
      Material.set_UniformLocs (Material.UniformLocs mat) mat' = mat /\
      (forall n, n ∉ uniforms.*1 ->
                 Material.UniformLocs mat' !! n = Material.UniformLocs mat !! n) /\
      (forall n l, Material.UniformLocs mat' !! n = Some l ->
                   Material.UniformLocs mat !! n = Some l \/
                   exists behind,
                     (n, behind) ∈ uniforms /\
                     l = loc_of (Material.Prog mat)
                           (Material.c_string (n +:+ behind)) /\
                     l ≠ -1) /\
      (r = None ->
       Material.Prog mat ≠ 0 /\
       forall n, n ∈ uniforms.*1 ->
         exists behind,
           (n, behind) ∈ uniforms /\
           Material.UniformLocs mat' !! n
           = Some (loc_of (Material.Prog mat)
                     (Material.c_string (n +:+ behind))) /\
           loc_of (Material.Prog mat) (Material.c_string (n +:+ behind)) ≠ -1) /\
      (Material.Prog mat = 0 ->
       r = Some (MaterialNoProgram (Material.Name mat)) /\ mat' = mat)
  | Abort p mat' =>
      p = IndexOutOfRange /\ "" ∈ uniforms.*1 /\ Material.Prog mat ≠ 0
  | Diverge => False
  end.
Proof.
  unfold Material.InitUniformLocs. case_decide as Hp.
  - split; [by destruct mat |]. split; [done |]. split; [by left |].
    split; [done | done].
  - pose proof (InitUniformLocs_range_outcome loc_of uniforms mat) as H.
    destruct (Material.InitUniformLocs_range _ _ _) as [r mat' | p mat' |];
      [| tauto | done].
    destruct H as (H1 & H2 & H3 & H4). repeat split; try done.
    by apply H4.
Qed.

(** X17. An error of [InitUniformLocs] keeps what was registered before
    it. On a material with a program, take names that are not empty and
    for which the driver resolves what it reads, the name and the bytes
    behind it up to the first zero: all are registered, in order, and the
    call returns nil. When such names are followed by a name for which the
    driver does not resolve what it reads, the call returns the no-uniform
    error for that name and the material keeps the registrations of the
    names before it, the names after it never being looked up. *)
Theorem InitUniformLocs_keeps_earlier loc_of pre mat :
  Material.Prog mat ≠ 0 ->
  Forall (fun e => e.1 ≠ "" /\ answer loc_of mat e ≠ -1) pre ->
  Material.InitUniformLocs loc_of pre mat
  = Ret None (registered loc_of pre mat) /\
  (forall n, n ∈ pre.*1 ->
     exists behind,
       (n, behind) ∈ pre /\
       Material.UniformLocs (registered loc_of pre mat) !! n
       = Some (answer loc_of mat (n, behind))) /\
  forall bad post,
    bad.1 ≠ "" -> answer loc_of mat bad = -1 ->
    Material.InitUniformLocs loc_of (pre ++ bad :: post) mat
    = Ret (Some (MaterialNoUniform (Material.Name mat) bad.1))
          (registered loc_of pre mat).
Proof.
  intros Hp Hpre. unfold Material.InitUniformLocs.
  rewrite !decide_False by done.
  destruct (InitUniformLocs_range_registered loc_of pre mat Hpre) as [H1 H2].
  split; [exact H1 |]. split.
  - intros n Hn.
    pose proof (InitUniformLocs_range_outcome loc_of pre mat) as H.
    rewrite H1 in H. destruct H as (_ & _ & _ & H).
    destruct (H eq_refl n Hn) as (b & Hb & Hl & _). eauto.
  - intros bad post Hn Hl. rewrite decide_False by done. by apply H2.
Qed.

Lemma InitUniformLocs_keeps_earlier_witness :
  let loc_of := fun (_ : Z) (n : string) =>
                  if decide (n = "mvp") then 0
                  else if decide (n = "tint") then 3 else -1 in
  let mat := Material.SetProgram 7 (Material.NewMaterial "mat") in
  exists mat',
    Material.InitUniformLocs loc_of
      [("mvp", ""); ("tint", String Ascii.zero "xy"); ("mvp", "Q"); ("", "")] mat
    = Ret (Some (MaterialNoUniform "mat" "mvp")) mat' /\
    Material.UniformLocs mat' !! "mvp" = Some 0 /\
    Material.UniformLocs mat' !! "tint" = Some 3.
Proof.
  intros loc_of mat.
  destruct (InitUniformLocs_keeps_earlier loc_of
              [("mvp", ""); ("tint", String Ascii.zero "xy")] mat)
    as (_ & _ & Herr).
  - discriminate.
  - apply List.Forall_cons; [split; discriminate |].
    apply List.Forall_cons; [split; discriminate |]. apply List.Forall_nil.
  - exists (registered loc_of [("mvp", ""); ("tint", String Ascii.zero "xy")] mat).
    split; [| split; reflexivity].
    apply (Herr ("mvp", "Q") [("", "")]); [discriminate | reflexivity].
Defined.

(** X18. Registered uniforms are all set. When the driver answers a
    location query with -1 or a location, and [InitUniformLocs] returned
    nil for a list of names, [DrawUniforms] skips no uniform whose name is
    in that list: its loop makes one call per uniform, in order, at the
    location the material holds for the name, which is not negative and is
    what the driver gave for the bytes it read at that name. *)
Theorem InitUniformLocs_then_DrawUniforms loc_of names mat mat' uniforms g :
  (forall p n, -1 <= loc_of p n) ->
  Material.InitUniformLocs loc_of names mat = Ret None mat' ->
  (forall e, e ∈ uniforms -> e.1 ∈ names.*1) ->
  Mesh.DrawUniforms_range mat' uniforms g
  = set_all (fun n => default 0 (Material.UniformLocs mat' !! n)) uniforms g /\
  forall e, e ∈ uniforms ->
    exists behind,
      (e.1, behind) ∈ names /\
      Material.UniformLocs mat' !! e.1
      = Some (loc_of (Material.Prog mat) (Material.c_string (e.1 +:+ behind))) /\
      0 <= loc_of (Material.Prog mat) (Material.c_string (e.1 +:+ behind)).
Proof.
  intros Hloc Hinit Hin.
  assert (Hreg : forall n, n ∈ names.*1 ->
            exists behind,
              (n, behind) ∈ names /\
              Material.UniformLocs mat' !! n
              = Some (loc_of (Material.Prog mat)
                        (Material.c_string (n +:+ behind))) /\
              0 <= loc_of (Material.Prog mat) (Material.c_string (n +:+ behind))).
  { unfold Material.InitUniformLocs in Hinit.
    case_decide; [discriminate |].
    pose proof (InitUniformLocs_range_outcome loc_of names mat) as H'.
    rewrite Hinit in H'. destruct H' as (_ & _ & _ & Hall).
    intros n Hn. destruct (Hall eq_refl n Hn) as (b & Hb & Hl & Hne).
    exists b. split; [done |]. split; [exact Hl |].
    unfold answer in Hne. cbn [fst snd] in Hne.
    pose proof (Hloc (Material.Prog mat) (Material.c_string (n +:+ b))). lia. }
  split.
  - revert g. induction uniforms as [| [n v] rest IH]; intros g; [done |].
    cbn [Mesh.DrawUniforms_range set_all].
    destruct (Hreg n) as (b & _ & Hn & Hge); [apply (Hin (n, v)); by left |].
    rewrite Hn. cbn [default from_option]. unfold id.
    rewrite decide_False by lia.
    unfold bind. destruct (Mesh.set_uniform _ v g) as [u g1 | |]; [| done | done].
    apply IH. intros e He. apply Hin. by right.
  - intros e He. apply Hreg. by apply Hin.
Qed.

Lemma InitUniformLocs_then_DrawUniforms_witness :
  let loc_of := fun (_ : Z) (n : string) =>
                  if decide (n = "mvp") then 0
                  else if decide (n = "tint") then 3 else -1 in
  let mat := Material.SetProgram 7 (Material.NewMaterial "mat") in
  exists mat',
    Material.InitUniformLocs loc_of
      [("mvp", ""); ("tint", String Ascii.zero "xy")] mat = Ret None mat' /\
    Mesh.DrawUniforms_range mat' [("tint", UFloat32 1); ("mvp", UMat4 [])] GL.init
    = Ret tt (GL.mk 0 ∅ [GL.CUniform1f 3 1; GL.CUniformMatrix4fv 0 []]).
Proof.
  intros loc_of mat. eexists. split; [vm_compute; reflexivity |].
  refine (eq_trans
            (proj1 (InitUniformLocs_then_DrawUniforms loc_of
                      [("mvp", ""); ("tint", String Ascii.zero "xy")] mat _
                      [("tint", UFloat32 1); ("mvp", UMat4 [])] GL.init _ _ _)) _).
  - intros p n. unfold loc_of. repeat case_decide; lia.
  - vm_compute. reflexivity.
  - intros e He. apply elem_of_cons in He as [-> | He]; [right; by left |].
    apply elem_of_cons in He as [-> | He]; [by left |].
    by apply elem_of_nil in He.
  - reflexivity.
Defined.

Section TextureUnits.
Import TextureUnit.
Variable units : Z.
Hypothesis units_fit : TEXTURE0 + units <= 2 ^ 32.

Lemma Use_textures_binds texs : forall i s,
  0 <= i -> i + Z.of_nat (length texs) <= units ->
  exists s1,
    Material.Use_textures units i (Some <$> texs) s = Ret tt s1 /\
    (texs = [] -> s1 = s) /\
    (texs ≠ [] -> active s1 = TEXTURE0 + i + Z.of_nat (length texs) - 1) /\
    (forall j tex, texs !! j = Some tex ->
       bound s1 !! (TEXTURE0 + i + Z.of_nat j) = Some (Texture.Tex tex)) /\
    (forall u, u < TEXTURE0 + i -> bound s1 !! u = bound s !! u).
Proof.
  induction texs as [| tex rest IH]; intros i s Hi Hn.
  - exists s. repeat split; try done.
  - cbn [fmap list_fmap Material.Use_textures length] in *.
    unfold Texture.Use, ActiveTexture, BindTexture, uint32.
    unfold TEXTURE0 in *.
    rewrite (Z.mod_small i) by lia.
    rewrite (Z.mod_small (33984 + i)) by lia.
    cbv beta iota delta [bind].
    rewrite !decide_True by lia. cbn [active bound].
    destruct (IH (i + 1) (mk (33984 + i)
                            (<[33984 + i := Texture.Tex tex]> (bound s))))
      as (s1 & Hrun & Hnil & Hact & Hb & Hlow); [lia | lia |].
    cbn [list_fmap] in Hrun. rewrite Hrun.
    exists s1. split; [done |]. split; [done |]. split; [| split].
    + intros _. destruct rest as [| tex' rest'].
      * rewrite Hnil by done. cbn. lia.
      * rewrite Hact by done. cbn [length]. lia.
    + intros [| j] tex0 Hj.
      * injection Hj as <-. rewrite Hlow by lia. cbn [bound].
        rewrite Z.add_0_r. apply lookup_insert_eq.
      * cbn in Hj. apply Hb in Hj.
        replace (33984 + i + Z.of_nat (S j)) with (33984 + (i + 1) + Z.of_nat j)
          by lia. exact Hj.
    + intros u Hu. rewrite Hlow by lia. cbn [bound].
      apply lookup_insert_ne. lia.
Qed.

Lemma Release_textures_eq (textures : list (option Texture.t)) s :
  textures ≠ [] ->
  Material.Release_textures textures s
  = Ret tt (mk (active s) (<[active s := 0]> (bound s))).
Proof.
  revert s. induction textures as [| tex rest IH]; intros s Hne; [done |].
  cbn [Material.Release_textures]. unfold bind, Texture.Release, BindTexture.
  destruct rest as [| tex' rest'].
  - done.
  - rewrite IH by done. cbn [active bound]. by rewrite insert_insert_eq.
Qed.

End TextureUnits.

(** X19. [Release] unbinds one texture unit only. Take a material with
    at least one texture, none nil, and no more textures than the
    implementation has units. The loop of [Use] binds texture number j on
    unit j and leaves the last unit active; the loop of [Release] then
    binds 0 once per texture, each time on that last unit: afterwards the
    last unit has no texture, and every unit before it still has the
    texture [Use] bound on it. *)
Theorem Release_unbinds_last_unit units texs s :
  TextureUnit.TEXTURE0 + units <= 2 ^ 32 ->
  texs ≠ [] -> Z.of_nat (length texs) <= units ->
  exists s1 s2,
    Material.Use_textures units 0 (Some <$> texs) s = Ret tt s1 /\
    Material.Release_textures (Some <$> texs) s1 = Ret tt s2 /\
    (forall j tex, texs !! j = Some tex ->
       TextureUnit.bound s1 !! (TextureUnit.TEXTURE0 + Z.of_nat j)
       = Some (Texture.Tex tex)) /\
    TextureUnit.active s2
    = TextureUnit.TEXTURE0 + Z.of_nat (length texs) - 1 /\
    TextureUnit.bound s2 !! TextureUnit.active s2 = Some 0 /\
    (forall j tex, texs !! j = Some tex -> (S j < length texs)%nat ->
       TextureUnit.bound s2 !! (TextureUnit.TEXTURE0 + Z.of_nat j)
       = Some (Texture.Tex tex)).
Proof.
  intros Hfit Hne Hn.
  destruct (Use_textures_binds units Hfit texs 0 s)
    as (s1 & Hrun & _ & Hact & Hb & _); [lia | lia |].
  specialize (Hact Hne).
  exists s1, (TextureUnit.mk (TextureUnit.active s1)
                (<[TextureUnit.active s1 := 0]> (TextureUnit.bound s1))).
  split; [exact Hrun |]. split; [| split; [| split; [| split]]].
  - apply Release_textures_eq. by destruct texs.
  - intros j tex Hj. apply Hb in Hj. by rewrite Z.add_0_r in Hj.
  - cbn. lia.
  - cbn. apply lookup_insert_eq.
  - intros j tex Hj Hlt. cbn [TextureUnit.bound].
    rewrite lookup_insert_ne by lia.
    apply Hb in Hj. by rewrite Z.add_0_r in Hj.
Qed.

Lemma Release_unbinds_last_unit_witness :
  let texs := [Texture.mk "a" 5 6 4 4; Texture.mk "b" 7 8 4 4] in
  exists s1 s2,
    Material.Use_textures 8 0 (Some <$> texs) TextureUnit.init = Ret tt s1 /\
    Material.Release_textures (Some <$> texs) s1 = Ret tt s2 /\
    TextureUnit.bound s2 !! 33984 = Some 5 /\
    TextureUnit.bound s2 !! 33985 = Some 0.
Proof.
  intros texs.
  destruct (Release_unbinds_last_unit 8 texs TextureUnit.init)
    as (s1 & s2 & H1 & H2 & _ & Hact & H0 & Hkeep);
    [vm_compute; discriminate | discriminate | vm_compute; discriminate |].
  exists s1, s2. split; [exact H1 |]. split; [exact H2 |]. split.
  - apply (Hkeep 0%nat (Texture.mk "a" 5 6 4 4)); [reflexivity | cbn; lia].
  - rewrite Hact in H0. exact H0.
Defined.

(** ** Textures, from creation to upload *)

Lemma LoadRGBA_eq t img level g i :
  Image.Pix img ≠ [] ->
  Texture.LoadRGBA t img level (g, i)
  = Ret None
      (GL.mk (GL.names g)
         (match GL.buffers g !! Texture.Buf t with
          | Some _ => <[Texture.Buf t := Z.of_nat (length (Image.Pix img))]>
                        (GL.buffers g)
          | None => GL.buffers g
          end)
         (GL.trace g ++ [GL.CBufferData (Texture.Buf t)
                           (Z.of_nat (length (Image.Pix img))) GL.STREAM_DRAW]),
       if decide (0 <= level /\
                  0 <= GoInt.int32 (Image.Dx (Image.Bounds img)) /\
                  0 <= GoInt.int32 (Image.Dy (Image.Bounds img)))
       then <[(Texture.Tex t, level) :=
                TexImage.mkImage (GoInt.int32 (Image.Dx (Image.Bounds img)))
                  (GoInt.int32 (Image.Dy (Image.Bounds img)))
                  (take (Z.to_nat (4 * GoInt.int32 (Image.Dx (Image.Bounds img))
                                     * GoInt.int32 (Image.Dy (Image.Bounds img))))
                        (Image.Pix img))]> i
       else i).
Proof.
  intros Hp. unfold Texture.LoadRGBA.
  destruct (Image.Pix img) as [| x pix] eqn:E; [done |].
  unfold bind, Texture.on_images, Texture.on_buffers, TexImage.TexImage2D,
    GL.BufferData, ret.
  rewrite (decide_False (P := Z.of_nat (length (x :: pix)) < 0)) by lia.
  by destruct (GL.buffers g !! Texture.Buf t).
Qed.

(** X20. What [LoadImage] touches. It returns no error but the one of
    its size test, and then has changed nothing; it panics only on an image
    of the tested size that has no pixels, and then has changed nothing
    either. When it returns nil the image had the size of the level, no
    name was handed out, every buffer but the texture's own is as it was,
    that buffer, if live, has a store of as many bytes as the image has,
    and no image of another texture or of another level was touched. *)
Theorem LoadImage_outcome t img level g i :
  let bounds := Image.bounds_of img in
  let fits := Image.Dx bounds = Texture.shr_level (Texture.W t) level /\
              Image.Dy bounds = Texture.shr_level (Texture.H t) level in
  match Texture.LoadImage t img level (g, i) with
  | Ret (Some e) s' => e = TextureInvalidSize /\ s' = (g, i) /\ ~ fits
  | Ret None (g', i') =>
      fits /\ pixels_of img ≠ [] /\
      GL.names g' = GL.names g /\
      (forall b, b ≠ Texture.Buf t -> GL.buffers g' !! b = GL.buffers g !! b) /\
      (GL.live (Texture.Buf t) g ->
       GL.buffers g' !! Texture.Buf t = Some (Z.of_nat (length (pixels_of img)))) /\
      (forall k, k ≠ (Texture.Tex t, level) -> i' !! k = i !! k)
  | Abort p s' =>
      p = IndexOutOfRange /\ s' = (g, i) /\ fits /\ pixels_of img = []
  | Diverge => False
  end.
Proof.
  intros bounds fits. unfold Texture.LoadImage. fold bounds.
  case_decide as Hsize.
  { unfold ret. split; [done |]. split; [done |]. unfold fits. tauto. }
  assert (Hfits : fits).
  { unfold fits.
    destruct (decide (Image.Dx bounds = Texture.shr_level (Texture.W t) level));
      destruct (decide (Image.Dy bounds = Texture.shr_level (Texture.H t) level));
      tauto. }
  assert (Hgen : forall rgba, Image.Pix rgba = pixels_of img ->
    match Texture.LoadRGBA t rgba level (g, i) with
    | Ret (Some e) s' => e = TextureInvalidSize /\ s' = (g, i) /\ ~ fits
    | Ret None (g', i') =>
        fits /\ pixels_of img ≠ [] /\
        GL.names g' = GL.names g /\
        (forall b, b ≠ Texture.Buf t -> GL.buffers g' !! b = GL.buffers g !! b) /\
        (GL.live (Texture.Buf t) g ->
         GL.buffers g' !! Texture.Buf t = Some (Z.of_nat (length (pixels_of img)))) /\
        (forall k, k ≠ (Texture.Tex t, level) -> i' !! k = i !! k)
    | Abort p s' =>
        p = IndexOutOfRange /\ s' = (g, i) /\ fits /\ pixels_of img = []
    | Diverge => False
    end).
  { intros rgba Hpix.
    destruct (decide (Image.Pix rgba = [])) as [Hnil | Hne].
    - unfold Texture.LoadRGBA. rewrite Hnil. unfold throw.
      rewrite <- Hpix, Hnil. done.
    - rewrite LoadRGBA_eq by done. rewrite <- Hpix.
      split; [done |]. split; [done |]. split; [done |]. split; [| split].
      + intros b Hb. cbn [GL.buffers].
        destruct (GL.buffers g !! Texture.Buf t); [| done].
        by rewrite lookup_insert_ne.
      + intros [x Hx]. cbn [GL.buffers]. rewrite Hx. apply lookup_insert_eq.
      + intros k Hk. case_decide; [| done].
        by apply (lookup_insert_ne (M := gmap (Z * Z))). }
  destruct img as [rgba | b drawn]; apply Hgen; reflexivity.
Qed.

Lemma Pix_rgba_of img : Image.Pix (rgba_of img) = pixels_of img.
Proof. by destruct img. Qed.

(** At level 0 a texture of the size of the image passes the size test. *)
Lemma LoadImage_level0 t img s :
  Texture.W t = Image.Dx (Image.bounds_of img) ->
  Texture.H t = Image.Dy (Image.bounds_of img) ->
  Texture.LoadImage t img 0 s = Texture.LoadRGBA t (rgba_of img) 0 s.
Proof.
  intros Hw Hh. unfold Texture.LoadImage, Texture.shr_level.
  rewrite (decide_True (P := 0 <= 0 < 64)) by lia.
  rewrite !Z.shiftr_0_r, Hw, Hh. rewrite decide_False by tauto.
  by destruct img.
Qed.

(** X21. [NewTextureFromImage] never returns an error. The texture is
    created with the size of the image and loaded at level 0, so the size
    test of [LoadImage] cannot fail and the branch that cleans up is never
    taken. On an image with pixels the call returns the texture, under the
    next two names, its buffer live with a store as long as the pixels; on
    an image without pixels it panics, and the buffer it generated stays
    live. *)
Theorem NewTextureFromImage_never_errors name img g i :
  match Texture.NewTextureFromImage name img (g, i) with
  | Ret r (g', i') =>
      pixels_of img ≠ [] /\
      r = Ok (Texture.mk name (GL.names g + 1) (GL.names g + 2)
                (Image.Dx (Image.bounds_of img)) (Image.Dy (Image.bounds_of img))) /\
      GL.names g' = GL.names g + 2 /\
      GL.buffers g'
      = <[GL.names g + 2 := Z.of_nat (length (pixels_of img))]> (GL.buffers g)
  | Abort p (g', i') =>
      pixels_of img = [] /\ p = IndexOutOfRange /\ i' = i /\
      GL.buffers g' = <[GL.names g + 2 := 0]> (GL.buffers g)
  | Diverge => False
  end.
Proof.
  unfold Texture.NewTextureFromImage. unfold bind at 1.
  unfold Texture.NewTexture, bind, Texture.on_buffers, GL.GenName,
    GL.GenBuffers, ret.
  cbn [GL.names GL.buffers GL.trace].
  replace (GL.names g + 1 + 1) with (GL.names g + 2) by lia.
  rewrite LoadImage_level0 by done.
  rewrite <- Pix_rgba_of.
  destruct (decide (Image.Pix (rgba_of img) = [])) as [Hnil | Hne].
  - unfold Texture.LoadRGBA. rewrite Hnil. unfold throw. done.
  - rewrite LoadRGBA_eq by done. cbn [Texture.Buf GL.buffers GL.names].
    rewrite lookup_insert_eq.
    split; [done |]. split; [done |]. split; [done |].
    by rewrite insert_insert_eq.
Qed.

(** ** The manager: walking the parents *)

Section ManagerWalk.
Import Manager.

Lemma GetMesh_chain fuel am name w :
  GetMesh fuel am name w
  = lookup_chain (fun m => Meshes m !! name) None fuel am w.
Proof.
  revert am. induction fuel as [| fuel IH]; intros am; [reflexivity |].
  simpl. unfold bind, deref, ret. simpl.
  destruct (managers w !! am) as [mgr |]; [| reflexivity].
  destruct (Meshes mgr !! name); [reflexivity |].
  destruct (Parent mgr); [apply IH | reflexivity].
Qed.

Lemma GetTexture_chain fuel am name w :
  GetTexture fuel am name w
  = lookup_chain (fun m => Textures m !! name) None fuel am w.
Proof.
  revert am. induction fuel as [| fuel IH]; intros am; [reflexivity |].
  simpl. unfold bind, deref, ret. simpl.
  destruct (managers w !! am) as [mgr |]; [| reflexivity].
  destruct (Textures mgr !! name); [reflexivity |].
  destruct (Parent mgr); [apply IH | reflexivity].
Qed.

Context {V : Type} (local : t -> option V) (zero : V).

(** On parents that lead round in a circle, past managers without the
    entry, the walk has no end. *)
Lemma lookup_chain_cycle w (cyc : loc -> Prop) :
  (forall a, cyc a ->
     exists mgr p, managers w !! a = Some mgr /\ local mgr = None /\
                   Parent mgr = Some p /\ cyc p) ->
  forall fuel am, cyc am -> lookup_chain local zero fuel am w = Diverge.
Proof.
  intros Hcyc. induction fuel as [| fuel IH]; intros am Ham; [done |].
  destruct (Hcyc am Ham) as (mgr & p & Hm & Hl & Hp & Hcp).
  simpl. rewrite Hm, Hl, Hp. by apply IH.
Qed.

(** The walk stops at the first manager of the path that has the entry,
    or at the root. *)
Lemma lookup_chain_path w path : forall am b bm k,
  misses local w am path b ->
  managers w !! b = Some bm ->
  (local bm = None -> Parent bm = None) ->
  lookup_chain local zero (S (length path + k)) am w
  = Ret (match local bm with Some v => (v, true) | None => (zero, false) end) w.
Proof.
  induction path as [| p rest IH]; intros am b bm k Hpath Hb Hroot.
  - simpl in Hpath. subst am. simpl. rewrite Hb.
    destruct (local bm) eqn:E; [done |]. by rewrite (Hroot eq_refl).
  - destruct Hpath as (mgr & Hm & Hl & Hp & Hrest).
    rewrite (lookup_chain_parent local zero _ am w mgr p Hm Hl Hp).
    by apply (IH p b bm k).
Qed.

(** A manager at an address that was free changes no walk that
    returned. *)
Lemma lookup_chain_fresh w c x :
  managers w !! c = None ->
  forall fuel am r,
    lookup_chain local zero fuel am w = Ret r w ->
    lookup_chain local zero fuel am (set_managers (<[c := x]> (managers w)) w)
    = Ret r (set_managers (<[c := x]> (managers w)) w).
Proof.
  intros Hc. induction fuel as [| fuel IH]; intros am r; [discriminate |].
  simpl. destruct (managers w !! am) as [mgr |] eqn:Hm; [| discriminate].
  assert (am ≠ c) by (intros ->; congruence).
  rewrite lookup_insert_ne by done. rewrite Hm.
  destruct (local mgr); [by intros [= <-] |].
  destruct (Parent mgr); [apply IH | by intros [= <-]].
Qed.

End ManagerWalk.

(** X22. A circle of parents. When the parent pointers from a manager
    lead round in a circle, a [Get] for a name, or stage set, that no
    manager on the circle holds never returns: it follows the parents
    without end, whatever the depth allowed. This holds of all five
    [Get] methods. *)
Theorem Get_on_cycle w (cyc : loc -> Prop) fuel am :
  (forall a, cyc a ->
     exists mgr p, Manager.managers w !! a = Some mgr /\
                   Manager.Parent mgr = Some p /\ cyc p) ->
  cyc am ->
  (forall name,
     (forall a mgr, cyc a -> Manager.managers w !! a = Some mgr ->
                    Manager.Materials mgr !! name = None) ->
     Manager.GetMaterial fuel am name w = Diverge) /\
  (forall name,
     (forall a mgr, cyc a -> Manager.managers w !! a = Some mgr ->
                    Manager.Meshes mgr !! name = None) ->
     Manager.GetMesh fuel am name w = Diverge) /\
  (forall name,
     (forall a mgr, cyc a -> Manager.managers w !! a = Some mgr ->
                    Manager.Shaders mgr !! name = None) ->
     Manager.GetShader fuel am name w = Diverge) /\
  (forall set,
     (forall a mgr, cyc a -> Manager.managers w !! a = Some mgr ->
                    Manager.Programs mgr !! set = None) ->
     Manager.GetProgram fuel am set w = Diverge) /\
  (forall name,
     (forall a mgr, cyc a -> Manager.managers w !! a = Some mgr ->
                    Manager.Textures mgr !! name = None) ->
     Manager.GetTexture fuel am name w = Diverge).
Proof.
  intros Hcyc Ham.
  assert (Hgen : forall V (local : Manager.t -> option V) zero,
             (forall a mgr, cyc a -> Manager.managers w !! a = Some mgr ->
                            local mgr = None) ->
             lookup_chain local zero fuel am w = Diverge).
  { intros V local zero Hnone.
    apply (lookup_chain_cycle local zero w cyc); [| exact Ham].
    intros a Ha. destruct (Hcyc a Ha) as (mgr & p & Hm & Hp & Hcp).
    exists mgr, p. split; [done |]. split; [exact (Hnone a mgr Ha Hm) |]. done. }
  split; [| split; [| split; [| split]]].
  - intros name H. rewrite GetMaterial_chain. by apply Hgen.
  - intros name H. rewrite GetMesh_chain. by apply Hgen.
  - intros name H. rewrite GetShader_chain. by apply Hgen.
  - intros set H. rewrite GetProgram_chain. by apply Hgen.
  - intros name H. rewrite GetTexture_chain. by apply Hgen.
Qed.

Lemma Get_on_cycle_witness :
  let w := Manager.mkWorld
             {[1%positive := Manager.mk ∅ ∅ ∅ ∅ {["a.png" := Some 3%positive]}
                               (Some 2%positive);
               2%positive := Manager.mk ∅ ∅ ∅ ∅ ∅ (Some 1%positive)]}
             ∅ ∅ ∅ GL.init in
  Manager.GetTexture 50 2%positive "b.png" w = Diverge /\
  Manager.GetTexture 50 2%positive "a.png" w = Ret (Some 3%positive, true) w.
Proof.
  intros w. split; [| reflexivity].
  refine (proj2 (proj2 (proj2 (proj2
            (Get_on_cycle w (fun a => a = 1%positive \/ a = 2%positive)
               50 2%positive _ _)))) "b.png" _).
  - intros a [-> | ->].
    + exists (Manager.mk ∅ ∅ ∅ ∅ {["a.png" := Some 3%positive]} (Some 2%positive)),
        2%positive. split; [reflexivity |]. split; [reflexivity | by right].
    + exists (Manager.mk ∅ ∅ ∅ ∅ ∅ (Some 1%positive)), 1%positive.
      split; [reflexivity |]. split; [reflexivity | by left].
  - by right.
  - intros a mgr [-> | ->] Hm; vm_compute in Hm; injection Hm as <-; reflexivity.
Defined.

(** X23. The nearest holder answers. When the parents lead from a manager
    along a path to a manager [b], no manager before [b] holding the
    entry asked for, and [b] holds it or is the root, every [Get] method
    that is allowed at least the depth of the path returns what [b] holds
    with [true], or the zero value with [false] when [b] is a root that
    holds nothing; the store is left as it was. *)
Theorem Get_nearest_holder w am path b bm k :
  Manager.managers w !! b = Some bm ->
  (forall name,
     misses (fun m => Manager.Materials m !! name) w am path b ->
     (Manager.Materials bm !! name = None -> Manager.Parent bm = None) ->
     Manager.GetMaterial (S (length path + k)) am name w
     = Ret (match Manager.Materials bm !! name with
            | Some p => (p, true) | None => (None, false) end) w) /\
  (forall name,
     misses (fun m => Manager.Meshes m !! name) w am path b ->
     (Manager.Meshes bm !! name = None -> Manager.Parent bm = None) ->
     Manager.GetMesh (S (length path + k)) am name w
     = Ret (match Manager.Meshes bm !! name with
            | Some p => (p, true) | None => (None, false) end) w) /\
  (forall name,
     misses (fun m => Manager.Shaders m !! name) w am path b ->
     (Manager.Shaders bm !! name = None -> Manager.Parent bm = None) ->
     Manager.GetShader (S (length path + k)) am name w
     = Ret (match Manager.Shaders bm !! name with
            | Some s => (s, true) | None => (0, false) end) w) /\
  (forall set,
     misses (fun m => Manager.Programs m !! set) w am path b ->
     (Manager.Programs bm !! set = None -> Manager.Parent bm = None) ->
     Manager.GetProgram (S (length path + k)) am set w
     = Ret (match Manager.Programs bm !! set with
            | Some p => (p, true) | None => (0, false) end) w) /\
  (forall name,
     misses (fun m => Manager.Textures m !! name) w am path b ->
     (Manager.Textures bm !! name = None -> Manager.Parent bm = None) ->
     Manager.GetTexture (S (length path + k)) am name w
     = Ret (match Manager.Textures bm !! name with
            | Some p => (p, true) | None => (None, false) end) w).
Proof.
  intros Hb. split; [| split; [| split; [| split]]].
  - intros name Hpath Hroot. rewrite GetMaterial_chain.
    by apply (lookup_chain_path (fun m => Manager.Materials m !! name) None
                w path am b bm k).
  - intros name Hpath Hroot. rewrite GetMesh_chain.
    by apply (lookup_chain_path (fun m => Manager.Meshes m !! name) None
                w path am b bm k).
  - intros name Hpath Hroot. rewrite GetShader_chain.
    by apply (lookup_chain_path (fun m => Manager.Shaders m !! name) 0
                w path am b bm k).
  - intros set Hpath Hroot. rewrite GetProgram_chain.
    by apply (lookup_chain_path (fun m => Manager.Programs m !! set) 0
                w path am b bm k).
  - intros name Hpath Hroot. rewrite GetTexture_chain.
    by apply (lookup_chain_path (fun m => Manager.Textures m !! name) None
                w path am b bm k).
Qed.

Lemma Get_nearest_holder_witness :
  let root := Manager.mk ∅ {["quad" := Some 7%positive]} ∅ ∅ ∅ None in
  let mid := Manager.mk ∅ {["quad" := Some 8%positive]} ∅ ∅ ∅ (Some 1%positive) in
  let leaf := Manager.mk ∅ ∅ ∅ ∅ ∅ (Some 2%positive) in
  let w := Manager.mkWorld {[1%positive := root; 2%positive := mid;
                             3%positive := leaf]} ∅ ∅ ∅ GL.init in
  Manager.GetMesh 2 3%positive "quad" w = Ret (Some 8%positive, true) w /\
  Manager.GetMesh 3 3%positive "cube" w = Ret (None, false) w.
Proof.
  intros root mid leaf w. split.
  - refine (proj1 (proj2 (Get_nearest_holder w 3%positive [2%positive]
                            2%positive mid 0 _)) "quad" _ _).
    + reflexivity.
    + exists leaf. split; [reflexivity |]. split; [reflexivity |].
      split; reflexivity.
    + discriminate.
  - refine (proj1 (proj2 (Get_nearest_holder w 3%positive
                            [2%positive; 1%positive] 1%positive root 0 _))
              "cube" _ _).
    + reflexivity.
    + exists leaf. split; [reflexivity |]. split; [reflexivity |].
      split; [reflexivity |].
      exists mid. split; [reflexivity |]. split; [reflexivity |].
      split; reflexivity.
    + reflexivity.
Defined.

(** X24. A new manager sees what its parent sees. [NewManager] puts an
    empty manager with the given parent at an address that was free and
    leaves every other manager and every object as they were; whatever a
    [Get] method returned on the parent before, it returns on the new
    manager, one level deeper. *)
Theorem NewManager_sees_parent w parent :
  exists child w',
    Manager.NewManager (Some parent) w = Ret child w' /\
    Manager.managers w !! child = None /\
    w' = Manager.set_managers
           (<[child := Manager.mk ∅ ∅ ∅ ∅ ∅ (Some parent)]> (Manager.managers w)) w /\
    forall fuel,
      (forall name r, Manager.GetMaterial fuel parent name w = Ret r w ->
                      Manager.GetMaterial (S fuel) child name w' = Ret r w') /\
      (forall name r, Manager.GetMesh fuel parent name w = Ret r w ->
                      Manager.GetMesh (S fuel) child name w' = Ret r w') /\
      (forall name r, Manager.GetShader fuel parent name w = Ret r w ->
                      Manager.GetShader (S fuel) child name w' = Ret r w') /\
      (forall set r, Manager.GetProgram fuel parent set w = Ret r w ->
                     Manager.GetProgram (S fuel) child set w' = Ret r w') /\
      (forall name r, Manager.GetTexture fuel parent name w = Ret r w ->
                      Manager.GetTexture (S fuel) child name w' = Ret r w').
Proof.
  set (child := fresh (dom (Manager.managers w))).
  assert (Hfree : Manager.managers w !! child = None).
  { apply not_elem_of_dom. apply is_fresh. }
  exists child, (Manager.set_managers
                   (<[child := Manager.mk ∅ ∅ ∅ ∅ ∅ (Some parent)]>
                      (Manager.managers w)) w).
  split; [reflexivity |]. split; [exact Hfree |]. split; [reflexivity |].
  assert (Hgen : forall V (local : Manager.t -> option V) zero fuel r,
             local (Manager.mk ∅ ∅ ∅ ∅ ∅ (Some parent)) = None ->
             lookup_chain local zero fuel parent w = Ret r w ->
             lookup_chain local zero (S fuel) child
               (Manager.set_managers
                  (<[child := Manager.mk ∅ ∅ ∅ ∅ ∅ (Some parent)]>
                     (Manager.managers w)) w)
             = Ret r (Manager.set_managers
                        (<[child := Manager.mk ∅ ∅ ∅ ∅ ∅ (Some parent)]>
                           (Manager.managers w)) w)).
  { intros V local zero fuel r Hl Hr.
    rewrite (lookup_chain_parent local zero fuel child _
               (Manager.mk ∅ ∅ ∅ ∅ ∅ (Some parent)) parent);
      [| simpl; apply lookup_insert_eq | exact Hl | reflexivity].
    by apply lookup_chain_fresh. }
  intros fuel. split; [| split; [| split; [| split]]].
  - intros name r. rewrite !GetMaterial_chain. by apply Hgen.
  - intros name r. rewrite !GetMesh_chain. by apply Hgen.
  - intros name r. rewrite !GetShader_chain. by apply Hgen.
  - intros set r. rewrite !GetProgram_chain. by apply Hgen.
  - intros name r. rewrite !GetTexture_chain. by apply Hgen.
Qed.

(** ** The manager: loading *)

(** X25. A shader that fails to load is not registered. When [LoadShader]
    returns an error, the managers and the objects are as they were and the
    name is still not found, so that the next call tries again. If the file
    could not be read nothing at all has changed; if it was read, the
    error is the info log of the compilation, and the shader object
    created for the attempt has taken a name of the driver. *)
Theorem LoadShader_failure
    (read_file : string -> option string)
    (shader_log : GL.state -> Z -> string -> string)
    fuel am typ name w e w1 :
  Manager.LoadShader read_file shader_log fuel am typ name w = Ret (Err e) w1 ->
  w1 = Manager.set_driver (Manager.driver w1) w /\
  (exists v, Manager.GetShader fuel am name w1 = Ret (v, false) w1) /\
  match read_file ("assets/shaders/" +:+ name) with
  | None => e = FileError ("assets/shaders/" +:+ name) /\ w1 = w
  | Some buf =>
      GL.names (Manager.driver w1) = GL.names (Manager.driver w) + 1 /\
      GL.buffers (Manager.driver w1) = GL.buffers (Manager.driver w) /\
      GL.trace (Manager.driver w1)
      = GL.trace (Manager.driver w)
        ++ [GL.CCompileShader (GL.names (Manager.driver w) + 1) typ] /\
      exists g, e = InfoLog (shader_log g typ buf) /\
                Z.of_nat (String.length (shader_log g typ buf)) > 1
  end.
Proof.
  unfold Manager.LoadShader, bind.
  destruct (Manager.GetShader fuel am name w) as [[v found] w' | |] eqn:Hget;
    try discriminate.
  assert (w' = w) as -> by (by eapply GetShader_state).
  destruct found; cbn [snd fst]; [discriminate |].
  unfold Manager.gl, Manager.newShader.
  destruct (read_file ("assets/shaders/" +:+ name)) as [buf |].
  - unfold bind, GL.GenName, get, GL.Issue, ret. cbn [GL.issue GL.names GL.buffers GL.trace].
    case_decide as Hlog.
    + intros [= <- <-]. split; [by destruct w |]. split.
      * exists v. eapply GetShader_same; [apply same_view_driver | exact Hget].
      * cbn. split; [done |]. split; [done |]. split; [done |]. eauto.
    + intros H. exfalso. revert H.
      destruct (Manager.AddShader _ _ _ _ _) as [? ? | |]; discriminate.
  - unfold ret. intros [= <- <-]. split; [by destruct w |]. split.
    + exists v. cbn. replace (Manager.set_driver (Manager.driver w) w) with w
        by (by destruct w). exact Hget.
    + split; [done |]. by destruct w.
Qed.

Lemma LoadShader_failure_witness :
  let read_file := fun _ : string => Some "void main() {" in
  let shader_log := fun (_ : GL.state) (_ : Z) (_ : string) => "0:1: syntax error" in
  let w := Manager.mkWorld {[1%positive := Manager.mk ∅ ∅ ∅ ∅ ∅ None]}
                           ∅ ∅ ∅ GL.init in
  exists w1,
    Manager.LoadShader read_file shader_log 2 1%positive GL.VERTEX_SHADER
      "basic.vert" w = Ret (Err (InfoLog "0:1: syntax error")) w1 /\
    Manager.managers w1 = Manager.managers w /\
    GL.names (Manager.driver w1) = 1.
Proof.
  intros read_file shader_log w. eexists. split; [vm_compute; reflexivity |].
  match goal with
  | |- Manager.managers ?w1 = _ /\ _ =>
      destruct (LoadShader_failure read_file shader_log 2 1%positive
                  GL.VERTEX_SHADER "basic.vert" w
                  (InfoLog "0:1: syntax error") w1)
        as (Hw & _ & Hn & _); [vm_compute; reflexivity |]
  end.
  split; [reflexivity | exact Hn].
Defined.

Section TextureLoading.
Import Manager.
Variable open_image : string -> result Image.t.

Lemma lookup_chain_not_found {V} (local : t -> option V) zero fuel am w v w' :
  lookup_chain local zero fuel am w = Ret (v, false) w' ->
  exists mgr, managers w !! am = Some mgr /\ local mgr = None.
Proof.
  destruct fuel; [discriminate |]. simpl.
  destruct (managers w !! am) as [mgr |]; [| discriminate].
  destruct (local mgr) eqn:E; [discriminate | eauto].
Qed.

(** [NewTextureFromImage] returns no error, and names the texture as
    asked. *)
Lemma NewTextureFromImage_ok name img s r s' :
  Texture.NewTextureFromImage name img s = Ret r s' ->
  exists tex, r = Ok tex /\ Texture.Name tex = name.
Proof.
  destruct s as [g i].
  unfold Texture.NewTextureFromImage. unfold bind at 1.
  unfold Texture.NewTexture, bind, Texture.on_buffers, GL.GenName,
    GL.GenBuffers, ret.
  cbn [GL.names GL.buffers GL.trace].
  rewrite LoadImage_level0 by done.
  destruct (decide (Image.Pix (rgba_of img) = [])) as [Hnil | Hne].
  - unfold Texture.LoadRGBA. rewrite Hnil. discriminate.
  - rewrite LoadRGBA_eq by done. intros [= <- <-]. eauto.
Qed.

Lemma same_view_textures {V} (local : t -> option V) w x :
  same_view local w (set_textures x w).
Proof. intros a. simpl. by destruct (managers w !! a). Qed.

(** What a call of [LoadTexture] that returns has done. *)
Lemma LoadTexture_post fuel am name w i r w1 i1 :
  LoadTexture open_image fuel am name (w, i) = Ret r (w1, i1) ->
  match r with
  | Ok p =>
      GetTexture fuel am name w1 = Ret (p, true) w1 /\
      (forall n v, GetTexture fuel am n w = Ret (v, true) w ->
                   GetTexture fuel am n w1 = Ret (v, true) w1)
  | Err e =>
      open_image ("assets/textures/" +:+ name) = Err e /\ w1 = w /\ i1 = i
  end.
Proof.
  unfold LoadTexture. unfold bind at 1. unfold on_world at 1.
  destruct (GetTexture fuel am name w) as [[v found] w' | |] eqn:Hget;
    try discriminate.
  assert (w' = w) as ->.
  { rewrite GetTexture_chain in Hget. by eapply lookup_chain_state. }
  destruct found; cbn [snd fst].
  { unfold ret. intros [= <- <- <-]. by split. }
  destruct (open_image ("assets/textures/" +:+ name)) as [img | e] eqn:Hopen.
  2: { unfold ret. intros [= <- <- <-]. done. }
  unfold bind at 1. unfold on_driver at 1.
  destruct (Texture.NewTextureFromImage name img (driver w, i))
    as [r' [g' i'] | p [g' i'] |] eqn:Hnew; try discriminate.
  destruct (NewTextureFromImage_ok _ _ _ _ _ Hnew) as (tex & -> & Hname).
  rewrite GetTexture_chain in Hget.
  destruct (lookup_chain_not_found _ _ _ _ _ _ _ Hget) as (mgr & Hm & Hnone).
  unfold bind, on_world, alloc_texture.
  set (p := fresh (dom (textures (set_driver g' w)))).
  set (w2 := set_textures (<[p := tex]> (textures (set_driver g' w)))
               (set_driver g' w)).
  rewrite (AddTexture_eq am p w2 mgr tex);
    [| exact Hm | apply lookup_insert_eq].
  rewrite Hname, Hnone. unfold ret. intros [= <- <- <-]. split.
  - destruct fuel; [discriminate |]. rewrite GetTexture_chain.
    eapply lookup_chain_local; simpl; [apply lookup_insert_eq |].
    simpl. apply lookup_insert_eq.
  - intros n v' Hn.
    assert (n ≠ name).
    { intros ->. rewrite GetTexture_chain in Hn. congruence. }
    rewrite GetTexture_chain in *.
    eapply lookup_chain_same; [| exact Hn].
    eapply same_view_trans; [apply (same_view_driver _ w g') |].
    eapply same_view_trans;
      [apply (same_view_textures _ (set_driver g' w)
                (<[p := tex]> (textures (set_driver g' w)))) |].
    apply (same_view_store _ w2 _ mgr); [exact Hm | | reflexivity].
    simpl. by rewrite lookup_insert_ne.
Qed.

(** The loop of [LoadTextures], entered after the names [done]. *)
Lemma LoadTextures_range_post fuel am rest : forall done acc w i r w' i',
  length acc = (length done + length rest)%nat ->
  (forall j name, done !! j = Some name ->
     exists p, acc !! j = Some p /\
               GetTexture fuel am name w = Ret (p, true) w) ->
  LoadTextures_range open_image fuel am (length done) rest acc (w, i)
  = Ret r (w', i') ->
  match r with
  | Ok texs =>
      length texs = length (done ++ rest) /\
      forall j name, (done ++ rest) !! j = Some name ->
        exists p, texs !! j = Some p /\
                  GetTexture fuel am name w' = Ret (p, true) w'
  | Err e =>
      exists pre bad post,
        done ++ rest = pre ++ bad :: post /\
        open_image ("assets/textures/" +:+ bad) = Err e /\
        forall n, n ∈ pre ->
          exists p, GetTexture fuel am n w' = Ret (p, true) w'
  end.
Proof.
  induction rest as [| name rest IH]; intros done acc w i r w' i' Hlen Hdone;
    cbn [LoadTextures_range].
  - unfold ret. intros [= <- <- <-]. rewrite app_nil_r.
    split; [rewrite Hlen; cbn; lia | exact Hdone].
  - unfold bind.
    destruct (LoadTexture open_image fuel am name (w, i))
      as [r1 [w1 i1] | |] eqn:Hl; [| discriminate | discriminate].
    apply LoadTexture_post in Hl.
    destruct r1 as [tex | e1].
    + destruct Hl as [Hget Hmono].
      replace (S (length done)) with (length (done ++ [name]))
        by (rewrite length_app; cbn; lia).
      intros Hrun.
      apply IH in Hrun.
      * by rewrite <- app_assoc in Hrun.
      * rewrite length_insert, length_app. cbn in *. lia.
      * intros j n Hj.
        destruct (decide (j < length done)%nat) as [Hlt | Hge].
        -- rewrite lookup_app_l in Hj by done.
           destruct (Hdone j n Hj) as (p & Hp & Hg).
           exists p. split; [| by apply Hmono].
           rewrite list_lookup_insert_ne by lia. exact Hp.
        -- rewrite lookup_app_r in Hj by lia.
           destruct (j - length done)%nat as [| d] eqn:Hd; [| done].
           cbn in Hj. injection Hj as <-.
           assert (j = length done) as -> by lia.
           exists tex. split; [| exact Hget].
           apply list_lookup_insert_eq. cbn in Hlen. lia.
    + destruct Hl as (Hopen & -> & ->).
      unfold ret. intros [= <- <- <-].
      exists done, name, rest. split; [done |]. split; [done |].
      intros n Hn. apply list_elem_of_lookup in Hn as [j Hj].
      destruct (Hdone j n Hj) as (p & _ & Hg). eauto.
Qed.

End TextureLoading.

(** X26. A texture is loaded once. When [LoadTexture] returns a texture,
    the texture is found under the name, every texture that was found
    before still is, and the same call made next returns the same pointer
    and changes nothing: no file is opened and no texture created. When it
    returns an error, the error is that of opening or decoding the file
    and nothing has changed; no error comes from creating the texture. *)
Theorem LoadTexture_once (open_image : string -> result Image.t)
    fuel am name w i r w1 i1 :
  Manager.LoadTexture open_image fuel am name (w, i) = Ret r (w1, i1) ->
  match r with
  | Ok p =>
      Manager.GetTexture fuel am name w1 = Ret (p, true) w1 /\
      Manager.LoadTexture open_image fuel am name (w1, i1)
      = Ret (Ok p) (w1, i1) /\
      (forall n v, Manager.GetTexture fuel am n w = Ret (v, true) w ->
                   Manager.GetTexture fuel am n w1 = Ret (v, true) w1)
  | Err e =>
      open_image ("assets/textures/" +:+ name) = Err e /\ w1 = w /\ i1 = i
  end.
Proof.
  intros H. apply LoadTexture_post in H. destruct r as [p | e]; [| exact H].
  destruct H as [Hget Hmono]. split; [exact Hget |]. split; [| exact Hmono].
  unfold Manager.LoadTexture, bind, Manager.on_world. by rewrite Hget.
Qed.

Lemma LoadTexture_once_witness :
  let open_image := fun _ : string =>
    Ok (Image.IsRGBA (Image.mkRGBA [255; 0; 0; 255] 4
                        (Image.Rect (Image.Pt 0 0) (Image.Pt 1 1)))) in
  let w := Manager.mkWorld {[1%positive := Manager.mk ∅ ∅ ∅ ∅ ∅ None]}
                           ∅ ∅ ∅ GL.init in
  exists p w1 i1,
    Manager.LoadTexture open_image 2 1%positive "a.png" (w, ∅)
    = Ret (Ok p) (w1, i1) /\
    Manager.LoadTexture open_image 2 1%positive "a.png" (w1, i1)
    = Ret (Ok p) (w1, i1).
Proof.
  intros open_image w. eexists _, _, _. split; [vm_compute; reflexivity |].
  refine (proj1 (proj2 (LoadTexture_once open_image 2 1%positive "a.png" w ∅
                          (Ok _) _ _ _))).
  vm_compute. reflexivity.
Defined.

(** X27. [LoadTextures] in order, and what an error leaves behind. When
    it returns textures, there is one per name, in the order of the names,
    and each is found under its name in the state the call leaves. When it
    returns an error, the error is that of opening or decoding the file of
    one of the names, and the textures of the names before that one are
    found in the manager nonetheless: only the returned slice is
    dropped. *)
Theorem LoadTextures_outcome (open_image : string -> result Image.t)
    fuel am names w i r w' i' :
  Manager.LoadTextures open_image fuel am names (w, i) = Ret r (w', i') ->
  match r with
  | Ok texs =>
      length texs = length names /\
      forall j name, names !! j = Some name ->
        exists p, texs !! j = Some p /\
                  Manager.GetTexture fuel am name w' = Ret (p, true) w'
  | Err e =>
      exists pre bad post,
        names = pre ++ bad :: post /\
        open_image ("assets/textures/" +:+ bad) = Err e /\
        forall n, n ∈ pre ->
          exists p, Manager.GetTexture fuel am n w' = Ret (p, true) w'
  end.
Proof.
  unfold Manager.LoadTextures. intros H.
  apply (LoadTextures_range_post open_image fuel am names []) in H.
  - exact H.
  - by rewrite length_replicate.
  - intros j name Hj. done.
Qed.

Lemma LoadTextures_outcome_witness :
  let open_image := fun file : string =>
    if decide (file = "assets/textures/a.png")
    then Ok (Image.IsRGBA (Image.mkRGBA [255; 0; 0; 255] 4
                             (Image.Rect (Image.Pt 0 0) (Image.Pt 1 1))))
    else Err (FileError file) in
  let w := Manager.mkWorld {[1%positive := Manager.mk ∅ ∅ ∅ ∅ ∅ None]}
                           ∅ ∅ ∅ GL.init in
  match Manager.LoadTextures open_image 2 1%positive ["a.png"; "b.png"] (w, ∅) with
  | Ret (Err e) (w', _) =>
      e = FileError "assets/textures/b.png" /\
      exists p, Manager.GetTexture 2 1%positive "a.png" w' = Ret (p, true) w'
  | _ => False
  end.
Proof.
  intros open_image w.
  destruct (Manager.LoadTextures open_image 2 1%positive ["a.png"; "b.png"] (w, ∅))
    as [[texs | e] [w' i'] | p s |] eqn:E;
    pose proof E as E0; vm_compute in E0; try discriminate E0.
  split; [by injection E0 as <- _ _ |].
  destruct (LoadTextures_outcome open_image 2 1%positive ["a.png"; "b.png"]
              w ∅ (Err e) w' i' E)
    as (pre & bad & post & Heq & Hopen & Hpre).
  destruct pre as [| x pre].
  - injection Heq as <- _. injection E0 as <- _ _.
    vm_compute in Hopen. discriminate Hopen.
  - injection Heq as <- _. apply Hpre. by left.
Defined.

(** ** Textures: the staged upload *)

Section StagedUpload.
Import Texture.

Lemma copy_at_length {A} (pbuf : list A) i src :
  0 <= i <= Z.of_nat (length pbuf) ->
  length (copy_at pbuf i (drop (Z.to_nat i) pbuf) src) = length pbuf.
Proof.
  intros Hi. unfold copy_at.
  rewrite !length_app, !length_take, !length_drop. lia.
Qed.

(** The row loop keeps the length of the staging buffer, leaves the
    driver alone, and fails by a slice bound only. *)
Lemma copy_rows_outcome {S} rows : forall y t img offset pbuf (s : S),
  match copy_rows rows y t img offset pbuf s with
  | Ret pbuf' s' => length pbuf' = length pbuf /\ s' = s
  | Abort p s' => p = SliceOutOfRange /\ s' = s
  | Diverge => False
  end.
Proof.
  induction rows as [| rows IH]; intros y t img offset pbuf s;
    cbn [copy_rows]; [done |].
  case_decide; [| done].
  unfold bind, slice_from, slice_range.
  case_decide as Hi; [| done]. unfold ret at 1.
  case_decide as Hj; [| done]. unfold ret at 1.
  match goal with
  | |- context [copy_rows rows ?y' t img offset ?pbuf' s] =>
      specialize (IH y' t img offset pbuf' s);
      destruct (copy_rows rows y' t img offset pbuf' s) as [pb s1 | p s1 |];
      [| done | done]
  end.
  destruct IH as [Hlen ->]. split; [| done].
  rewrite Hlen. by apply copy_at_length.
Qed.

End StagedUpload.

(** X28. The staged upload of [LoadSubRGBA]. However the call ends, it
    first reallocates the buffer of the texture to [W*H*4] bytes. When
    the buffer cannot be mapped, the error is returned and nothing is
    uploaded; a row that does not fit makes it panic on a slice bound,
    again before anything is uploaded. When it returns nil, one upload was
    issued: of the size of the image, at the origin (0, 0) of the level
    whatever the offset is, from a staging buffer that has the length of
    the whole store. *)
Theorem LoadSubRGBA_outcome (map_buffer : GL.state -> bool)
    t img offset level g :
  let realloc := GL.CBufferData (Texture.Buf t)
                   (GoInt.mul (GoInt.mul (Texture.W t) (Texture.H t)) 4)
                   GL.STREAM_DRAW in
  match Texture.LoadSubRGBA map_buffer t img offset level g with
  | Ret None g' =>
      exists staged,
        GL.trace g'
        = GL.trace g
          ++ [realloc;
              GL.CTexSubImage2D (Texture.Tex t) level 0 0
                (GoInt.int32 (Image.Dx (Image.Bounds img)))
                (GoInt.int32 (Image.Dy (Image.Bounds img))) staged] /\
        length staged
        = Z.to_nat (GoInt.int32 (default 0 (GL.buffers g' !! Texture.Buf t)))
  | Ret (Some e) g' =>
      e = TextureMapFailed /\ GL.trace g' = GL.trace g ++ [realloc]
  | Abort p g' =>
      p = SliceOutOfRange /\ GL.trace g' = GL.trace g ++ [realloc]
  | Diverge => False
  end.
Proof.
  intros realloc. unfold Texture.LoadSubRGBA.
  unfold bind at 1. unfold GL.BufferData at 1.
  unfold bind at 1. unfold get at 1.
  match goal with
  | |- context [map_buffer ?g1] => set (g1' := g1)
  end.
  destruct (map_buffer g1'); [| done].
  unfold bind at 1.
  match goal with
  | |- context [Texture.copy_rows ?rows 0 t img offset ?pbuf g1'] =>
      pose proof (copy_rows_outcome rows 0 t img offset pbuf g1') as Hrows;
      destruct (Texture.copy_rows rows 0 t img offset pbuf g1')
        as [pbuf' g2 | p g2 |]; [| | done]
  end.
  - destruct Hrows as [Hlen ->].
    unfold bind, GL.Issue, ret. cbn [GL.issue GL.trace GL.buffers].
    exists pbuf'. split.
    + subst g1'. cbn [GL.trace]. by rewrite <- app_assoc.
    + rewrite Hlen, length_replicate. reflexivity.
  - destruct Hrows as [-> ->]. done.
Qed.

(** ** The manager: a program that fails to load *)

Section ProgramFailure.
Import Manager.

Variable read_file : string -> option string.
Variable shader_log : GL.state -> Z -> string -> string.
Variable program_log : GL.state -> Z -> Z -> Z -> string.

Lemma same_view_refl {V} (local : t -> option V) w : same_view local w w.
Proof. intros a. by destruct (managers w !! a). Qed.

(** [LoadShader] writes to no program map, and to no shader map when it
    fails. *)
Lemma LoadShader_view fuel am typ name w r w1 :
  Manager.LoadShader read_file shader_log fuel am typ name w = Ret r w1 ->
  (forall set, same_view (fun m => Programs m !! set) w w1) /\
  (forall e, r = Err e -> forall n, same_view (fun m => Shaders m !! n) w w1).
Proof.
  unfold Manager.LoadShader, bind.
  destruct (GetShader fuel am name w) as [[v found] w' | |] eqn:Hget;
    try discriminate.
  assert (w' = w) as -> by (by eapply GetShader_state).
  destruct found; cbn [snd fst].
  { unfold ret. intros [= <- <-]. split; intros; apply same_view_refl. }
  unfold gl.
  destruct (newShader read_file shader_log _ typ (driver w))
    as [[s' | e] g' | |]; try discriminate.
  - assert (Hm : is_Some (managers w !! am)).
    { rewrite GetShader_chain in Hget. by eapply lookup_chain_manager. }
    destruct Hm as [mgr Hm].
    assert (Hget' : GetShader fuel am name (set_driver g' w)
                    = Ret (v, false) (set_driver g' w)).
    { eapply GetShader_same; [apply same_view_driver | exact Hget]. }
    rewrite (AddShader_eq fuel am name s' (set_driver g' w) v false mgr Hm Hget').
    unfold ret. intros [= <- <-]. split; [| discriminate].
    intros set.
    eapply same_view_trans; [apply (same_view_driver _ w g') |].
    by apply (same_view_store _ (set_driver g' w) _ mgr).
  - unfold ret. intros [= <- <-]. split; intros; apply same_view_driver.
Qed.

(** The link step writes to no shader map, and to no program map when it
    fails. *)
Lemma LoadProgram_link_view fuel am set w r w1 :
  Manager.LoadProgram_link program_log fuel am set w = Ret r w1 ->
  (forall n, same_view (fun m => Shaders m !! n) w w1) /\
  (forall e, r = Err e ->
     forall set', same_view (fun m => Programs m !! set') w w1).
Proof.
  unfold Manager.LoadProgram_link, bind.
  destruct (GetProgram fuel am set w) as [[v found] w' | |] eqn:Hget;
    try discriminate.
  assert (w' = w) as -> by (by eapply GetProgram_state).
  destruct found; cbn [snd fst].
  { unfold ret. intros [= <- <-]. split; intros; apply same_view_refl. }
  unfold gl, GL.GenName, GL.Issue, get. simpl.
  case_decide.
  { unfold ret. intros [= <- <-].
    split; intros; intros a; simpl; by destruct (managers w !! a). }
  assert (Hm : is_Some (managers w !! am)).
  { rewrite GetProgram_chain in Hget. by eapply lookup_chain_manager. }
  destruct Hm as [mgr Hm].
  match goal with
  | |- context [AddProgram fuel am set ?prog ?w2] =>
      assert (Hget' : GetProgram fuel am set w2 = Ret (v, false) w2);
      [ eapply GetProgram_same; [| exact Hget]; intros a; simpl;
        by destruct (managers w !! a)
      | rewrite (AddProgram_eq fuel am set prog w2 v false mgr Hm Hget') ]
  end.
  unfold ret. intros [= <- <-]. split; [| discriminate].
  intros n a. simpl.
  destruct (decide (a = am)) as [-> | Hne].
  - by rewrite lookup_insert_eq, Hm.
  - rewrite lookup_insert_ne by done. by destruct (managers w !! a).
Qed.

End ProgramFailure.

(** X29. A program that fails to load keeps its shaders. When
    [LoadProgram] returns an error, every shader and every program that
    was found before is still found, no program was registered, and a
    vertex shader, and after it a fragment shader, that loaded on the way
    stays registered under its file name: the failure of a later stage or
    of the link does not undo the stages before it. *)
Theorem LoadProgram_failure
    (read_file : string -> option string)
    (shader_log : GL.state -> Z -> string -> string)
    (program_log : GL.state -> Z -> Z -> Z -> string)
    fuel am vfile ffile gfile w e w1 :
  Manager.LoadProgram read_file shader_log program_log
    fuel am vfile ffile gfile w = Ret (Err e) w1 ->
  (forall n v, Manager.GetShader fuel am n w = Ret (v, true) w ->
               Manager.GetShader fuel am n w1 = Ret (v, true) w1) /\
  (forall set r, Manager.GetProgram fuel am set w = Ret r w ->
                 Manager.GetProgram fuel am set w1 = Ret r w1) /\
  (forall vs wa,
     Manager.LoadShader read_file shader_log fuel am GL.VERTEX_SHADER vfile w
     = Ret (Ok vs) wa ->
     Manager.GetShader fuel am vfile w1 = Ret (vs, true) w1 /\
     forall fs wb,
       Manager.LoadShader read_file shader_log fuel am GL.FRAGMENT_SHADER ffile wa
       = Ret (Ok fs) wb ->
       Manager.GetShader fuel am ffile w1 = Ret (fs, true) w1).
Proof.
  unfold Manager.LoadProgram, bind.
  destruct (Manager.LoadShader read_file shader_log fuel am GL.VERTEX_SHADER vfile w)
    as [[vs | ev] wa | |] eqn:Hv; try discriminate.
  2: { unfold ret. intros [= <- <-].
       destruct (LoadShader_view _ _ _ _ _ _ _ _ _ Hv) as [Hp Hs].
       split; [| split; [| discriminate]].
       - intros n v. apply GetShader_same. by eapply Hs.
       - intros set r. apply GetProgram_same. apply Hp. }
  destruct (LoadShader_view _ _ _ _ _ _ _ _ _ Hv) as [Hpa _].
  destruct (LoadShader_post _ _ _ _ _ _ _ _ _ Hv) as [Hva Hka].
  destruct (Manager.LoadShader read_file shader_log fuel am GL.FRAGMENT_SHADER ffile wa)
    as [[fs | ef] wb | |] eqn:Hf; try discriminate.
  2: { unfold ret. intros [= <- <-].
       destruct (LoadShader_view _ _ _ _ _ _ _ _ _ Hf) as [Hp Hs].
       split; [| split].
       - intros n v Hn. eapply GetShader_same; [by eapply Hs |]. by apply Hka.
       - intros set r Hr. eapply GetProgram_same; [apply Hp |].
         eapply GetProgram_same; [apply Hpa | exact Hr].
       - intros vs' wa' [= <- <-]. split.
         + eapply GetShader_same; [by eapply Hs | exact Hva].
         + intros fs' wb' Hf'. rewrite Hf in Hf'. discriminate Hf'. }
  destruct (LoadShader_view _ _ _ _ _ _ _ _ _ Hf) as [Hpb _].
  destruct (LoadShader_post _ _ _ _ _ _ _ _ _ Hf) as [Hfb Hkb].
  assert (Hlink : forall set wc,
    (forall n v, Manager.GetShader fuel am n wb = Ret (v, true) wb ->
                 Manager.GetShader fuel am n wc = Ret (v, true) wc) ->
    (forall set', same_view (fun m => Manager.Programs m !! set') wb wc) ->
    Manager.LoadProgram_link program_log fuel am set wc = Ret (Err e) w1 ->
    (forall n v, Manager.GetShader fuel am n w = Ret (v, true) w ->
                 Manager.GetShader fuel am n w1 = Ret (v, true) w1) /\
    (forall set r, Manager.GetProgram fuel am set w = Ret r w ->
                   Manager.GetProgram fuel am set w1 = Ret r w1) /\
    (forall vs' wa',
       Ret (Ok vs) wa = Ret (Ok vs') wa' ->
       Manager.GetShader fuel am vfile w1 = Ret (vs', true) w1 /\
       forall fs' wb',
         Manager.LoadShader read_file shader_log fuel am GL.FRAGMENT_SHADER
           ffile wa' = Ret (Ok fs') wb' ->
         Manager.GetShader fuel am ffile w1 = Ret (fs', true) w1)).
  { intros set wc Hkc Hpc Hl.
    destruct (LoadProgram_link_view _ _ _ _ _ _ _ Hl) as [Hs Hp].
    split; [| split].
    - intros n v Hn. eapply GetShader_same; [apply Hs |].
      apply Hkc, Hkb, Hka, Hn.
    - intros set' r Hr. eapply GetProgram_same; [by eapply Hp |].
      eapply GetProgram_same; [apply Hpc |].
      eapply GetProgram_same; [apply Hpb |].
      eapply GetProgram_same; [apply Hpa | exact Hr].
    - intros vs' wa' [= <- <-]. split.
      + eapply GetShader_same; [apply Hs |]. apply Hkc, Hkb, Hva.
      + intros fs' wb' Hf'. rewrite Hf in Hf'. injection Hf' as <- <-.
        eapply GetShader_same; [apply Hs |]. apply Hkc, Hfb. }
  case_decide.
  - destruct (Manager.LoadShader read_file shader_log fuel am GL.GEOMETRY_SHADER gfile wb)
      as [[gs | eg] wc | |] eqn:Hg; try discriminate.
    + destruct (LoadShader_view _ _ _ _ _ _ _ _ _ Hg) as [Hpc _].
      destruct (LoadShader_post _ _ _ _ _ _ _ _ _ Hg) as [_ Hkc].
      apply Hlink; [exact Hkc | exact Hpc].
    + unfold ret. intros [= <- <-].
      destruct (LoadShader_view _ _ _ _ _ _ _ _ _ Hg) as [Hp Hs].
      split; [| split].
      * intros n v Hn. eapply GetShader_same; [by eapply Hs |].
        apply Hkb, Hka, Hn.
      * intros set r Hr. eapply GetProgram_same; [apply Hp |].
        eapply GetProgram_same; [apply Hpb |].
        eapply GetProgram_same; [apply Hpa | exact Hr].
      * intros vs' wa' [= <- <-]. split.
        -- eapply GetShader_same; [by eapply Hs |]. apply Hkb, Hva.
        -- intros fs' wb' Hf'. rewrite Hf in Hf'. injection Hf' as <- <-.
           eapply GetShader_same; [by eapply Hs | exact Hfb].
  - apply Hlink; [auto | intros; apply same_view_refl].
Qed.

Lemma LoadProgram_failure_witness :
  let read_file := fun file : string =>
    if decide (file = "assets/shaders/a.vert") then Some "void main() {}"
    else None in
  let shader_log := fun (_ : GL.state) (_ : Z) (_ : string) => "" in
  let program_log := fun (_ : GL.state) (_ _ _ : Z) => "" in
  let w := Manager.mkWorld {[1%positive := Manager.mk ∅ ∅ ∅ ∅ ∅ None]}
                           ∅ ∅ ∅ GL.init in
  match Manager.LoadProgram read_file shader_log program_log
          2 1%positive "a.vert" "b.frag" "" w with
  | Ret (Err e) w1 =>
      e = FileError "assets/shaders/b.frag" /\
      Manager.GetShader 2 1%positive "a.vert" w1 = Ret (1, true) w1
  | _ => False
  end.
Proof.
  intros read_file shader_log program_log w.
  destruct (Manager.LoadProgram read_file shader_log program_log
              2 1%positive "a.vert" "b.frag" "" w)
    as [[p | e] w1 | p s |] eqn:E;
    pose proof E as E0; vm_compute in E0; try discriminate E0.
  split; [by injection E0 as <- _ |].
  destruct (LoadProgram_failure read_file shader_log program_log
              2 1%positive "a.vert" "b.frag" "" w e w1 E) as (_ & _ & Hv).
  destruct (Manager.LoadShader read_file shader_log 2 1%positive
              GL.VERTEX_SHADER "a.vert" w) as [[vs | ev] wa | |] eqn:Ev;
    pose proof Ev as Ev0; vm_compute in Ev0; try discriminate Ev0.
  destruct (Hv vs wa eq_refl) as [Hfound _].
  injection Ev0 as <- _. exact Hfound.
Defined.

(** ** The manager: cleaning *)

Section ManagerClean.
Import Manager.

(** The loops of [Clean]: [I] holds throughout, [Q x] holds from the
    moment the entry [x] was cleaned, and the map of the manager loses
    the keys one by one. *)
Lemma range_delete_post {K V} (body : V -> M cleaning unit) (del : K -> t -> t)
    (I : cleaning -> Prop) (Q : V -> cleaning -> Prop) am :
  (forall w d x, I (w, d) -> I (set_managers x w, d)) ->
  (forall v w d x, Q v (w, d) -> Q v (set_managers x w, d)) ->
  forall entries s mgr,
    (forall e, e ∈ entries -> forall s, I s ->
       exists s', body e.2 s = Ret tt s' /\ I s' /\
                  managers s'.1 = managers s.1 /\ Q e.2 s' /\
                  forall x, Q x s -> Q x s') ->
    managers s.1 !! am = Some mgr -> I s ->
    exists s',
      range_delete body del am entries s = Ret tt s' /\ I s' /\
      managers s'.1
      = <[am := foldl (fun m e => del e.1 m) mgr entries]> (managers s.1) /\
      (forall e, e ∈ entries -> Q e.2 s') /\
      (forall x, Q x s -> Q x s').
Proof.
  intros HI HQ. induction entries as [| [k x] rest IH]; intros s mgr Hstep Hm Hs.
  - exists s. split; [done |]. split; [done |]. split.
    + cbn [foldl]. by rewrite insert_id.
    + split; [| done]. intros e He. by apply elem_of_nil in He.
  - destruct (Hstep (k, x) ltac:(by left) s Hs)
      as (s1 & Hb & Hs1 & Hm1 & Hq1 & Hk1).
    cbn [range_delete]. unfold bind at 1. cbn [snd] in Hb. rewrite Hb.
    unfold bind at 1. destruct s1 as [w1 d1]. cbn [fst] in Hm1.
    assert (Hm1' : managers w1 !! am = Some mgr) by (by rewrite Hm1).
    unfold update_manager at 1. rewrite Hm1'.
    destruct (IH (set_managers (<[am := del k mgr]> (managers w1)) w1, d1)
                 (del k mgr)) as (s' & Hrun & Hs' & Hm' & Hq' & Hk').
    + intros e He. apply Hstep. by right.
    + cbn. apply lookup_insert_eq.
    + by apply HI.
    + exists s'. split; [exact Hrun |]. split; [exact Hs' |]. split; [| split].
      * rewrite Hm'. cbn [fst managers set_managers foldl].
        rewrite Hm1. by rewrite insert_insert_eq.
      * intros e [-> | He]%elem_of_cons; [| by apply Hq'].
        apply Hk'. by apply HQ.
      * intros y Hy. apply Hk'. apply HQ. by apply Hk1.
Qed.

Lemma foldl_delete_keys_lookup {K V} `{Countable K}
    (entries : list (K * V)) (m : gmap K V) k :
  foldl (fun acc e => delete e.1 acc) m entries !! k
  = if decide (k ∈ entries.*1) then None else m !! k.
Proof.
  revert m. induction entries as [| e rest IH]; intros m; cbn [foldl fmap list_fmap].
  - rewrite decide_False; [done | apply not_elem_of_nil].
  - rewrite IH. destruct (decide (k ∈ rest.*1)) as [Hin | Hnin].
    + by rewrite decide_True by (by right).
    + destruct (decide (k = e.1)) as [-> | Hne].
      * rewrite decide_True by (by left). apply lookup_delete_eq.
      * rewrite lookup_delete_ne by done.
        rewrite decide_False; [done |].
        intros [? | ?]%elem_of_cons; done.
Qed.

(** Deleting every key of a map, in whatever order, empties it. *)
Lemma foldl_delete_all {K V} `{Countable K} (entries : list (K * V)) (m : gmap K V) :
  entries ≡ₚ map_to_list m ->
  foldl (fun acc e => delete e.1 acc) m entries = ∅.
Proof.
  intros Hperm. apply map_eq. intros k.
  rewrite foldl_delete_keys_lookup, lookup_empty.
  case_decide as Hk; [done |].
  destruct (m !! k) as [v |] eqn:E; [| done].
  exfalso. apply Hk. apply list_elem_of_fmap. exists (k, v). split; [done |].
  rewrite Hperm. by apply elem_of_map_to_list.
Qed.

(** A loop that deletes from one field of the manager rewrites that
    field only. *)
Lemma foldl_del_field {K V} `{Countable K} (get : t -> gmap K V)
    (set : gmap K V -> t -> t) :
  (forall x m, get (set x m) = x) ->
  (forall x y m, set x (set y m) = set x m) ->
  (forall m, set (get m) m = m) ->
  forall (entries : list (K * V)) mgr,
    foldl (fun m e => set (delete e.1 (get m)) m) mgr entries
    = set (foldl (fun acc e => delete e.1 acc) (get mgr) entries) mgr.
Proof.
  intros Hgs Hss Hsg. induction entries as [| e rest IH]; intros mgr;
    cbn [foldl]; [by rewrite Hsg |].
  rewrite IH, Hgs, Hss. done.
Qed.

(** [Mesh.Clean] returns, whatever the order, with the handle zeroed. *)
Lemma Mesh_Clean_returns order m g v :
  exists m' g' v',
    Mesh.Clean order (m, (g, v)) = Ret tt (m', (g', v')) /\ Mesh.Array m' = 0.
Proof.
  unfold Mesh.Clean, VertexArray.DeleteVertexArrays.
  cbn [Mesh.Attribs Mesh.set_Array]. rewrite Clean_range_eq.
  destruct (Mesh.Elements m) as [e |] eqn:He;
    cbn [Mesh.Elements Mesh.set_Attribs Mesh.set_Array]; rewrite He;
    unfold ElementArray.Clean, bind, GL.DeleteBuffers, ret;
    eexists _, _, _; split; reflexivity.
Qed.

End ManagerClean.

(** X30. [Clean] empties the manager. Take a manager whose material,
    mesh and texture maps hold pointers to objects, none nil. For every
    order in which the five maps are visited, [Clean] returns; the manager
    is then left with five empty maps and the parent it had, no other
    manager has changed, every material it held has lost its program and
    every mesh it held its vertex array handle, also for a holder that is
    another manager, and the texture objects are as they were. *)
Theorem Manager_Clean_empties attribs_order am w v i mgr
    mats mshs progs shds texs :
  Manager.managers w !! am = Some mgr ->
  mats ≡ₚ map_to_list (Manager.Materials mgr) ->
  mshs ≡ₚ map_to_list (Manager.Meshes mgr) ->
  progs ≡ₚ map_to_list (Manager.Programs mgr) ->
  shds ≡ₚ map_to_list (Manager.Shaders mgr) ->
  texs ≡ₚ map_to_list (Manager.Textures mgr) ->
  (forall name m, Manager.Materials mgr !! name = Some m ->
     exists l, m = Some l /\ is_Some (Manager.materials w !! l)) ->
  (forall name m, Manager.Meshes mgr !! name = Some m ->
     exists l, m = Some l /\ is_Some (Manager.meshes w !! l)) ->
  (forall name t, Manager.Textures mgr !! name = Some t ->
     exists l, t = Some l /\ is_Some (Manager.textures w !! l)) ->
  exists w' v' i',
    Manager.Clean attribs_order am mats mshs progs shds texs (w, (v, i))
    = Ret tt (w', (v', i')) /\
    Manager.managers w'
    = <[am := Manager.mk ∅ ∅ ∅ ∅ ∅ (Manager.Parent mgr)]> (Manager.managers w) /\
    (forall name l, Manager.Materials mgr !! name = Some (Some l) ->
       exists mat, Manager.materials w' !! l = Some mat /\ Material.Prog mat = 0) /\
    (forall name l, Manager.Meshes mgr !! name = Some (Some l) ->
       exists mesh, Manager.meshes w' !! l = Some mesh /\ Mesh.Array mesh = 0) /\
    Manager.textures w' = Manager.textures w.
Proof.
  intros Hm Pmat Pmsh Pprog Pshd Ptex Vmat Vmsh Vtex.
  unfold Manager.Clean. unfold bind at 1.
  unfold Manager.deref_manager at 1. rewrite Hm.
  (* the materials *)
  destruct (range_delete_post Manager.clean_material
              (fun name mgr => Manager.set_Materials
                                 (delete name (Manager.Materials mgr)) mgr)
              (fun s => Manager.meshes s.1 = Manager.meshes w /\
                        Manager.textures s.1 = Manager.textures w /\
                        forall l, is_Some (Manager.materials w !! l) ->
                                  is_Some (Manager.materials s.1 !! l))
              (fun m s => forall l, m = Some l ->
                 exists mat, Manager.materials s.1 !! l = Some mat /\
                             Material.Prog mat = 0)
              am)
    with (entries := mats) (s := (w, (v, i))) (mgr := mgr)
    as (s1 & R1 & (I1a & I1b & _) & M1 & Q1 & _);
    [done | done | | exact Hm | done |].
  { intros e He [w1 d] (Ha & Hb & Hdom).
    rewrite Pmat in He. destruct e as [name m].
    apply elem_of_map_to_list in He.
    destruct (Vmat name m He) as (l & -> & Hl).
    destruct (Hdom l Hl) as [mat Hmat]. cbn [fst snd] in *.
    eexists. unfold Manager.clean_material. rewrite Hmat.
    split; [reflexivity |]. cbn [fst Manager.set_materials Manager.meshes
      Manager.textures Manager.materials Manager.managers].
    split; [| split; [done |split]].
    - split; [done |]. split; [done |]. intros l' Hl'.
      destruct (decide (l' = l)) as [-> | Hne].
      + rewrite lookup_insert_eq. eauto.
      + rewrite lookup_insert_ne by done. by apply Hdom.
    - intros l' [= <-]. rewrite lookup_insert_eq. eauto.
    - intros x Hx l' Hl'. destruct (decide (l' = l)) as [-> | Hne].
      + rewrite lookup_insert_eq. eauto.
      + rewrite lookup_insert_ne by done. by apply Hx. }
  unfold bind at 1. rewrite R1.
  (* the meshes *)
  destruct (range_delete_post (Manager.clean_mesh attribs_order)
              (fun name mgr => Manager.set_Meshes
                                 (delete name (Manager.Meshes mgr)) mgr)
              (fun s => Manager.materials s.1 = Manager.materials s1.1 /\
                        Manager.textures s.1 = Manager.textures w /\
                        forall l, is_Some (Manager.meshes w !! l) ->
                                  is_Some (Manager.meshes s.1 !! l))
              (fun m s => forall l, m = Some l ->
                 exists mesh, Manager.meshes s.1 !! l = Some mesh /\
                              Mesh.Array mesh = 0)
              am)
    with (entries := mshs) (s := s1)
         (mgr := foldl (fun m e => Manager.set_Materials
                                     (delete e.1 (Manager.Materials m)) m)
                       mgr mats)
    as (s2 & R2 & (I2a & I2b & _) & M2 & Q2 & _);
    [done | done | | rewrite M1; apply lookup_insert_eq
    | split; [done | split; [done | by rewrite I1a]] |].
  { intros e He [w2 [v2 i2]] (Ha & Hb & Hdom).
    rewrite Pmsh in He. destruct e as [name m].
    apply elem_of_map_to_list in He.
    destruct (Vmsh name m He) as (l & -> & Hl).
    destruct (Hdom l Hl) as [mesh Hmesh]. cbn [fst snd] in *.
    unfold Manager.clean_mesh. rewrite Hmesh.
    destruct (Mesh_Clean_returns (attribs_order mesh) mesh
                (Manager.driver w2) v2) as (mesh' & g' & v' & -> & Harr).
    eexists. split; [reflexivity |].
    cbn [fst Manager.set_meshes Manager.set_driver Manager.meshes
         Manager.textures Manager.materials Manager.managers].
    split; [| split; [done | split]].
    - split; [done |]. split; [done |]. intros l' Hl'.
      destruct (decide (l' = l)) as [-> | Hne].
      + rewrite lookup_insert_eq. eauto.
      + rewrite lookup_insert_ne by done. by apply Hdom.
    - intros l' [= <-]. rewrite lookup_insert_eq. eauto.
    - intros x Hx l' Hl'. destruct (decide (l' = l)) as [-> | Hne].
      + rewrite lookup_insert_eq. eauto.
      + rewrite lookup_insert_ne by done. by apply Hx. }
  unfold bind at 1. rewrite R2.
  (* the programs and the shaders *)
  set (I3 := fun s : Manager.cleaning =>
               Manager.materials s.1 = Manager.materials s1.1 /\
               Manager.meshes s.1 = Manager.meshes s2.1 /\
               Manager.textures s.1 = Manager.textures w).
  assert (Hobj : forall (K : Type) (entries : list (K * Z)) e,
             e ∈ entries -> forall s, I3 s ->
             exists s', Manager.delete_object e.2 s = Ret tt s' /\ I3 s' /\
                        Manager.managers s'.1 = Manager.managers s.1 /\ True /\
                        forall x : Z, True -> True).
  { intros K entries e _ s Hs. exists s.
    split; [reflexivity |]. split; [exact Hs |]. done. }
  destruct (range_delete_post Manager.delete_object
              (fun set mgr => Manager.set_Programs
                                (delete set (Manager.Programs mgr)) mgr)
              I3 (fun _ _ => True) am)
    with (entries := progs) (s := s2)
         (mgr := foldl (fun m e => Manager.set_Meshes
                                     (delete e.1 (Manager.Meshes m)) m)
                   (foldl (fun m e => Manager.set_Materials
                                        (delete e.1 (Manager.Materials m)) m)
                          mgr mats) mshs)
    as (s3 & R3 & I3s & M3 & _ & _);
    [done | done | apply Hobj | rewrite M2; apply lookup_insert_eq
    | done |].
  unfold bind at 1. rewrite R3.
  destruct (range_delete_post Manager.delete_object
              (fun name mgr => Manager.set_Shaders
                                 (delete name (Manager.Shaders mgr)) mgr)
              I3 (fun _ _ => True) am)
    with (entries := shds) (s := s3)
         (mgr := foldl (fun m e => Manager.set_Programs
                                     (delete e.1 (Manager.Programs m)) m)
                  (foldl (fun m e => Manager.set_Meshes
                                       (delete e.1 (Manager.Meshes m)) m)
                     (foldl (fun m e => Manager.set_Materials
                                          (delete e.1 (Manager.Materials m)) m)
                            mgr mats) mshs) progs)
    as (s4 & R4 & I4s & M4 & _ & _);
    [done | done | apply Hobj | rewrite M3; apply lookup_insert_eq
    | done |].
  unfold bind at 1. rewrite R4.
  (* the textures *)
  destruct (range_delete_post Manager.clean_texture
              (fun name mgr => Manager.set_Textures
                                 (delete name (Manager.Textures mgr)) mgr)
              I3 (fun _ _ => True) am)
    with (entries := texs) (s := s4)
         (mgr := foldl (fun m e => Manager.set_Shaders
                                     (delete e.1 (Manager.Shaders m)) m)
                  (foldl (fun m e => Manager.set_Programs
                                       (delete e.1 (Manager.Programs m)) m)
                    (foldl (fun m e => Manager.set_Meshes
                                         (delete e.1 (Manager.Meshes m)) m)
                       (foldl (fun m e => Manager.set_Materials
                                            (delete e.1 (Manager.Materials m)) m)
                              mgr mats) mshs) progs) shds)
    as (s5 & R5 & (I5a & I5b & I5c) & M5 & _ & _);
    [done | done | | rewrite M4; apply lookup_insert_eq | done |].
  { intros e He [w5 [v5 i5]] (Ha & Hb & Hc).
    rewrite Ptex in He. destruct e as [name t].
    apply elem_of_map_to_list in He.
    destruct (Vtex name t He) as (l & -> & [tex Hl]). cbn [fst snd] in *.
    unfold Manager.clean_texture. cbn [mbind option_bind].
    rewrite Hc, Hl. eexists. split; [reflexivity |].
    by repeat split. }
  destruct s5 as [w' [v' i']]. exists w', v', i'.
  split; [exact R5 |]. cbn [fst] in *.
  split; [| split; [| split]].
  - rewrite M5, M4, M3, M2, M1. rewrite !insert_insert_eq. f_equal.
    rewrite (foldl_del_field Manager.Materials Manager.set_Materials)
      by (by intros; try destruct m).
    rewrite (foldl_del_field Manager.Meshes Manager.set_Meshes)
      by (by intros; try destruct m).
    rewrite (foldl_del_field Manager.Programs Manager.set_Programs)
      by (by intros; try destruct m).
    rewrite (foldl_del_field Manager.Shaders Manager.set_Shaders)
      by (by intros; try destruct m).
    rewrite (foldl_del_field Manager.Textures Manager.set_Textures)
      by (by intros; try destruct m).
    cbn [Manager.Materials Manager.Meshes Manager.Programs Manager.Shaders
         Manager.Textures Manager.set_Materials Manager.set_Meshes
         Manager.set_Programs Manager.set_Shaders Manager.set_Textures].
    rewrite !foldl_delete_all by done. reflexivity.
  - intros name l Hl. rewrite I5a.
    apply (Q1 (name, Some l)); [| done].
    rewrite Pmat. by apply elem_of_map_to_list.
  - intros name l Hl. rewrite I5b.
    apply (Q2 (name, Some l)); [| done].
    rewrite Pmsh. by apply elem_of_map_to_list.
  - exact I5c.
Qed.

Lemma Manager_Clean_empties_witness :
  let mgr := Manager.mk {["m" := Some 5%positive]} ∅ {["a.vert" := 3]}
               {[Manager.mkSet 3 4 0 := 9]} {["t" := Some 7%positive]} None in
  let w := Manager.mkWorld {[1%positive := mgr]}
             {[5%positive := Material.SetProgram 9 (Material.NewMaterial "m")]}
             ∅ {[7%positive := Texture.mk "t" 1 2 4 4]}
             (GL.mk 9 {[2 := 64]} []) in
  exists w' v' i',
    Manager.Clean (fun m => map_to_list (Mesh.Attribs m)) 1%positive
      [("m", Some 5%positive)] [] [(Manager.mkSet 3 4 0, 9)] [("a.vert", 3)]
      [("t", Some 7%positive)] (w, (VertexArray.init, ∅))
    = Ret tt (w', (v', i')) /\
    Manager.managers w' !! 1%positive = Some (Manager.mk ∅ ∅ ∅ ∅ ∅ None) /\
    exists mat, Manager.materials w' !! 5%positive = Some mat /\
                Material.Prog mat = 0.
Proof.
  intros mgr w.
  destruct (Manager_Clean_empties (fun m => map_to_list (Mesh.Attribs m))
              1%positive w VertexArray.init ∅ mgr
              [("m", Some 5%positive)] [] [(Manager.mkSet 3 4 0, 9)]
              [("a.vert", 3)] [("t", Some 7%positive)])
    as (w' & v' & i' & Hrun & Hmgr & Hmat & _).
  - reflexivity.
  - vm_compute. reflexivity.
  - vm_compute. reflexivity.
  - vm_compute. reflexivity.
  - vm_compute. reflexivity.
  - vm_compute. reflexivity.
  - intros name m H. cbn [Manager.Materials mgr] in H.
    apply lookup_singleton_Some in H as [<- <-].
    exists 5%positive. split; [reflexivity |]. by eexists.
  - intros name m H. cbn [Manager.Meshes mgr] in H.
    by rewrite lookup_empty in H.
  - intros name t H. cbn [Manager.Textures mgr] in H.
    apply lookup_singleton_Some in H as [<- <-].
    exists 7%positive. split; [reflexivity |]. by eexists.
  - exists w', v', i'. split; [exact Hrun |]. split.
    + rewrite Hmgr. apply lookup_insert_eq.
    + apply (Hmat "m" 5%positive). reflexivity.
Defined.
